(** * University-offer ingestion pipeline: a shallow embedding

    The development follows the Python sources of the pipeline:

    - [src/geo/matching.py]   : [GeoMatcher] (text normalisation, territory matching)
    - [src/etl/ingest.py]     : column normalisation, header detection, keys and
                                hashes, the checksum guard, the SCD Type-2 step
    - [src/dq/checks.py]      : the territory data-quality checks
    - [src/storage/supabase_storage.py] : the artifact uploader

    Python values are modelled as follows.  A general [str] is a list of Unicode
    code points ([pystr]).  Every text the pipeline keeps has first been sent
    through [unicodedata.normalize('NFKD', _).encode('ASCII', 'ignore')], so the
    texts after that step are ASCII and are modelled by Rocq's [string].
    Dictionaries are [gmap]s, or association lists where the order of the
    entries is visible.  Database tables are lists of records, a statement is a
    function from table to table. *)

From Stdlib Require Import ZArith NArith QArith Ascii String List Lia DecimalString Sorted.
From stdpp Require Import base option list strings gmap.

Close Scope Q_scope.
Local Open Scope string_scope.
Local Open Scope list_scope.

(** ** Python values *)

(** A Python [str]: the sequence of its code points. *)
Definition pystr := list N.

(** The values that occur in spreadsheet cells, column labels and row
    dictionaries: [None], the float [nan] (an empty cell), integers and
    strings.  Other floats and timestamps are not covered. *)
Inductive pyval :=
| PNone
| PNaN
| PInt (z : Z)
| PStr (s : pystr).

#[global] Instance pyval_eq_dec : EqDecision pyval.
Proof. solve_decision. Defined.

(** An ASCII text seen as a Python [str]. *)
Definition to_py (s : string) : pystr :=
  map N_of_ascii (list_ascii_of_string s).

(** Decoder for the UTF-8 bytes of a string literal of this file, used to
    write Python literals such as ["CANTÓN"]. *)
Fixpoint utf8_go (acc : N) (need : nat) (s : string) : pystr :=
  match s with
  | EmptyString => []
  | String c t =>
      let b := N_of_ascii c in
      match need with
      | O =>
          if (b <? 128)%N then b :: utf8_go 0 0 t
          else if (b <? 224)%N then utf8_go (b mod 32) 1 t
          else if (b <? 240)%N then utf8_go (b mod 16) 2 t
          else utf8_go (b mod 8) 3 t
      | S n =>
          let acc' := (acc * 64 + b mod 64)%N in
          match n with
          | O => acc' :: utf8_go 0 0 t
          | S _ => utf8_go acc' n t
          end
      end
  end.

Definition utf8 (s : string) : pystr := utf8_go 0 0 s.

(** [str(v)] for the values above.  Integers print in decimal. *)
Definition str_of_Z (z : Z) : string :=
  NilZero.string_of_int (Z.to_int z).

Definition py_str (v : pyval) : pystr :=
  match v with
  | PNone => to_py "None"
  | PNaN => to_py "nan"
  | PInt z => to_py (str_of_Z z)
  | PStr s => s
  end.

(** ** Text primitives on ASCII strings *)

Module Text.

Definition is_ascii (c : ascii) : bool := (N_of_ascii c <? 128)%N.

(** [str.isspace] restricted to ASCII: TAB, LF, VT, FF, CR, the four
    separators FS, GS, RS, US and the space. *)
Definition isspace (c : ascii) : bool :=
  let n := N_of_ascii c in
  ((9 <=? n) && (n <=? 13) || (28 <=? n) && (n <=? 32))%N.

Definition is_upper (c : ascii) : bool :=
  let n := N_of_ascii c in ((65 <=? n) && (n <=? 90))%N.

Definition is_lower (c : ascii) : bool :=
  let n := N_of_ascii c in ((97 <=? n) && (n <=? 122))%N.

Definition is_digit (c : ascii) : bool :=
  let n := N_of_ascii c in ((48 <=? n) && (n <=? 57))%N.

Definition lower_char (c : ascii) : ascii :=
  if is_upper c then ascii_of_N (N_of_ascii c + 32) else c.

Definition upper_char (c : ascii) : ascii :=
  if is_lower c then ascii_of_N (N_of_ascii c - 32) else c.

Fixpoint smap (f : ascii -> ascii) (s : string) : string :=
  match s with
  | EmptyString => EmptyString
  | String c t => String (f c) (smap f t)
  end.

(** [str.lower] and [str.upper] on ASCII text. *)
Definition lower : string -> string := smap lower_char.
Definition upper : string -> string := smap upper_char.

Fixpoint sall (P : ascii -> bool) (s : string) : bool :=
  match s with
  | EmptyString => true
  | String c t => P c && sall P t
  end.

(** [s.lstrip(chars)], [s.rstrip(chars)] and [s.strip(chars)], the set of
    characters given as a predicate. *)
Fixpoint lstrip_by (P : ascii -> bool) (s : string) : string :=
  match s with
  | EmptyString => EmptyString
  | String c t => if P c then lstrip_by P t else s
  end.

Fixpoint rstrip_by (P : ascii -> bool) (s : string) : string :=
  match s with
  | EmptyString => EmptyString
  | String c t =>
      match rstrip_by P t with
      | EmptyString => if P c then EmptyString else String c EmptyString
      | t' => String c t'
      end
  end.

Definition strip_by (P : ascii -> bool) (s : string) : string :=
  rstrip_by P (lstrip_by P s).

(** [s.strip()] *)
Definition strip : string -> string := strip_by isspace.

(** [s.split()]: the maximal runs of non-whitespace characters. *)
Fixpoint split (s : string) : list string :=
  match s with
  | EmptyString => []
  | String c t =>
      if isspace c then split t
      else
        match t with
        | EmptyString => [String c EmptyString]
        | String d _ =>
            if isspace d then String c EmptyString :: split t
            else
              match split t with
              | w :: ws => String c w :: ws
              | [] => [String c EmptyString]
              end
        end
  end.

(** [sep.join(words)] *)
Definition join (sep : string) (ws : list string) : string :=
  String.concat sep ws.

(** [re.sub(r'[P]+', '_', s)]: every maximal run of characters in the class
    [P] is replaced by one underscore.  [in_run] tells that the previous
    character belonged to the run being replaced. *)
Fixpoint sub_runs (P : ascii -> bool) (in_run : bool) (s : string) : string :=
  match s with
  | EmptyString => EmptyString
  | String c t =>
      if P c then
        if in_run then sub_runs P true t
        else String "_" (sub_runs P true t)
      else String c (sub_runs P false t)
  end.

Definition is_underscore (c : ascii) : bool := (N_of_ascii c =? 95)%N.

(** The class [[^A-Z0-9]]. *)
Definition not_upper_alnum (c : ascii) : bool :=
  negb (is_upper c || is_digit c).

(** A word: a non-empty text without whitespace. *)
Definition word (w : string) : Prop :=
  w <> EmptyString /\ sall (fun c => negb (isspace c)) w = true.

Section Unicode.

(** [unicodedata] is a table of the Python runtime.  What the pipeline uses
    of it is, for each code point, the ASCII characters of its compatibility
    decomposition: NFKD decomposes code point by code point and then only
    reorders combining marks, none of which is ASCII, so the ASCII
    characters that survive [encode('ASCII', 'ignore')] are the
    concatenation of the survivors of each code point. *)
Variable nfkd_ascii : N -> string.

(** [unicodedata.normalize('NFKD', s).encode('ASCII', 'ignore').decode('utf-8')] *)
Definition ascii_fold (s : pystr) : string :=
  String.concat EmptyString (map nfkd_ascii s).

(** [GeoMatcher.normalize_text] (matching.py, lines 19-28). *)
Definition normalize_text (text : pyval) : string :=
  match text with
  | PStr s =>
      let text := ascii_fold s in
      let text := strip (lower text) in
      join " " (split text)
  | _ => EmptyString
  end.

(** [normalize_column_name] (ingest.py, lines 41-47). *)
Definition normalize_column_name (col_name : pyval) : string :=
  let text := ascii_fold (py_str col_name) in
  let text := upper (strip text) in
  let text := sub_runs not_upper_alnum false text in
  strip_by is_underscore (sub_runs is_underscore false text).

End Unicode.

(** The table of [unicodedata] for U+0000 to U+00FF: ASCII is fixed, the
    accented Latin-1 letters lose their accent, the spacing accents and the
    no-break space leave a space, superscripts and fractions leave their
    digits.  Code points beyond U+00FF are outside this table and are dropped
    by it. *)
Definition latin1_nfkd_ascii (c : N) : string :=
  if (c <? 128)%N then String (ascii_of_N c) EmptyString
  else if bool_decide (c ∈ [160; 168; 175; 180; 184]%N) then " "
  else if (c =? 170)%N then "a"
  else if (c =? 178)%N then "2"
  else if (c =? 179)%N then "3"
  else if (c =? 185)%N then "1"
  else if (c =? 186)%N then "o"
  else if (c =? 188)%N then "14"
  else if (c =? 189)%N then "12"
  else if (c =? 190)%N then "34"
  else if ((192 <=? c) && (c <=? 197))%N then "A"
  else if (c =? 199)%N then "C"
  else if ((200 <=? c) && (c <=? 203))%N then "E"
  else if ((204 <=? c) && (c <=? 207))%N then "I"
  else if (c =? 209)%N then "N"
  else if ((210 <=? c) && (c <=? 214))%N then "O"
  else if ((217 <=? c) && (c <=? 220))%N then "U"
  else if (c =? 221)%N then "Y"
  else if ((224 <=? c) && (c <=? 229))%N then "a"
  else if (c =? 231)%N then "c"
  else if ((232 <=? c) && (c <=? 235))%N then "e"
  else if ((236 <=? c) && (c <=? 239))%N then "i"
  else if (c =? 241)%N then "n"
  else if ((242 <=? c) && (c <=? 246))%N then "o"
  else if ((249 <=? c) && (c <=? 252))%N then "u"
  else if ((c =? 253) || (c =? 255))%N then "y"
  else EmptyString.

End Text.

(** ** Exceptions *)

(** The exceptions the modelled functions raise.  Both schema failures of the
    loader are Python [ValueError]s, told apart by their message. *)
Inductive exn :=
| ValueError_duplicate_columns (dupes : list (string * list pyval))
    (* "Duplicate columns after normalization: {dupes}" *)
| ValueError_missing_columns (missing : list string)
    (* "Missing columns: {missing_cols}" *)
| ReadError (msg : string)
    (* whatever pandas raises while reading the workbook *)
| KeyError (key : string)
    (* a missing key of a row dictionary *)
| ClientError (msg : string).
    (* whatever the storage client raises *)

Inductive result (A : Type) :=
| Ok (a : A)
| Raise (e : exn).
Arguments Ok {A} a.
Arguments Raise {A} e.

(** ** The tabular loader (ingest.py, lines 27-88) *)

Record dataframe := {
  columns : list pyval;
  rows : list (list pyval)
}.

Definition REQUIRED_COLUMNS : list string :=
  [ "NOMBRE_IES"; "TIPO_IES"; "TIPO_FINANCIAMIENTO"; "NOMBRE_CARRERA";
    "CAMPO_AMPLIO"; "NIVEL_FORMACION"; "MODALIDAD"; "PROVINCIA"; "CANTON"; "ESTADO" ].

(** The keys of the dictionary [{c: f(c) for c in cols}], in insertion order:
    the first occurrence of each label.  A float nan is a key of its own each
    time it occurs: [nan != nan], and the index hands out a float object of
    its own for every such label, so no two of them meet in one key. *)
Fixpoint dict_keys_from (seen cols : list pyval) : list pyval :=
  match cols with
  | [] => []
  | c :: t =>
      if bool_decide (c ∈ seen /\ c <> PNaN) then dict_keys_from seen t
      else c :: dict_keys_from (c :: seen) t
  end.

Definition dict_keys (cols : list pyval) : list pyval := dict_keys_from [] cols.

(** [d.setdefault(k, []).append(v)] on an insertion-ordered dictionary. *)
Fixpoint setdefault_append (k : string) (v : pyval) (d : list (string * list pyval))
  : list (string * list pyval) :=
  match d with
  | [] => [(k, [v])]
  | (k', vs) :: t =>
      if String.eqb k k' then (k', vs ++ [v]) :: t
      else (k', vs) :: setdefault_append k v t
  end.

(** [d.get(k, [])] *)
Fixpoint dict_get (k : string) (d : list (string * list pyval)) : list pyval :=
  match d with
  | [] => []
  | (k', vs) :: t => if String.eqb k k' then vs else dict_get k t
  end.

(** How the three calls of [pd.read_excel] in [load_excel] treat the header. *)
Inductive header_arg :=
| header_first        (* pd.read_excel(file_path) *)
| header_none         (* pd.read_excel(file_path, header=None) *)
| header_at (n : nat). (* pd.read_excel(file_path, header=n) *)

(** The loader reads, and may raise: a computation yields the reads it
    performed, in order, and a value or an exception. *)
Definition loader (A : Type) : Type := list header_arg * result A.

#[global] Instance loader_ret : MRet loader := fun A a => ([], Ok a).
#[global] Instance loader_bind : MBind loader := fun A B f m =>
  match m with
  | (log, Ok a) => let (log', r) := f a in (log ++ log', r)
  | (log, Raise e) => (log, Raise e)
  end.
Definition raise {A} (e : exn) : loader A := ([], Raise e).
Definition lift {A} (r : result A) : loader A := ([], r).

Section Loader.

Variable nfkd_ascii : N -> string.

(** [pd.read_excel]: the workbook at a path, read with a header convention. *)
Variable read_excel : string -> header_arg -> result dataframe.

(** [normalize_columns] (ingest.py, lines 50-58). *)
Definition normalize_columns (df : dataframe) : result dataframe :=
  let normalized := map (fun c => (c, Text.normalize_column_name nfkd_ascii c)) (dict_keys (columns df)) in
  let collisions :=
    foldl (fun d '(original, norm) => setdefault_append norm original d) [] normalized in
  let dupes := filter (fun kv => 1 < length kv.2) collisions in
  match dupes with
  | _ :: _ => Raise (ValueError_duplicate_columns dupes)
  | [] =>
      Ok {| columns := map (fun c => PStr (to_py (Text.normalize_column_name nfkd_ascii c))) (columns df);
            rows := rows df |}
  end.

(** [[c for c in REQUIRED_COLUMNS if c not in df.columns]] *)
Definition missing_cols (df : dataframe) : list string :=
  filter (fun c => PStr (to_py c) ∉ columns df) REQUIRED_COLUMNS.

(** [all(col in normalized for col in REQUIRED_COLUMNS)] for the cells of a row. *)
Definition covers_required (row_values : list pyval) : bool :=
  let normalized := map (Text.normalize_column_name nfkd_ascii) row_values in
  forallb (fun col => bool_decide (col ∈ normalized)) REQUIRED_COLUMNS.

(** The loop of [detect_header_row] over [range(idx, scan_limit)]. *)
Fixpoint scan_rows (idx : nat) (rs : list (list pyval)) : option nat :=
  match rs with
  | [] => None
  | row_values :: rest =>
      if covers_required row_values then Some idx else scan_rows (S idx) rest
  end.

(** [detect_header_row] (ingest.py, lines 61-68). *)
Definition detect_header_row (df_raw : dataframe) (max_scan : nat) : option nat :=
  let scan_limit := min max_scan (length (rows df_raw)) in
  scan_rows 0 (take scan_limit (rows df_raw)).

Definition read (file_path : string) (h : header_arg) : loader dataframe :=
  ([h], read_excel file_path h).

(** [load_excel] (ingest.py, lines 71-88). *)
Definition load_excel (file_path : string) : loader dataframe :=
  df ← read file_path header_first;
  df ← lift (normalize_columns df);
  let missing := missing_cols df in
  match missing with
  | [] => mret df
  | _ :: _ =>
      df_raw ← read file_path header_none;
      match detect_header_row df_raw 50 with
      | None => raise (ValueError_missing_columns missing)
      | Some header_row =>
          df ← read file_path (header_at header_row);
          df ← lift (normalize_columns df);
          match missing_cols df with
          | [] => mret df
          | _ :: _ as missing => raise (ValueError_missing_columns missing)
          end
      end
  end.

End Loader.

(** The labels pandas makes of a header row: an empty cell at position [i]
    is named [Unnamed: i], the other cells are taken as they are. *)
Definition header_labels (r : list pyval) : list pyval :=
  imap (fun i c =>
          match c with
          | PNone | PNaN => PStr (utf8 "Unnamed: " ++ py_str (PInt (Z.of_nat i)))
          | _ => c
          end) r.

(** A reader for a workbook given as its rows of cells, used to run the
    loader on examples.  With [header=None] pandas labels the columns
    0, 1, 2, ... and every row is data; with a header row it makes the labels
    of the cells of that row and takes the rows below as data.  (pandas also
    renames repeated header cells; the examples below have none.) *)
Definition sheet_reader (sheet : list (list pyval)) (file_path : string) (h : header_arg)
  : result dataframe :=
  match h with
  | header_none =>
      let width := foldr (fun r w => max (length r) w) 0 sheet in
      Ok {| columns := map (fun i => PInt (Z.of_nat i)) (seq 0 width); rows := sheet |}
  | header_first =>
      match sheet with
      | [] => Ok {| columns := []; rows := [] |}
      | r :: t => Ok {| columns := header_labels r; rows := t |}
      end
  | header_at n =>
      match drop n sheet with
      | [] => Raise (ReadError "header row out of range")
      | r :: t => Ok {| columns := header_labels r; rows := t |}
      end
  end.

(** Row [i] of a dataframe is a header row: its normalised cells cover the
    ten required columns. *)
Definition is_header_row (nfkd_ascii : N -> string) (df : dataframe) (i : nat) : Prop :=
  exists row_values, rows df !! i = Some row_values
                     /\ covers_required nfkd_ascii row_values = true.

(** ** SHA-256 ([hashlib.sha256], FIPS 180-4) *)

Module SHA256.
Local Open Scope N_scope.

Definition w32 (x : N) : N := x mod 4294967296.
Definition add32 (x y : N) : N := w32 (x + y).
Definition rotr (n x : N) : N := N.lor (N.shiftr x n) (w32 (N.shiftl x (32 - n))).
Definition not32 (x : N) : N := N.lxor x 4294967295.

Definition Ch (x y z : N) : N := N.lxor (N.land x y) (N.land (not32 x) z).
Definition Maj (x y z : N) : N :=
  N.lxor (N.lxor (N.land x y) (N.land x z)) (N.land y z).
Definition Sigma0 (x : N) : N := N.lxor (N.lxor (rotr 2 x) (rotr 13 x)) (rotr 22 x).
Definition Sigma1 (x : N) : N := N.lxor (N.lxor (rotr 6 x) (rotr 11 x)) (rotr 25 x).
Definition sigma0 (x : N) : N := N.lxor (N.lxor (rotr 7 x) (rotr 18 x)) (N.shiftr x 3).
Definition sigma1 (x : N) : N := N.lxor (N.lxor (rotr 17 x) (rotr 19 x)) (N.shiftr x 10).

(** The round constants are the first 32 bits of the fractional parts of the
    cube roots of the first 64 primes, the initial hash value those of the
    square roots of the first 8 primes. *)
Definition primes : list N :=
  [ 2; 3; 5; 7; 11; 13; 17; 19; 23; 29; 31; 37; 41; 43; 47; 53; 59; 61; 67; 71; 73; 79; 83;
    89; 97; 101; 103; 107; 109; 113; 127; 131; 137; 139; 149; 151; 157; 163; 167; 173; 179;
    181; 191; 193; 197; 199; 211; 223; 227; 229; 233; 239; 241; 251; 257; 263; 269; 271; 277;
    281; 283; 293; 307; 311 ].

(** Integer cube root below [2 ^ bits], one bit at a time from the top. *)
Fixpoint cbrt_bits (bits : nat) (x r : N) : N :=
  match bits with
  | O => r
  | S b =>
      let r' := r + 2 ^ N.of_nat b in
      cbrt_bits b x (if r' * r' * r' <=? x then r' else r)
  end.

Definition frac_cbrt32 (p : N) : N := w32 (cbrt_bits 36 (p * 2 ^ 96) 0).
Definition frac_sqrt32 (p : N) : N := w32 (N.sqrt (p * 2 ^ 64)).

Definition K : list N := Eval vm_compute in map frac_cbrt32 primes.
Definition H0 : list N := Eval vm_compute in map frac_sqrt32 (firstn 8 primes).

(** Big-endian bytes of a number, [n] bytes wide. *)
Fixpoint be_bytes (n : nat) (x : N) : list N :=
  match n with
  | O => []
  | S n' => be_bytes n' (x / 256) ++ [x mod 256]
  end.

(** The padded message: the bytes, the byte 0x80, zero bytes up to 56 modulo
    64, and the bit length on eight bytes. *)
Definition pad (msg : list N) : list N :=
  let len := N.of_nat (length msg) in
  let zeros := N.to_nat ((119 - len mod 64) mod 64) in
  msg ++ [128] ++ repeat 0 zeros ++ be_bytes 8 (8 * len).

(** The 32-bit big-endian words of a byte sequence. *)
Fixpoint words_of (fuel : nat) (bs : list N) : list N :=
  match fuel, bs with
  | S fuel', b0 :: b1 :: b2 :: b3 :: rest =>
      (((b0 * 256 + b1) * 256 + b2) * 256 + b3) :: words_of fuel' rest
  | _, _ => []
  end.

(** The message schedule: [window] holds the sixteen latest words, oldest
    first; each step emits the oldest and appends the next. *)
Fixpoint schedule (n : nat) (window : list N) : list N :=
  match n with
  | O => []
  | S n' =>
      match window with
      | w0 :: rest =>
          let w1 := nth 0 rest 0 in
          let w9 := nth 8 rest 0 in
          let w14 := nth 13 rest 0 in
          let next := add32 (add32 (sigma1 w14) w9) (add32 (sigma0 w1) w0) in
          w0 :: schedule n' (rest ++ [next])
      | [] => []
      end
  end.

Record regs := { ra : N; rb : N; rc : N; rd : N; re : N; rf : N; rg : N; rh : N }.

Definition round (s : regs) (kw : N * N) : regs :=
  let t1 := add32 (add32 (add32 (rh s) (Sigma1 (re s))) (add32 (Ch (re s) (rf s) (rg s)) kw.1)) kw.2 in
  let t2 := add32 (Sigma0 (ra s)) (Maj (ra s) (rb s) (rc s)) in
  {| ra := add32 t1 t2; rb := ra s; rc := rb s; rd := rc s;
     re := add32 (rd s) t1; rf := re s; rg := rf s; rh := rg s |}.

Definition initial : regs :=
  let h i := nth i H0 0 in
  {| ra := h 0%nat; rb := h 1%nat; rc := h 2%nat; rd := h 3%nat;
     re := h 4%nat; rf := h 5%nat; rg := h 6%nat; rh := h 7%nat |}.

Definition compress (h : regs) (block : list N) : regs :=
  let s := fold_left round (combine K (schedule 64 block)) h in
  {| ra := add32 (ra h) (ra s); rb := add32 (rb h) (rb s);
     rc := add32 (rc h) (rc s); rd := add32 (rd h) (rd s);
     re := add32 (re h) (re s); rf := add32 (rf h) (rf s);
     rg := add32 (rg h) (rg s); rh := add32 (rh h) (rh s) |}.

Fixpoint blocks (fuel : nat) (h : regs) (ws : list N) : regs :=
  match fuel, ws with
  | S fuel', _ :: _ => blocks fuel' (compress h (firstn 16 ws)) (skipn 16 ws)
  | _, _ => h
  end.

Definition digest (msg : list N) : list N :=
  let ws := words_of (length msg + 72) (pad msg) in
  let h := blocks (length ws) initial ws in
  flat_map (be_bytes 4) [ra h; rb h; rc h; rd h; re h; rf h; rg h; rh h].

Definition hex_digit (d : N) : ascii :=
  if d <? 10 then ascii_of_N (48 + d) else ascii_of_N (87 + d).

Fixpoint hex_of_bytes (bs : list N) : string :=
  match bs with
  | [] => EmptyString
  | b :: t => String (hex_digit (b / 16)) (String (hex_digit (b mod 16)) (hex_of_bytes t))
  end.

(** [hashlib.sha256(data).hexdigest()] *)
Definition hexdigest (data : list N) : string := hex_of_bytes (digest data).

End SHA256.

(** ** [json.dumps] for flat dictionaries *)

Module Json.

Definition quote : ascii := ascii_of_N 34.
Definition backslash : ascii := ascii_of_N 92.

Definition hex4 (n : N) : string :=
  let d i := SHA256.hex_digit ((n / 16 ^ i) mod 16)%N in
  String (d 3%N) (String (d 2%N) (String (d 1%N) (String (d 0%N) EmptyString))).

Definition u_escape (n : N) : string :=
  String backslash (String "u" (hex4 n)).

Definition short_escape (c : ascii) : string :=
  String backslash (String c EmptyString).

(** One character of [py_encode_basestring_ascii] ([ensure_ascii=True]): the
    quote, the backslash and the five control characters with a short form;
    printable ASCII as it is; anything else as [\uXXXX], a surrogate pair
    beyond the basic plane. *)
Definition escape_char (c : N) : string :=
  if (c =? 34)%N then short_escape quote
  else if (c =? 92)%N then short_escape backslash
  else if (c =? 10)%N then short_escape "n"
  else if (c =? 13)%N then short_escape "r"
  else if (c =? 9)%N then short_escape "t"
  else if (c =? 8)%N then short_escape "b"
  else if (c =? 12)%N then short_escape "f"
  else if ((32 <=? c) && (c <=? 126))%N then String (ascii_of_N c) EmptyString
  else if (c <? 65536)%N then u_escape c
  else
    let n := (c - 65536)%N in
    u_escape (N.lor 55296 (N.land (N.shiftr n 10) 1023))
    +:+ u_escape (N.lor 56320 (N.land n 1023)).

Definition encode_string (s : pystr) : string :=
  String quote (String.concat EmptyString (map escape_char s) +:+ String quote EmptyString).

Definition encode_value (v : pyval) : string :=
  match v with
  | PNone => "null"
  | PNaN => "NaN"
  | PInt z => str_of_Z z
  | PStr s => encode_string s
  end.

(** [sorted(d.items())] for string keys: insertion sort on the keys. *)
Fixpoint insert_item (kv : string * pyval) (l : list (string * pyval)) :=
  match l with
  | [] => [kv]
  | kv' :: t =>
      if String.leb kv.1 kv'.1 then kv :: l else kv' :: insert_item kv t
  end.

Definition sort_items (d : list (string * pyval)) : list (string * pyval) :=
  foldr insert_item [] d.

(** [json.dumps(d, sort_keys=sort_keys)] for a dictionary with string keys,
    given as the list of its items in insertion order. *)
Definition dumps (d : list (string * pyval)) (sort_keys : bool) : string :=
  let items := if sort_keys then sort_items d else d in
  "{" +:+ String.concat ", "
            (map (fun kv => encode_string (to_py kv.1) +:+ ": " +:+ encode_value kv.2) items)
      +:+ "}".

End Json.

(** ** Keys and hashes (ingest.py, lines 120-127) *)

(** Truth value of a Python value, and [v or w]. *)
Definition py_truthy (v : pyval) : bool :=
  match v with
  | PNone => false
  | PNaN => true
  | PInt z => negb (z =? 0)%Z
  | PStr s => match s with [] => false | _ :: _ => true end
  end.

Definition py_or (v w : pyval) : pyval := if py_truthy v then v else w.

(** [row.get(key)] *)
Definition row_get (row : gmap string pyval) (key : string) : pyval :=
  default PNone (row !! key).

(** [s.encode('utf-8')] for an ASCII text: one byte per character. *)
Definition encode_utf8 (s : string) : list N := to_py s.

(** [generate_row_hash]; [row['natural_key']] raises [KeyError] when the row
    has no such key. *)
Definition generate_row_hash (row : gmap string pyval) : result string :=
  match row !! "natural_key" with
  | None => Raise (KeyError "natural_key")
  | Some natural_key =>
      let content :=
        [ ("natural_key", natural_key);
          ("estado_norm", py_or (row_get row "estado_norm") (PStr [])) ] in
      let dump := Json.dumps content true in
      Ok (SHA256.hexdigest (encode_utf8 dump))
  end.

(** The normalised status of a row as the hash sees it: its text, the empty
    text when the row has none. *)
Definition status_text (row : gmap string pyval) : pystr :=
  match row !! "estado_norm" with
  | Some (PStr s) => s
  | _ => []
  end.

(** The status is absent, [None] or a text, as [normalize_value] leaves it. *)
Definition status_normalized (row : gmap string pyval) : Prop :=
  match row !! "estado_norm" with
  | None | Some PNone | Some (PStr _) => True
  | _ => False
  end.

(** ** Fuzzy scores ([rapidfuzz]) *)

(** [rapidfuzz] is a library outside the repository: [match_territory] below
    takes [process.extractOne] as a parameter and its properties hold for
    every such function.  To run it on examples, this module gives the
    library's documented behaviour for [fuzz.ratio] and [process.extractOne]:
    the insertion-deletion distance of the two texts, normalised by the sum of
    their lengths, on a scale of 0 to 100; the first candidate of highest
    score.  Scores are exact rationals where the library computes in floating
    point. *)
Module Fuzz.

(** One row of the longest-common-subsequence table: [prev] is the row of the
    text read so far against every prefix of [t], [left] the entry just
    computed. *)
Fixpoint lcs_row (a : ascii) (t : list ascii) (prev : list nat) (left : nat) : list nat :=
  match t, prev with
  | b :: t', pj :: ((pj1 :: _) as prev') =>
      let cur := if Ascii.eqb a b then S pj else Nat.max pj1 left in
      cur :: lcs_row a t' prev' cur
  | _, _ => []
  end.

Definition lcs (s t : string) : nat :=
  let t' := list_ascii_of_string t in
  let row0 := repeat 0 (S (length t')) in
  List.last (fold_left (fun row a => 0 :: lcs_row a t' row 0) (list_ascii_of_string s) row0) 0.

(** [fuzz.ratio(s, t)]: [100 * (1 - distance / (len(s) + len(t)))], the
    distance counting insertions and deletions; [100] for two empty texts. *)
Definition ratio (s t : string) : Q :=
  let lensum := String.length s + String.length t in
  let dist := lensum - 2 * lcs s t in
  match lensum with
  | O => 100%Q
  | S _ => (100 * (1 - (Z.of_nat dist # Pos.of_nat lensum)))%Q
  end.

(** The scan of [extractOne]: a later candidate replaces the best one only
    with a strictly higher score. *)
Fixpoint best_of (query : string) (choices : list string) (best : option (string * Q))
  : option (string * Q) :=
  match choices with
  | [] => best
  | c :: rest =>
      let score := ratio query c in
      match best with
      | Some (_, s) => if Qlt_le_dec s score then best_of query rest (Some (c, score))
                       else best_of query rest best
      | None => best_of query rest (Some (c, score))
      end
  end.

(** [process.extractOne(query, choices, scorer=fuzz.ratio)], without the
    index of the match: [None] when there are no choices. *)
Definition extractOne (query : string) (choices : list string) : option (string * Q) :=
  best_of query choices None.

End Fuzz.

(** ** GeoMatcher (matching.py) *)

Inductive geo_method := exact | fuzzy | failed_prov | failed_canton | no_catalog.

(** What [load_catalog] finds at the catalog path: no file; a table with the
    columns [provincia_norm] and [canton_norm]; a table with only the raw
    columns [provincia] and [canton]; anything else. *)
Inductive catalog_file :=
| catalog_absent
| catalog_normalized (pairs : list (string * string))
| catalog_raw (pairs : list (pyval * pyval))
| catalog_unusable.

Record GeoMatcher := {
  catalog : option (list (string * string));
  provinces : list string;
  cantons_by_prov : gmap string (list string);
  valid_pairs : gset (string * string)
}.

(** [df['provincia_norm'].unique().tolist()]: first occurrences, in order. *)
Fixpoint unique_from (seen l : list string) : list string :=
  match l with
  | [] => []
  | x :: t =>
      if bool_decide (x ∈ seen) then unique_from seen t
      else x :: unique_from (x :: seen) t
  end.

Definition matcher_of_pairs (pairs : list (string * string)) : GeoMatcher :=
  {| catalog := Some pairs;
     provinces := unique_from [] (map fst pairs);
     cantons_by_prov :=
       foldl (fun d pc => <[pc.1 := default [] (d !! pc.1) ++ [pc.2]]> d) ∅ pairs;
     valid_pairs := list_to_set pairs |}.

Definition empty_matcher : GeoMatcher :=
  {| catalog := None; provinces := []; cantons_by_prov := ∅; valid_pairs := ∅ |}.

Section Geo.

Variable nfkd_ascii : N -> string.
Variable extractOne : string -> list string -> option (string * Q).

(** [GeoMatcher.__init__] followed by [load_catalog] (matching.py, lines 10-62). *)
Definition load_catalog (file : catalog_file) : GeoMatcher :=
  match file with
  | catalog_absent | catalog_unusable => empty_matcher
  | catalog_normalized pairs => matcher_of_pairs pairs
  | catalog_raw pairs =>
      matcher_of_pairs
        (map (fun pc => (Text.normalize_text nfkd_ascii pc.1,
                         Text.normalize_text nfkd_ascii pc.2)) pairs)
  end.

(** [GeoMatcher.match_territory] (matching.py, lines 64-108).  [prov_match]
    and [canton_match] hold the matched name and its score, [None] where the
    source returns early. *)
Definition match_territory (self : GeoMatcher) (provincia_input canton_input : pyval)
    (threshold : Q) : option string * option string * Q * Q * geo_method :=
  match catalog self with
  | None => (None, None, 0%Q, 0%Q, no_catalog)
  | Some _ =>
      let prov_norm_input := Text.normalize_text nfkd_ascii provincia_input in
      let canton_norm_input := Text.normalize_text nfkd_ascii canton_input in
      let prov_match :=
        if bool_decide (prov_norm_input ∈ provinces self) then Some (prov_norm_input, 100%Q)
        else
          match extractOne prov_norm_input (provinces self) with
          | Some (best, score) =>
              if Qle_bool threshold score then Some (best, score) else None
          | None => None
          end in
      match prov_match with
      | None => (None, None, 0%Q, 0%Q, failed_prov)
      | Some (matched_prov, prov_score) =>
          let valid_cantons := default [] (cantons_by_prov self !! matched_prov) in
          let canton_match :=
            if bool_decide (canton_norm_input ∈ valid_cantons)
            then Some (canton_norm_input, 100%Q)
            else
              match extractOne canton_norm_input valid_cantons with
              | Some (best, score) =>
                  if Qle_bool threshold score then Some (best, score) else None
              | None => None
              end in
          match canton_match with
          | None => (Some matched_prov, None, prov_score, 0%Q, failed_canton)
          | Some (matched_canton, canton_score) =>
              let method :=
                if Qeq_bool prov_score 100 && Qeq_bool canton_score 100 then exact else fuzzy in
              (Some matched_prov, Some matched_canton, prov_score, canton_score, method)
          end
      end
  end.

(** [GeoMatcher.is_valid_pair] (matching.py, lines 110-113). *)
Definition is_valid_pair (self : GeoMatcher) (provincia_norm canton_norm : option string) : bool :=
  match provincia_norm, canton_norm with
  | Some p, Some c =>
      if String.eqb p EmptyString || String.eqb c EmptyString then false
      else bool_decide ((p, c) ∈ valid_pairs self)
  | _, _ => false
  end.

End Geo.

(** ** The checksum guard (ingest.py, lines 208-225) *)





(** ** The batch and the fact table *)

(** A row of the dataframe once keys and hashes are computed, with the columns
    the SCD step and the data-quality checks read. *)
Module Df.
Record row := {
  NOMBRE_IES : pyval;
  NOMBRE_CARRERA : pyval;
  PROVINCIA : pyval;
  CANTON : pyval;
  ESTADO : pyval;
  nombre_norm : option string;
  carrera_norm : option string;
  estado_norm : option string;
  campo_amplio_norm : option string;
  nivel_formacion_norm : option string;
  modalidad_norm : option string;
  provincia_norm : option string;
  canton_norm : option string;
  natural_key : string;
  row_hash : string
}.
End Df.

(** A row of [core.fact_offer], with the columns the SCD step names.
    [last_seen_at] is [None] until a statement of the step sets it: the column
    defaults belong to the schema, which is not part of the sources. *)
Module Fact.
Record row := {
  ies_id : Z;
  territory_id : Z;
  program_id : Z;
  estado_original : pyval;
  estado_norm : option string;
  natural_key : string;
  row_hash : string;
  last_file_id : string;
  last_seen_at : option string;
  is_current : bool
}.
End Fact.

(** ** SCD Type 2 for the fact table (ingest.py, lines 466-558) *)

(** [df.drop_duplicates(subset=['natural_key'], keep='last')] *)
Fixpoint drop_duplicates_last (df : list Df.row) : list Df.row :=
  match df with
  | [] => []
  | row :: rest =>
      if bool_decide (Df.natural_key row ∈ map Df.natural_key rest)
      then drop_duplicates_last rest
      else row :: drop_duplicates_last rest
  end.

(** The three dictionaries from normalised identity to dimension id. *)
Record dim_lookups := {
  ies_lookup : gmap (option string) Z;
  terr_lookup : gmap (option string * option string) Z;
  prog_lookup : gmap (option string * option string * option string * option string) Z
}.

(** Truth value of [d.get(k)] for integer ids: [None] and [0] are false. *)
Definition id_truthy (id : option Z) : bool :=
  match id with
  | Some z => negb (z =? 0)%Z
  | None => false
  end.

Record counters := {
  inserts_count : nat;
  updates_count : nat;
  unchanged_count : nat;
  skipped_missing_dims : nat
}.

Record scd_state := {
  fact_offer : list Fact.row;
  counts : counters
}.

(** [{r.natural_key: r.row_hash for r in existing_rows}] over the rows with
    [is_current = TRUE]: a later row replaces an earlier one. *)
Definition existing_map_of (table : list Fact.row) : gmap string string :=
  foldl (fun m r => <[Fact.natural_key r := Fact.row_hash r]> m) ∅
    (filter (fun r => Fact.is_current r = true) table).

Definition where_current (nk : string) (r : Fact.row) : bool :=
  String.eqb (Fact.natural_key r) nk && Fact.is_current r.

(** [UPDATE core.fact_offer SET is_current = FALSE, last_seen_at = NOW(),
    last_file_id = :fid WHERE natural_key = :nk AND is_current = TRUE] *)
Definition expire_current (now fid nk : string) (table : list Fact.row) : list Fact.row :=
  map (fun r =>
         if where_current nk r then
           {| Fact.ies_id := Fact.ies_id r; Fact.territory_id := Fact.territory_id r;
              Fact.program_id := Fact.program_id r;
              Fact.estado_original := Fact.estado_original r;
              Fact.estado_norm := Fact.estado_norm r;
              Fact.natural_key := Fact.natural_key r; Fact.row_hash := Fact.row_hash r;
              Fact.last_file_id := fid; Fact.last_seen_at := Some now;
              Fact.is_current := false |}
         else r) table.

(** [UPDATE core.fact_offer SET last_seen_at = NOW(), last_file_id = :fid
    WHERE natural_key = :nk AND is_current = TRUE] *)
Definition touch_current (now fid nk : string) (table : list Fact.row) : list Fact.row :=
  map (fun r =>
         if where_current nk r then
           {| Fact.ies_id := Fact.ies_id r; Fact.territory_id := Fact.territory_id r;
              Fact.program_id := Fact.program_id r;
              Fact.estado_original := Fact.estado_original r;
              Fact.estado_norm := Fact.estado_norm r;
              Fact.natural_key := Fact.natural_key r; Fact.row_hash := Fact.row_hash r;
              Fact.last_file_id := fid; Fact.last_seen_at := Some now;
              Fact.is_current := Fact.is_current r |}
         else r) table.

(** [INSERT INTO core.fact_offer (...) VALUES (..., TRUE)] *)
Definition insert_current (fid : string) (ies terr prog : Z) (row : Df.row)
    (table : list Fact.row) : list Fact.row :=
  table ++ [ {| Fact.ies_id := ies; Fact.territory_id := terr; Fact.program_id := prog;
                Fact.estado_original := Df.ESTADO row;
                Fact.estado_norm := Df.estado_norm row;
                Fact.natural_key := Df.natural_key row; Fact.row_hash := Df.row_hash row;
                Fact.last_file_id := fid; Fact.last_seen_at := None;
                Fact.is_current := true |} ].

Definition bump_inserts (c : counters) : counters :=
  {| inserts_count := S (inserts_count c); updates_count := updates_count c;
     unchanged_count := unchanged_count c; skipped_missing_dims := skipped_missing_dims c |}.
Definition bump_updates (c : counters) : counters :=
  {| inserts_count := inserts_count c; updates_count := S (updates_count c);
     unchanged_count := unchanged_count c; skipped_missing_dims := skipped_missing_dims c |}.
Definition bump_unchanged (c : counters) : counters :=
  {| inserts_count := inserts_count c; updates_count := updates_count c;
     unchanged_count := S (unchanged_count c); skipped_missing_dims := skipped_missing_dims c |}.
Definition bump_skipped (c : counters) : counters :=
  {| inserts_count := inserts_count c; updates_count := updates_count c;
     unchanged_count := unchanged_count c; skipped_missing_dims := S (skipped_missing_dims c) |}.

Section Scd.

(** [NOW()] of the transaction, the id of the file being ingested, the
    dictionaries read before the loop. *)
Variable now : string.
Variable file_id : string.
Variable lookups : dim_lookups.
Variable existing_map : gmap string string.

(** The body of the loop [for _, row in df_fact.iterrows()]. *)
Definition scd_row (st : scd_state) (row : Df.row) : scd_state :=
  let nk := Df.natural_key row in
  let rh := Df.row_hash row in
  let ies_id := ies_lookup lookups !! Df.nombre_norm row in
  let terr_id := terr_lookup lookups !! (Df.provincia_norm row, Df.canton_norm row) in
  let prog_id :=
    prog_lookup lookups !! (Df.carrera_norm row, Df.campo_amplio_norm row,
                            Df.nivel_formacion_norm row, Df.modalidad_norm row) in
  match ies_id, terr_id, prog_id with
  | Some ies, Some terr, Some prog =>
      if id_truthy ies_id && id_truthy terr_id && id_truthy prog_id then
        match existing_map !! nk with
        | Some old_hash =>
            if negb (String.eqb old_hash rh) then
              {| fact_offer :=
                   insert_current file_id ies terr prog row
                     (expire_current now file_id nk (fact_offer st));
                 counts := bump_updates (counts st) |}
            else
              {| fact_offer := touch_current now file_id nk (fact_offer st);
                 counts := bump_unchanged (counts st) |}
        | None =>
            {| fact_offer := insert_current file_id ies terr prog row (fact_offer st);
               counts := bump_inserts (counts st) |}
        end
      else {| fact_offer := fact_offer st; counts := bump_skipped (counts st) |}
  | _, _, _ => {| fact_offer := fact_offer st; counts := bump_skipped (counts st) |}
  end.

End Scd.

(** Step 9 of [run_pipeline]: the fact table and the four counters after the
    loop, from the fact table before it and the batch. *)
Definition scd_fact (now file_id : string) (lookups : dim_lookups)
    (table : list Fact.row) (df : list Df.row) : scd_state :=
  let existing_map := existing_map_of table in
  let df_fact := drop_duplicates_last df in
  foldl (scd_row now file_id lookups existing_map)
    {| fact_offer := table;
       counts := {| inserts_count := 0; updates_count := 0;
                    unchanged_count := 0; skipped_missing_dims := 0 |} |}
    df_fact.

(** The rows of a fact table that are current for a natural key, and the
    invariant of the table. *)
Definition current_rows (nk : string) (table : list Fact.row) : list Fact.row :=
  List.filter (where_current nk) table.

Definition at_most_one_current (table : list Fact.row) : Prop :=
  forall nk, length (current_rows nk table) <= 1.

(** One of the four counters has grown by one, the others are unchanged. *)
Definition increments_exactly_one (c c' : counters) : Prop :=
  c' = bump_inserts c \/ c' = bump_updates c \/ c' = bump_unchanged c \/ c' = bump_skipped c.

Definition counters_total (c : counters) : nat :=
  inserts_count c + updates_count c + unchanged_count c + skipped_missing_dims c.

(** ** Sample data for the SCD step *)

Definition sample_offer (estado : string) (canton : option string) (nk rh : string) : Df.row :=
  {| Df.NOMBRE_IES := PStr (utf8 "Uni A"); Df.NOMBRE_CARRERA := PStr (utf8 "Sistemas");
     Df.PROVINCIA := PStr (utf8 "Pichincha"); Df.CANTON := PStr (utf8 "Quito");
     Df.ESTADO := PStr (to_py estado);
     Df.nombre_norm := Some "uni a"; Df.carrera_norm := Some "sistemas";
     Df.estado_norm := Some estado; Df.campo_amplio_norm := Some "tecnologias";
     Df.nivel_formacion_norm := Some "grado"; Df.modalidad_norm := Some "presencial";
     Df.provincia_norm := Some "pichincha"; Df.canton_norm := canton;
     Df.natural_key := nk; Df.row_hash := rh |}.

Definition sample_lookups : dim_lookups :=
  {| ies_lookup := {[ Some "uni a" := 7%Z ]};
     terr_lookup := {[ (Some "pichincha", Some "quito") := 3%Z ]};
     prog_lookup :=
       {[ (Some "sistemas", Some "tecnologias", Some "grado", Some "presencial") := 5%Z ]} |}.

(** A fact table with the history of one offer: an expired version and the
    current one. *)
Definition sample_table : list Fact.row :=
  [ {| Fact.ies_id := 7; Fact.territory_id := 3; Fact.program_id := 5;
       Fact.estado_original := PStr (utf8 "Vigente"); Fact.estado_norm := Some "vigente";
       Fact.natural_key := "k1"; Fact.row_hash := "h0";
       Fact.last_file_id := "file-0"; Fact.last_seen_at := Some "2024-01-01";
       Fact.is_current := false |};
    {| Fact.ies_id := 7; Fact.territory_id := 3; Fact.program_id := 5;
       Fact.estado_original := PStr (utf8 "Activa"); Fact.estado_norm := Some "activa";
       Fact.natural_key := "k1"; Fact.row_hash := "h1";
       Fact.last_file_id := "file-1"; Fact.last_seen_at := None;
       Fact.is_current := true |} ].

(** A batch: the key [k1] twice (the last row has a new hash), a new key
    [k2], and a key [k3] whose territory is in no dimension. *)
Definition sample_batch : list Df.row :=
  [ sample_offer "activa" (Some "quito") "k1" "h1";
    sample_offer "activa" (Some "quito") "k2" "h7";
    sample_offer "cerrada" (Some "quito") "k1" "h2";
    sample_offer "activa" None "k3" "h9" ].

(** ** Data-quality checks on the territory (checks.py, lines 43-78) *)

(** The detail payload of the two kinds of territory issue. *)
Inductive issue_detail :=
| detail_original (provincia_original canton_original : pyval)
| detail_norm (provincia_norm canton_norm : option string).

(** An issue, without its [issue_id] and [run_id], which are fresh UUIDs. *)
Record issue := {
  issue_type : string;
  issue_natural_key : string;
  detail : issue_detail
}.

Record DataQualityChecker := {
  dq_valid_pairs : gset (string * string);
  metrics : gmap string nat;
  issues : list issue
}.

(** [s.isna() | (s == '')] for one value of a normalised column. *)
Definition isna_or_empty (v : option string) : bool :=
  match v with
  | None => true
  | Some s => String.eqb s EmptyString
  end.

(** [invalid_geo_mask] (checks.py, lines 47-50), one boolean per row. *)
Definition invalid_geo_mask (df : list Df.row) : list bool :=
  map (fun row => isna_or_empty (Df.provincia_norm row) || isna_or_empty (Df.canton_norm row)) df.

(** [pair not in self.valid_pairs] for [pair = (provincia_norm, canton_norm)]:
    the set holds pairs of texts, so a pair with a [None] is not in it. *)
Definition pair_not_valid (valid_pairs : gset (string * string)) (row : Df.row) : bool :=
  match Df.provincia_norm row, Df.canton_norm row with
  | Some p, Some c => bool_decide ((p, c) ∉ valid_pairs)
  | _, _ => true
  end.

(** [invalid_pair_mask] (checks.py, lines 61-65). *)
Definition invalid_pair_mask (valid_pairs : gset (string * string)) (df : list Df.row)
  : list bool :=
  map (pair_not_valid valid_pairs) df.

(** [a & ~b] on boolean series. *)
Definition mask_and_not (a b : list bool) : list bool :=
  zip_with (fun x y => x && negb y) a b.

(** [df[mask]]: the rows whose entry in the mask is true. *)
Fixpoint select (mask : list bool) (df : list Df.row) : list Df.row :=
  match mask, df with
  | b :: mask', row :: df' => if b then row :: select mask' df' else select mask' df'
  | _, _ => []
  end.

Definition missing_territory_issue (row : Df.row) : issue :=
  {| issue_type := "missing_territory_norm";
     issue_natural_key := Df.natural_key row;
     detail := detail_original (Df.PROVINCIA row) (Df.CANTON row) |}.

Definition invalid_pair_issue (row : Df.row) : issue :=
  {| issue_type := "invalid_territory_pair";
     issue_natural_key := Df.natural_key row;
     detail := detail_norm (Df.provincia_norm row) (Df.canton_norm row) |}.

(** The rows the pair check flags: [invalid_pair_mask & ~invalid_geo_mask]. *)
Definition invalid_pairs_mask (valid_pairs : gset (string * string)) (df : list Df.row)
  : list bool :=
  mask_and_not (invalid_pair_mask valid_pairs df) (invalid_geo_mask df).

(** The two territory checks of [DataQualityChecker.run_checks]
    (checks.py, lines 47-78): the metrics and issues of the checker after
    them. *)
Definition run_territory_checks (self : DataQualityChecker) (df : list Df.row)
  : DataQualityChecker :=
  let invalid_geo := select (invalid_geo_mask df) df in
  let metrics1 := <["invalid_territory" := length invalid_geo]> (metrics self) in
  let issues1 := issues self ++ map missing_territory_issue invalid_geo in
  if bool_decide (dq_valid_pairs self <> ∅) then
    let invalid_pairs := select (invalid_pairs_mask (dq_valid_pairs self) df) df in
    {| dq_valid_pairs := dq_valid_pairs self;
       metrics := <["invalid_territory_pair" := length invalid_pairs]> metrics1;
       issues := issues1 ++ map invalid_pair_issue invalid_pairs |}
  else
    {| dq_valid_pairs := dq_valid_pairs self;
       metrics := <["invalid_territory_pair" := 0]> metrics1;
       issues := issues1 |}.

(** A batch for the checks: a valid pair, a pair outside the catalog, a row
    without canton, a row with an empty province. *)
Definition sample_dq_batch : list Df.row :=
  [ sample_offer "activa" (Some "quito") "k1" "h1";
    sample_offer "activa" (Some "cuenca") "k2" "h2";
    sample_offer "activa" None "k3" "h3";
    {| Df.NOMBRE_IES := PStr (utf8 "Uni B"); Df.NOMBRE_CARRERA := PStr (utf8 "Derecho");
       Df.PROVINCIA := PNaN; Df.CANTON := PStr (utf8 "Quito"); Df.ESTADO := PNaN;
       Df.nombre_norm := Some "uni b"; Df.carrera_norm := Some "derecho";
       Df.estado_norm := None; Df.campo_amplio_norm := None;
       Df.nivel_formacion_norm := None; Df.modalidad_norm := None;
       Df.provincia_norm := Some EmptyString; Df.canton_norm := Some "quito";
       Df.natural_key := "k4"; Df.row_hash := "h4" |} ].

Definition sample_checker : DataQualityChecker :=
  {| dq_valid_pairs := {[ ("pichincha", "quito"); ("azuay", "cuenca") ]};
     metrics := ∅; issues := [] |}.

(** ** Artifact storage (supabase_storage.py) *)

Module Storage.

(** The calls that leave the process: the construction of the client, the
    bucket calls, the reading of a local file and the upload of its bytes. *)
Inductive op :=
| create_client (url key : string)
| list_buckets
| create_bucket (bucket : string) (public : bool)
| read_bytes (local_path : string)
| upload (bucket remote_path content_type : string).

(** What the uploader finds around it: whether [from supabase import
    create_client] succeeded, the environment, and how each call answers. *)
Record world := {
  supabase_installed : bool;
  environ : gmap string string;
  create_client_ok : bool;
  buckets : option (list string);   (* the names [list_buckets] answers; [None]: it raises *)
  create_bucket_ok : bool;
  path_exists : string -> bool;
  read_ok : string -> bool;
  upload_ok : string -> bool        (* by remote path *)
}.

Record file_info := { path : string; url : option string }.

Record upload_result := {
  status : string;
  paths : list (string * file_info)
}.

(** The calls made so far and the [paths] dictionary being filled. *)
Record state := {
  trace : list op;
  uploaded : list (string * file_info)
}.

(** [os.getenv(key)] and [os.getenv(key, default)] *)
Definition getenv (w : world) (key : string) : option string := environ w !! key.
Definition getenv_default (w : world) (key fallback : string) : string :=
  default fallback (environ w !! key).

(** Truth value of an optional text: [None] and the empty text are false. *)
Definition truthy (v : option string) : bool :=
  match v with
  | Some s => negb (String.eqb s EmptyString)
  | None => false
  end.

(** [_bool_env] (lines 15-18). *)
Definition _bool_env (value : option string) : bool :=
  if truthy value then
    bool_decide (Text.lower (default EmptyString value) ∈ ["1"; "true"; "yes"])
  else false.

Definition is_slash (c : ascii) : bool := Ascii.eqb c "/".

Fixpoint ends_with_slash (s : string) : bool :=
  match s with
  | EmptyString => false
  | String c EmptyString => is_slash c
  | String _ t => ends_with_slash t
  end.

(** [Path(p).name]: the text after the last slash. *)
Fixpoint basename (p : string) : string :=
  match p with
  | EmptyString => EmptyString
  | String c t =>
      if is_slash c then basename t
      else if bool_decide (Forall (fun d => is_slash d = false) (list_ascii_of_string t))
           then p else basename t
  end.

(** [report_dir / name] *)
Definition path_join (dir name : string) : string := dir +:+ "/" +:+ name.

(** [get_supabase_client] (lines 25-36): the client, [None] when uploads are
    to be skipped; the second component is false when [create_client] raises. *)
Definition get_supabase_client (w : world) (tr : list op)
  : list op * option (option (string * string)) :=
  if negb (supabase_installed w) then (tr, Some None)
  else
    let url := getenv w "SUPABASE_URL" in
    let key := getenv w "SUPABASE_SERVICE_ROLE_KEY" in
    match url, key with
    | Some url, Some key =>
        if negb (truthy (Some url)) || negb (truthy (Some key)) then (tr, Some None)
        else
          let url := if ends_with_slash url then url else url +:+ "/" in
          (tr ++ [create_client url key],
           if create_client_ok w then Some (Some (url, key)) else None)
    | _, _ => (tr, Some None)
    end.

(** [ensure_bucket] (lines 39-52) for a client that is not [None]: the calls
    made and whether it returned. *)
Definition ensure_bucket (w : world) (bucket : string) (public : bool) (tr : list op)
  : list op * bool :=
  let tr := tr ++ [list_buckets] in
  match buckets w with
  | None => (tr, false)
  | Some names =>
      if bool_decide (bucket ∈ names) then (tr, true)
      else (tr ++ [create_bucket bucket public], create_bucket_ok w)
  end.

(** [_public_url] (lines 55-56). *)
Definition _public_url (base_url bucket object_path : string) : string :=
  base_url +:+ "/storage/v1/object/public/" +:+ bucket +:+ "/" +:+ object_path.

(** [paths[key] = upload_file(client, bucket, local_path, remote_path,
    content_type, public)] (lines 59-72): the state after it and whether it
    returned. *)
Definition upload_file (w : world) (bucket : string) (public : bool)
    (key local_path remote_path content_type : string) (st : state) : state * bool :=
  let tr := trace st ++ [read_bytes local_path] in
  if negb (read_ok w local_path) then ({| trace := tr; uploaded := uploaded st |}, false)
  else
    let tr := tr ++ [upload bucket remote_path content_type] in
    if negb (upload_ok w remote_path) then ({| trace := tr; uploaded := uploaded st |}, false)
    else
      let base_url :=
        if truthy (getenv w "SUPABASE_PUBLIC_URL")
        then default EmptyString (getenv w "SUPABASE_PUBLIC_URL")
        else getenv_default w "SUPABASE_URL" EmptyString in
      let base_url := Text.rstrip_by is_slash base_url in
      let info :=
        {| path := remote_path;
           url := if public && truthy (Some base_url)
                  then Some (_public_url base_url bucket remote_path) else None |} in
      ({| trace := tr; uploaded := uploaded st ++ [(key, info)] |}, true).

(** The three reports, with the content type their suffix selects. *)
Definition reports (report_dir : string) : list (string * string * string) :=
  [ ("data_quality_json", path_join report_dir "data_quality.json", "application/json");
    ("data_quality_html", path_join report_dir "data_quality.html", "text/html");
    ("inconsistencies_csv", path_join report_dir "inconsistencies.csv", "text/csv") ].

(** The loop over the reports; it stops at the first call that raises. *)
Fixpoint upload_reports (w : world) (bucket : string) (public : bool) (file_id : string)
    (rs : list (string * string * string)) (st : state) : state * bool :=
  match rs with
  | [] => (st, true)
  | (key, local_path, content_type) :: rest =>
      if negb (path_exists w local_path) then upload_reports w bucket public file_id rest st
      else
        let remote := "reports/" +:+ file_id +:+ "/" +:+ basename local_path in
        match upload_file w bucket public key local_path remote content_type st with
        | (st', true) => upload_reports w bucket public file_id rest st'
        | (st', false) => (st', false)
        end
  end.

(** [upload_artifacts] (lines 75-123): the calls made, and the dictionary
    returned or the exception of [create_client]. *)
Definition upload_artifacts (w : world) (file_id source_path report_dir : string)
  : list op * result upload_result :=
  match get_supabase_client w [] with
  | (tr, None) => (tr, Raise (ClientError "create_client"))
  | (tr, Some None) => (tr, Ok {| status := "skipped"; paths := [] |})
  | (tr, Some (Some client)) =>
      let bucket := getenv_default w "SUPABASE_STORAGE_BUCKET" "etl-artifacts" in
      let public := _bool_env (Some (getenv_default w "SUPABASE_STORAGE_PUBLIC" "false")) in
      match ensure_bucket w bucket public tr with
      | (tr, false) => (tr, Ok {| status := "failed"; paths := [] |})
      | (tr, true) =>
          let st := {| trace := tr; uploaded := [] |} in
          let source_step :=
            if path_exists w source_path then
              upload_file w bucket public "source_file" source_path
                ("sources/" +:+ file_id +:+ "/" +:+ basename source_path)
                "application/vnd.openxmlformats-officedocument.spreadsheetml.sheet" st
            else (st, true) in
          match source_step with
          | (st, false) => (trace st, Ok {| status := "failed"; paths := uploaded st |})
          | (st, true) =>
              match upload_reports w bucket public file_id (reports report_dir) st with
              | (st, true) => (trace st, Ok {| status := "success"; paths := uploaded st |})
              | (st, false) => (trace st, Ok {| status := "failed"; paths := uploaded st |})
              end
          end
      end
  end.

(** A world without any storage configuration, and one with a project, an
    existing bucket and the source file and one report on disk. *)
Definition unconfigured : world :=
  {| supabase_installed := true; environ := ∅; create_client_ok := true;
     buckets := Some []; create_bucket_ok := true;
     path_exists := fun _ => true; read_ok := fun _ => true; upload_ok := fun _ => true |}.

Definition configured : world :=
  {| supabase_installed := true;
     environ := {[ "SUPABASE_URL" := "https://x.supabase.co";
                   "SUPABASE_SERVICE_ROLE_KEY" := "secret";
                   "SUPABASE_STORAGE_PUBLIC" := "True" ]};
     create_client_ok := true;
     buckets := Some ["etl-artifacts"]; create_bucket_ok := true;
     path_exists := fun p => bool_decide (p ∈ ["data/oferta.xlsx"; "reports/data_quality.json"]);
     read_ok := fun _ => true; upload_ok := fun _ => true |}.

End Storage.

(** ** Sample workbooks, rows, catalog and runs *)

(** A workbook with a title row above the header row: the loader recovers the
    header on its third read. *)
Definition decorated_sheet : list (list pyval) :=
  [ [PStr (utf8 "Oferta académica 2024"); PNaN; PNaN; PNaN; PNaN; PNaN; PNaN; PNaN; PNaN; PNaN];
    map (fun s => PStr (utf8 s))
      [ "Nombre IES"; "Tipo IES"; "Tipo Financiamiento"; "Nombre Carrera"; "Campo Amplio";
        "Nivel Formación"; "Modalidad"; "Provincia"; "Cantón"; "Estado" ];
    map (fun s => PStr (utf8 s))
      [ "Uni A"; "Publica"; "Fiscal"; "Sistemas"; "Tecnologias";
        "Grado"; "Presencial"; "Pichincha"; "Quito"; "Activa" ] ].

(** A workbook without a header row. *)
Definition headless_sheet : list (list pyval) :=
  [ [PStr (utf8 "Reporte"); PStr (utf8 "Provincia")];
    [PStr (utf8 "Uni A"); PStr (utf8 "Pichincha")] ].

(** A workbook whose first row holds two labels that normalise to the same
    name. *)
Definition colliding_sheet : list (list pyval) :=
  [ [PStr (utf8 "NOMBRE IES"); PStr (utf8 "NOMBRE_IES")];
    [PStr (utf8 "Uni A"); PStr (utf8 "Uni B")] ].

(** The row of [tests/test_keys.py]. *)
Definition test_row : gmap string pyval :=
  {[ "natural_key" := PStr (utf8 "a|b|c|d|e|f|g"); "estado_norm" := PStr (utf8 "activa") ]}.

(** The row of the test with a missing status: once with the float nan that
    stands for a missing value in a column of texts, once with [None]. *)
Definition nan_status_row : gmap string pyval :=
  {[ "natural_key" := PStr (utf8 "a|b|c|d|e|f|g"); "estado_norm" := PNaN ]}.

Definition none_status_row : gmap string pyval :=
  {[ "natural_key" := PStr (utf8 "a|b|c|d|e|f|g"); "estado_norm" := PNone ]}.

(** A small catalog, loaded from normalised columns. *)
Definition sample_matcher : GeoMatcher :=
  load_catalog Text.latin1_nfkd_ascii
    (catalog_normalized
       [ ("provincia del guayas", "guayaquil"); ("provincia del guayas", "daule");
         ("azuay", "cuenca") ]).


(** ** Shapes of texts *)

(** The first character is in the class; the last one is; two neighbours are. *)
Definition starts_in (P : ascii -> bool) (s : string) : bool :=
  match s with
  | EmptyString => false
  | String c _ => P c
  end.

Fixpoint ends_in (P : ascii -> bool) (s : string) : bool :=
  match s with
  | EmptyString => false
  | String c EmptyString => P c
  | String _ t => ends_in P t
  end.

Fixpoint has_double (P : ascii -> bool) (s : string) : bool :=
  match s with
  | EmptyString => false
  | String c t => (P c && starts_in P t) || has_double P t
  end.

(** The characters of a normalised column name. *)
Definition is_column_char (c : ascii) : bool :=
  Text.is_upper c || Text.is_digit c || Text.is_underscore c.

(** No two distinct labels of the list normalise to the same name. *)
Definition collision_free (nfkd_ascii : N -> string) (cols : list pyval) : Prop :=
  forall c1 c2, c1 ∈ cols -> c2 ∈ cols ->
    Text.normalize_column_name nfkd_ascii c1 = Text.normalize_column_name nfkd_ascii c2 ->
    c1 = c2.

(** ** Values and natural keys (ingest.py, lines 91-117) *)

(** [str.isspace] for any code point. *)
Definition py_isspace (c : N) : bool :=
  ((9 <=? c) && (c <=? 13) || (28 <=? c) && (c <=? 32)
   || (c =? 133) || (c =? 160) || (c =? 5760)
   || (8192 <=? c) && (c <=? 8202)
   || (c =? 8232) || (c =? 8233) || (c =? 8239) || (c =? 8287) || (c =? 12288))%N.

(** [s.strip()] on a general text. *)
Fixpoint py_lstrip (s : pystr) : pystr :=
  match s with
  | [] => []
  | c :: t => if py_isspace c then py_lstrip t else s
  end.

Fixpoint py_rstrip (s : pystr) : pystr :=
  match s with
  | [] => []
  | c :: t =>
      match py_rstrip t with
      | [] => if py_isspace c then [] else [c]
      | t' => c :: t'
      end
  end.

Definition py_strip (s : pystr) : pystr := py_rstrip (py_lstrip s).

(** [s.replace(old, new)] for single characters. *)
Definition py_replace (old new : N) (s : pystr) : pystr :=
  map (fun c => if (c =? old)%N then new else c) s.

(** [sep.join(parts)] and [s.split(sep)] for a separator of one character. *)
Fixpoint py_join (sep : N) (parts : list pystr) : pystr :=
  match parts with
  | [] => []
  | [p] => p
  | p :: rest => p ++ sep :: py_join sep rest
  end.

Fixpoint py_split_on (sep : N) (s : pystr) : list pystr :=
  match s with
  | [] => [[]]
  | c :: t =>
      if (c =? sep)%N then [] :: py_split_on sep t
      else
        match py_split_on sep t with
        | p :: ps => (c :: p) :: ps
        | [] => [[c]]
        end
  end.

(** The code point of the separator of natural keys, ['|']. *)
Definition pipe : N := 124%N.

(** [safe_key_part] (lines 98-103). *)
Definition safe_key_part (value : pyval) : pystr :=
  match value with
  | PNone => []
  | PNaN => []
  | _ => py_strip (py_str value)
  end.

(** The seven parts of a natural key, in their order. *)
Definition natural_key_parts (row : gmap string pyval) : list pystr :=
  [ safe_key_part (row_get row "nombre_norm");
    safe_key_part (row_get row "carrera_norm");
    safe_key_part (row_get row "campo_amplio_norm");
    safe_key_part (row_get row "nivel_formacion_norm");
    safe_key_part (row_get row "modalidad_norm");
    safe_key_part (row_get row "provincia_norm");
    safe_key_part (row_get row "canton_norm") ].

(** [generate_natural_key] (lines 106-117). *)
Definition generate_natural_key (row : gmap string pyval) : pystr :=
  py_join pipe (natural_key_parts row).

(** [normalize_value] (lines 91-95); [pd.isna] holds of [None] and [nan]. *)
Definition normalize_value (nfkd_ascii : N -> string) (value : pyval) : option string :=
  match value with
  | PNone | PNaN => None
  | PStr [] => None
  | _ =>
      let text_val := py_replace 9 32 (py_replace 160 32 (py_str value)) in
      Some (Text.normalize_text nfkd_ascii (PStr text_val))
  end.

(** A normalised column value as it sits in a row: [None] or the text. *)
Definition cell_of (v : option string) : pyval :=
  match v with
  | None => PNone
  | Some s => PStr (to_py s)
  end.

(** Every whitespace character replaced by a space. *)
Definition squash : string -> string :=
  Text.smap (fun c => if Text.isspace c then " "%char else c).

(** The row of [test_natural_key_deterministic] (tests/test_keys.py). *)
Definition test_key_row : gmap string pyval :=
  {[ "nombre_norm" := PStr (utf8 "uni a"); "carrera_norm" := PStr (utf8 "sistemas");
     "campo_amplio_norm" := PStr (utf8 "tecnologias");
     "nivel_formacion_norm" := PStr (utf8 "grado");
     "modalidad_norm" := PStr (utf8 "presencial");
     "provincia_norm" := PStr (utf8 "pichincha"); "canton_norm" := PStr (utf8 "quito") ]}.

(** Two rows whose parts differ and whose natural keys meet, because a part
    holds the separator. *)
Definition pipe_row_1 : gmap string pyval :=
  {[ "nombre_norm" := PStr (utf8 "uni a|b"); "carrera_norm" := PStr (utf8 "c") ]}.
Definition pipe_row_2 : gmap string pyval :=
  {[ "nombre_norm" := PStr (utf8 "uni a"); "carrera_norm" := PStr (utf8 "b|c") ]}.

(** ** What the matcher needs of [extractOne] *)

(** The match [process.extractOne] returns is one of the choices. *)
Definition returns_a_choice (extractOne : string -> list string -> option (string * Q)) : Prop :=
  forall query choices best score,
    extractOne query choices = Some (best, score) -> best ∈ choices.

(** A batch row carries the outcome of a territory match. *)
Definition matched_by (nfkd_ascii : N -> string)
    (extractOne : string -> list string -> option (string * Q))
    (self : GeoMatcher) (threshold : Q) (row : Df.row) : Prop :=
  exists score_prov score_canton method,
    match_territory nfkd_ascii extractOne self (Df.PROVINCIA row) (Df.CANTON row) threshold
    = (Df.provincia_norm row, Df.canton_norm row, score_prov, score_canton, method).

(** ** Views of the fact table *)

(** The columns of a fact row that no statement of the step updates. *)
Definition fact_identity (r : Fact.row)
  : Z * Z * Z * pyval * option string * string * string :=
  (Fact.ies_id r, Fact.territory_id r, Fact.program_id r,
   Fact.estado_original r, Fact.estado_norm r, Fact.natural_key r, Fact.row_hash r).

(** The version chain: key, hash and currency of every row, in order. *)
Definition versions (table : list Fact.row) : list (string * string * bool) :=
  map (fun r => (Fact.natural_key r, Fact.row_hash r, Fact.is_current r)) table.

(** The hashes of the current rows of a natural key, in table order. *)
Definition current_hashes (nk : string) (table : list Fact.row) : list string :=
  map Fact.row_hash (current_rows nk table).

(** The three dimension ids of a batch row are found and true: the row is not
    counted as [skipped_missing_dims]. *)
Definition dims_resolved (lookups : dim_lookups) (row : Df.row) : bool :=
  id_truthy (ies_lookup lookups !! Df.nombre_norm row)
  && id_truthy (terr_lookup lookups !! (Df.provincia_norm row, Df.canton_norm row))
  && id_truthy (prog_lookup lookups !! (Df.carrera_norm row, Df.campo_amplio_norm row,
                                        Df.nivel_formacion_norm row, Df.modalidad_norm row)).

(** The row an [INSERT] of the step adds, and a row after the [UPDATE] that
    touches it. *)
Definition new_fact (fid : string) (ies terr prog : Z) (row : Df.row) : Fact.row :=
  {| Fact.ies_id := ies; Fact.territory_id := terr; Fact.program_id := prog;
     Fact.estado_original := Df.ESTADO row;
     Fact.estado_norm := Df.estado_norm row;
     Fact.natural_key := Df.natural_key row; Fact.row_hash := Df.row_hash row;
     Fact.last_file_id := fid; Fact.last_seen_at := None;
     Fact.is_current := true |}.

Definition touched (now fid : string) (r : Fact.row) : Fact.row :=
  {| Fact.ies_id := Fact.ies_id r; Fact.territory_id := Fact.territory_id r;
     Fact.program_id := Fact.program_id r;
     Fact.estado_original := Fact.estado_original r;
     Fact.estado_norm := Fact.estado_norm r;
     Fact.natural_key := Fact.natural_key r; Fact.row_hash := Fact.row_hash r;
     Fact.last_file_id := fid; Fact.last_seen_at := Some now;
     Fact.is_current := Fact.is_current r |}.

(** ** The whole of [DataQualityChecker.run_checks] (checks.py, lines 21-106) *)

(** The detail payloads of all kinds of issue; the two territory payloads are
    those of [issue_detail]. *)
Inductive dq_detail :=
| detail_territory (d : issue_detail)
| detail_duplicate (row_index : nat) (row_hash : string)
| detail_states (states : list string)
| detail_column (column : string).

Record dq_issue := {
  dq_type : string;
  dq_natural_key : string;
  dq_detail_of : dq_detail
}.

Definition lift_issue (i : issue) : dq_issue :=
  {| dq_type := issue_type i; dq_natural_key := issue_natural_key i;
     dq_detail_of := detail_territory (detail i) |}.

(** [df[mask]] for rows paired with their index label, as [iterrows] gives
    them. *)
Fixpoint pick {A} (mask : list bool) (l : list A) : list A :=
  match mask, l with
  | b :: mask', x :: l' => if b then x :: pick mask' l' else pick mask' l'
  | _, _ => []
  end.

(** How often a natural key occurs in the rows. *)
Definition key_count (nk : string) (rows : list Df.row) : nat :=
  length (filter (fun r => Df.natural_key r = nk) rows).

(** [df.duplicated(subset=['natural_key'], keep=False)] *)
Definition duplicated_mask (rows : list Df.row) : list bool :=
  map (fun r => bool_decide (1 < key_count (Df.natural_key r) rows)) rows.

(** [pd.isna] of a raw cell. *)
Definition isna (v : pyval) : bool :=
  match v with
  | PNone | PNaN => true
  | _ => false
  end.

(** [df.loc[df['natural_key'] == nk, 'estado_norm'].dropna().unique().tolist()] *)
Definition states_of (nk : string) (rows : list Df.row) : list string :=
  unique_from []
    (omap (fun r => if String.eqb (Df.natural_key r) nk then Df.estado_norm r else None) rows).

(** The group keys of [df.groupby('natural_key')], which pandas sorts. *)
Fixpoint insert_sorted (k : string) (l : list string) : list string :=
  match l with
  | [] => [k]
  | x :: t => if String.leb k x then k :: l else x :: insert_sorted k t
  end.

Definition group_keys (rows : list Df.row) : list string :=
  foldr insert_sorted [] (unique_from [] (map Df.natural_key rows)).

(** The keys with more than one distinct status:
    [state_counts[state_counts > 1].index.tolist()]. *)
Definition conflicting_keys (rows : list Df.row) : list string :=
  filter (fun nk => 1 < length (states_of nk rows)) (group_keys rows).

Record dq_state := {
  dq_metrics : gmap string nat;
  dq_issues : list dq_issue
}.

(** Check 1, duplicates in the file (lines 28-41). *)
Definition check_duplicates (st : dq_state) (df : list (nat * Df.row)) : dq_state :=
  let dupes := pick (duplicated_mask (map snd df)) df in
  {| dq_metrics := <["duplicates_in_file" := length dupes]> (dq_metrics st);
     dq_issues :=
       dq_issues st
       ++ map (fun ir =>
                 {| dq_type := "duplicate_natural_key";
                    dq_natural_key := Df.natural_key ir.2;
                    dq_detail_of := detail_duplicate ir.1 (Df.row_hash ir.2) |}) dupes |}.

(** Check 2 and the pair check (lines 43-78), by [run_territory_checks]. *)
Definition check_territory (valid_pairs : gset (string * string)) (st : dq_state)
    (df : list (nat * Df.row)) : dq_state :=
  let checker :=
    run_territory_checks
      {| dq_valid_pairs := valid_pairs; metrics := dq_metrics st; issues := [] |}
      (map snd df) in
  {| dq_metrics := metrics checker;
     dq_issues := dq_issues st ++ map lift_issue (issues checker) |}.

(** Check 2b, conflicting states of one natural key (lines 80-91). *)
Definition check_conflicting (st : dq_state) (df : list (nat * Df.row)) : dq_state :=
  let conflicting := conflicting_keys (map snd df) in
  {| dq_metrics := <["conflicting_estado" := length conflicting]> (dq_metrics st);
     dq_issues :=
       dq_issues st
       ++ map (fun nk =>
                 {| dq_type := "conflicting_estado";
                    dq_natural_key := nk;
                    dq_detail_of := detail_states (states_of nk (map snd df)) |})
            conflicting |}.

(** Check 3 for one column (lines 94-103). *)
Definition check_missing (metric issue_name column : string) (cell : Df.row -> pyval)
    (st : dq_state) (df : list (nat * Df.row)) : dq_state :=
  let missing := pick (map (fun ir => isna (cell ir.2)) df) df in
  {| dq_metrics := <[metric := length missing]> (dq_metrics st);
     dq_issues :=
       dq_issues st
       ++ map (fun ir =>
                 {| dq_type := issue_name;
                    dq_natural_key := Df.natural_key ir.2;
                    dq_detail_of := detail_column column |}) missing |}.

(** [run_checks], up to [save_results]: the metrics and the issues of the
    checker created with [extra_metrics] and [valid_pairs]. *)
Definition run_checks (valid_pairs : gset (string * string)) (extra_metrics : gmap string nat)
    (df : list (nat * Df.row)) : dq_state :=
  let st := {| dq_metrics := extra_metrics; dq_issues := [] |} in
  let st := check_duplicates st df in
  let st := check_territory valid_pairs st df in
  let st := check_conflicting st df in
  let st := check_missing "missing_NOMBRE_IES" "missing_nombre_ies" "NOMBRE_IES"
              Df.NOMBRE_IES st df in
  check_missing "missing_NOMBRE_CARRERA" "missing_nombre_carrera" "NOMBRE_CARRERA"
    Df.NOMBRE_CARRERA st df.

(** The issues of one type. *)
Definition issues_of_type (t : string) (l : list dq_issue) : list dq_issue :=
  filter (fun i => dq_type i = t) l.

(** A batch with a twice-seen key in two states, for the checks. *)
Definition sample_indexed_batch : list (nat * Df.row) :=
  [ (0, sample_offer "activa" (Some "quito") "k1" "h1");
    (1, sample_offer "activa" (Some "quito") "k2" "h7");
    (3, sample_offer "cerrada" (Some "quito") "k1" "h2");
    (4, sample_offer "activa" None "k3" "h9") ].

(** A batch whose territory columns are what [sample_matcher] gives for the
    raw names: a fuzzy match, a canton below the threshold, a missing
    province. *)
Definition matched_offer (provincia canton : pyval) (provincia_norm canton_norm : option string)
    (nk : string) : Df.row :=
  {| Df.NOMBRE_IES := PStr (utf8 "Uni A"); Df.NOMBRE_CARRERA := PStr (utf8 "Sistemas");
     Df.PROVINCIA := provincia; Df.CANTON := canton;
     Df.ESTADO := PStr (utf8 "Activa");
     Df.nombre_norm := Some "uni a"; Df.carrera_norm := Some "sistemas";
     Df.estado_norm := Some "activa"; Df.campo_amplio_norm := Some "tecnologias";
     Df.nivel_formacion_norm := Some "grado"; Df.modalidad_norm := Some "presencial";
     Df.provincia_norm := provincia_norm; Df.canton_norm := canton_norm;
     Df.natural_key := nk; Df.row_hash := "h" |}.

Definition sample_matched_batch : list Df.row :=
  [ matched_offer (PStr (utf8 "Provinzia dal Guaias")) (PStr (utf8 "Guayaquil"))
      (Some "provincia del guayas") (Some "guayaquil") "k1";
    matched_offer (PStr (utf8 "Azuay")) (PStr (utf8 "Qwerty")) (Some "azuay") None "k2";
    matched_offer PNaN (PStr (utf8 "Cuenca")) None None "k3" ].

(** ** Views of the trace of the uploader *)

(** The uploads of a trace: bucket and remote path, in order. *)
Definition uploads_of (tr : list Storage.op) : list (string * string) :=
  omap (fun o => match o with
                 | Storage.upload bucket remote_path _ => Some (bucket, remote_path)
                 | _ => None
                 end) tr.

(** The calls that move a file: reading it and uploading its bytes. *)
Definition is_transfer (o : Storage.op) : bool :=
  match o with
  | Storage.read_bytes _ | Storage.upload _ _ _ => true
  | _ => false
  end.

(** A run of transfers: the calls added are reads and uploads, the entries
    added are those of the uploads that went through, under keys taken in
    order from [keys]; when the run ends early, at most one more upload was
    tried. *)
Definition transfers_from (bucket : string) (public : bool) (keys : list string)
    (st st' : Storage.state) (ok : bool) : Prop :=
  exists calls entries,
    Storage.trace st' = Storage.trace st ++ calls
    /\ Storage.uploaded st' = Storage.uploaded st ++ entries
    /\ Forall (fun o => is_transfer o = true) calls
    /\ map fst entries `sublist_of` keys
    /\ (forall ki, ki ∈ entries -> Storage.url ki.2 <> None -> public = true)
    /\ exists extra,
         uploads_of calls = map (fun ki => (bucket, Storage.path ki.2)) entries ++ extra
         /\ (if ok then extra = [] else length extra <= 1).

(** ** Splitting an SQL script into statements (init_db.py, lines 55-136) *)

Module Sql.

(** [s.startswith(p)] and [s.find(sub)], on the rest of the text from the
    current position: [find] gives the offset of the first occurrence. *)
Fixpoint starts_with (p s : pystr) : bool :=
  match p, s with
  | [], _ => true
  | a :: p', b :: s' => (a =? b)%N && starts_with p' s'
  | _ :: _, [] => false
  end.

Fixpoint find (sub s : pystr) : option nat :=
  if starts_with sub s then Some 0
  else match s with
       | [] => None
       | _ :: t => S <$> find sub t
       end.

(** The code points the scanner looks for. *)
Definition quote : N := 39.
Definition dquote : N := 34.
Definition dollar : N := 36.
Definition semicolon : N := 59.
Definition dash : N := 45.
Definition slash : N := 47.
Definition star : N := 42.
Definition newline : N := 10.

(** The variables of the loop; [buf] holds the joined pieces. *)
Record state := {
  statements : list pystr;
  buf : pystr;
  in_single : bool;
  in_double : bool;
  dollar_tag : option pystr
}.

Definition initial : state :=
  {| statements := []; buf := []; in_single := false; in_double := false;
     dollar_tag := None |}.

(** [buf.append(piece)] *)
Definition append (piece : pystr) (st : state) : state :=
  {| statements := statements st; buf := buf st ++ piece; in_single := in_single st;
     in_double := in_double st; dollar_tag := dollar_tag st |}.

Definition set_dollar_tag (tag : option pystr) (st : state) : state :=
  {| statements := statements st; buf := buf st; in_single := in_single st;
     in_double := in_double st; dollar_tag := tag |}.

Definition toggle_single (st : state) : state :=
  {| statements := statements st; buf := buf st; in_single := negb (in_single st);
     in_double := in_double st; dollar_tag := dollar_tag st |}.

Definition toggle_double (st : state) : state :=
  {| statements := statements st; buf := buf st; in_single := in_single st;
     in_double := negb (in_double st); dollar_tag := dollar_tag st |}.

(** The stripped buffer is appended to the statements unless it is empty. *)
Definition with_statement (st : state) : list pystr :=
  match py_strip (buf st) with
  | [] => statements st
  | statement => statements st ++ [statement]
  end.

(** A semicolon outside quotes (lines 122-128). *)
Definition close_statement (st : state) : state :=
  {| statements := with_statement st; buf := []; in_single := in_single st;
     in_double := in_double st; dollar_tag := dollar_tag st |}.

(** One turn of the loop either goes on from a later position or leaves the
    loop by [break]. *)
Inductive turn :=
| Continue (rest : pystr) (st : state)
| Break (st : state).

(** Inside a dollar-quoted body (lines 67-76). *)
Definition in_dollar (tag s : pystr) (st : state) : turn :=
  match find tag s with
  | None => Continue [] (append s st)
  | Some e =>
      let n := e + length tag in
      Continue (drop n s) (set_dollar_tag None (append (take n s) st))
  end.

(** The turn for a character outside a dollar-quoted body (lines 78-131);
    [s] is the text from the current position. *)
Definition scan_char (s : pystr) (st : state) : turn :=
  match s with
  | [] => Break st
  | ch :: rest =>
      let outside := negb (in_single st) && negb (in_double st) in
      if outside && starts_with [dash; dash] s then
        match find [newline] s with
        | None => Break st
        | Some e => Continue (drop e s) (append (take e s) st)
        end
      else if outside && starts_with [slash; star] s then
        match find [star; slash] (drop 2 s) with
        | None => Break st
        | Some e => Continue (drop (2 + e + 2) s) (append (take (2 + e + 2) s) st)
        end
      else if negb (in_double st) && (ch =? quote)%N then
        if in_single st && starts_with [quote] rest
        then Continue (drop 1 rest) (append [quote; quote] st)
        else Continue rest (append [ch] (toggle_single st))
      else if negb (in_single st) && (ch =? dquote)%N then
        if in_double st && starts_with [dquote] rest
        then Continue (drop 1 rest) (append [dquote; dquote] st)
        else Continue rest (append [ch] (toggle_double st))
      else
        match (if outside && (ch =? dollar)%N then find [dollar] rest else None) with
        | Some e =>
            let tag := take (e + 2) s in
            Continue (drop (e + 2) s) (set_dollar_tag (Some tag) (append tag st))
        | None =>
            if (ch =? semicolon)%N && outside then Continue rest (close_statement st)
            else Continue rest (append [ch] st)
        end
  end.

(** The body of the [while] loop; an empty tag counts as no tag. *)
Definition turn_of (s : pystr) (st : state) : turn :=
  match dollar_tag st with
  | Some (c :: t) => in_dollar (c :: t) s st
  | _ => scan_char s st
  end.

(** The loop, with fuel for its turns. *)
Fixpoint loop (fuel : nat) (s : pystr) (st : state) : option (list pystr) :=
  match fuel with
  | 0 => None
  | S fuel' =>
      match s with
      | [] => Some (with_statement st)
      | _ :: _ =>
          match turn_of s st with
          | Continue s' st' => loop fuel' s' st'
          | Break st' => Some (with_statement st')
          end
      end
  end.

(** The loop from a position and a state, with the fuel that suffices. *)
Definition scan (s : pystr) (st : state) : option (list pystr) :=
  loop (S (length s)) s st.

Definition _split_sql_statements (sql_text : pystr) : option (list pystr) :=
  scan sql_text initial.

(** A state outside quotes and dollar-quoted bodies. *)
Definition neutral (st : state) : Prop :=
  in_single st = false /\ in_double st = false /\ dollar_tag st = None.

(** A text without quote, double quote and dollar characters and without
    the opening of a comment. *)
Definition plain (s : pystr) : Prop :=
  Forall (fun c => c <> quote /\ c <> dquote /\ c <> dollar) s
  /\ find [dash; dash] s = None /\ find [slash; star] s = None.

(** A statement as the splitter returns it. *)
Definition trimmed (x : pystr) : Prop :=
  x <> []
  /\ (forall c, head x = Some c -> py_isspace c = false)
  /\ (forall c, last x = Some c -> py_isspace c = false).

End Sql.

(** * Properties *)

(** ** Text normalisation *)

Example utf8_canton : utf8 "CANTÓN" = [67; 65; 78; 84; 211; 78]%N.
Proof. reflexivity. Qed.

Example normalize_text_tsachilas :
  Text.normalize_text Text.latin1_nfkd_ascii
    (PStr (utf8 "  Santo   Domingo de los TSÁCHILAS "))
  = "santo domingo de los tsachilas".
Proof. vm_compute. reflexivity. Qed.

Example normalize_column_name_campo :
  Text.normalize_column_name Text.latin1_nfkd_ascii (PStr (utf8 "  campo  amplio "))
  = "CAMPO_AMPLIO".
Proof. vm_compute. reflexivity. Qed.

Section TextFacts.
Import Text.

(** Facts about single characters are settled by running through the 256
    values of [ascii]. *)
Ltac by_chars c :=
  destruct c as [[] [] [] [] [] [] [] []]; vm_compute; try reflexivity; try discriminate; auto.

Lemma lower_char_ascii c : is_ascii c = true -> is_ascii (lower_char c) = true.
Proof. by_chars c. Qed.

Lemma lower_char_not_upper c : is_ascii c = true -> is_upper (lower_char c) = false.
Proof. by_chars c. Qed.

Lemma lower_char_fix c : is_upper c = false -> lower_char c = c.
Proof. unfold lower_char. now intros ->. Qed.

Lemma sall_impl (P Q : ascii -> bool) s :
  (forall c, P c = true -> Q c = true) -> sall P s = true -> sall Q s = true.
Proof.
  intros HPQ. induction s as [|c t IH]; simpl; [easy|].
  rewrite !andb_true_iff. intros [Hc Ht]. split; auto.
Qed.

Lemma sall_app P s t : sall P (s +:+ t) = sall P s && sall P t.
Proof.
  induction s as [|c s IH]; simpl; [reflexivity|].
  now rewrite IH, andb_assoc.
Qed.

Lemma sall_smap (P Q : ascii -> bool) f s :
  (forall c, P c = true -> Q (f c) = true) -> sall P s = true -> sall Q (smap f s) = true.
Proof.
  intros Hf. induction s as [|c t IH]; simpl; [easy|].
  rewrite !andb_true_iff. intros [Hc Ht]. split; auto.
Qed.

Lemma smap_fix f s :
  sall (fun c => bool_decide (f c = c)) s = true -> smap f s = s.
Proof.
  induction s as [|c t IH]; simpl; [easy|].
  rewrite andb_true_iff. intros [Hc Ht].
  apply bool_decide_eq_true in Hc. now rewrite Hc, IH.
Qed.

Lemma sall_lstrip_by P Q s : sall Q s = true -> sall Q (lstrip_by P s) = true.
Proof.
  induction s as [|c t IH]; simpl; [easy|].
  destruct (P c); simpl; [|easy].
  rewrite andb_true_iff. intros [_ Ht]. auto.
Qed.

Lemma sall_rstrip_by P Q s : sall Q s = true -> sall Q (rstrip_by P s) = true.
Proof.
  induction s as [|c t IH]; simpl; [easy|].
  rewrite andb_true_iff. intros [Hc Ht]. specialize (IH Ht).
  destruct (rstrip_by P t); [destruct (P c)|]; simpl in *; rewrite ?Hc; auto.
Qed.

Lemma sall_strip Q s : sall Q s = true -> sall Q (strip s) = true.
Proof. intros H. unfold strip, strip_by. now apply sall_rstrip_by, sall_lstrip_by. Qed.

Lemma split_cons_inv s : split s = [] \/ exists w ws, split s = w :: ws.
Proof. destruct (split s); eauto. Qed.

Lemma Forall_split_sall Q s : sall Q s = true -> Forall (fun w => sall Q w = true) (split s).
Proof.
  induction s as [|c t IH]; simpl; [constructor|].
  rewrite andb_true_iff. intros [Hc Ht]. specialize (IH Ht).
  destruct (isspace c); [exact IH|].
  destruct t as [|d u]; [repeat constructor; simpl; now rewrite Hc|].
  destruct (isspace d).
  - constructor; [simpl; now rewrite Hc | exact IH].
  - destruct (split (String d u)) as [|w ws].
    + repeat constructor. simpl. now rewrite Hc.
    + inversion IH; subst. constructor; [simpl; now rewrite Hc | assumption].
Qed.

Lemma Forall_split_word s : Forall word (split s).
Proof.
  induction s as [|c t IH]; simpl; [constructor|].
  destruct (isspace c) eqn:Hc; [exact IH|].
  assert (Hw : word (String c EmptyString)).
  { split; [discriminate | simpl; now rewrite Hc]. }
  destruct t as [|d u]; [repeat constructor; apply Hw|].
  destruct (isspace d) eqn:Hd.
  - constructor; [apply Hw | exact IH].
  - destruct (split (String d u)) as [|w ws].
    + repeat constructor; apply Hw.
    + inversion IH as [|? ? [Hne Hall] Hws]; subst.
      constructor; [|assumption].
      split; [discriminate | simpl; now rewrite Hc].
Qed.

Lemma sall_join Q ws :
  Q " "%char = true -> Forall (fun w => sall Q w = true) ws ->
  sall Q (join " " ws) = true.
Proof.
  intros Hsp. induction 1 as [|w ws Hw Hws IH]; [reflexivity|].
  unfold join in *. simpl. destruct ws as [|w' ws']; [exact Hw|].
  rewrite sall_app, Hw. simpl. rewrite Hsp. exact IH.
Qed.

(** Splitting a word gives the word; splitting a word followed by a space
    and a rest gives the word and the split of the rest. *)
Lemma split_word_app w r :
  word w -> split (w +:+ String " " r) = w :: split r.
Proof.
  intros [Hne Hall]. induction w as [|c t IH]; [congruence|].
  simpl in Hall. apply andb_true_iff in Hall as [Hc Ht].
  apply negb_true_iff in Hc.
  change (String c t +:+ String " " r) with (String c (t +:+ String " " r)).
  simpl. rewrite Hc. destruct t as [|d u].
  - reflexivity.
  - change (String d u +:+ String " " r) with (String d (u +:+ String " " r)).
    pose proof Ht as Ht'. simpl in Ht'. apply andb_true_iff in Ht' as [Hd _].
    apply negb_true_iff in Hd. rewrite Hd.
    change (String d (u +:+ String " " r)) with (String d u +:+ String " " r).
    rewrite IH; [reflexivity | discriminate | exact Ht].
Qed.

Lemma split_word w : word w -> split w = [w].
Proof.
  intros [Hne Hall]. induction w as [|c t IH]; [congruence|].
  simpl in Hall. apply andb_true_iff in Hall as [Hc Ht].
  apply negb_true_iff in Hc. simpl. rewrite Hc.
  destruct t as [|d u]; [reflexivity|].
  pose proof Ht as Ht'. simpl in Ht'. apply andb_true_iff in Ht' as [Hd _].
  apply negb_true_iff in Hd. rewrite Hd.
  rewrite IH; [reflexivity | discriminate | exact Ht].
Qed.

Lemma split_join ws : Forall word ws -> split (join " " ws) = ws.
Proof.
  induction 1 as [|w ws Hw Hws IH]; [reflexivity|].
  unfold join in *. simpl. destruct ws as [|w' ws'].
  - now apply split_word.
  - change (w +:+ " " +:+ String.concat " " (w' :: ws'))
      with (w +:+ String " " (String.concat " " (w' :: ws'))).
    now rewrite split_word_app, IH.
Qed.

Lemma lstrip_join ws : Forall word ws -> lstrip_by isspace (join " " ws) = join " " ws.
Proof.
  intros H. destruct H as [|w ws [Hne Hall] Hws]; [reflexivity|].
  destruct w as [|c t]; [congruence|].
  simpl in Hall. apply andb_true_iff in Hall as [Hc _]. apply negb_true_iff in Hc.
  unfold join. simpl. destruct ws; simpl; now rewrite Hc.
Qed.

Lemma rstrip_by_app P w r :
  r <> EmptyString -> rstrip_by P r = r -> rstrip_by P (w +:+ r) = w +:+ r.
Proof.
  intros Hne Hr. induction w as [|c t IH]; [exact Hr|].
  change (String c t +:+ r) with (String c (t +:+ r)). simpl. rewrite IH.
  destruct (t +:+ r) eqn:E; [|reflexivity].
  destruct t; [simpl in E; contradiction | discriminate].
Qed.

Lemma rstrip_by_none P w :
  sall (fun c => negb (P c)) w = true -> rstrip_by P w = w.
Proof.
  induction w as [|c t IH]; simpl; [easy|].
  rewrite andb_true_iff, negb_true_iff. intros [Hc Ht].
  rewrite (IH Ht). destruct t; [now rewrite Hc | reflexivity].
Qed.

Lemma rstrip_join ws : Forall word ws -> rstrip_by isspace (join " " ws) = join " " ws.
Proof.
  induction 1 as [|w ws [Hne Hall] Hws IH]; [reflexivity|].
  unfold join in *. simpl. destruct ws as [|w' ws'].
  - now apply rstrip_by_none.
  - apply rstrip_by_app; [|].
    + inversion Hws as [|? ? [Hne' _] _]; subst.
      simpl. destruct w'; [congruence|discriminate].
    + change (" " +:+ String.concat " " (w' :: ws'))
        with (String " " EmptyString +:+ String.concat " " (w' :: ws')).
      apply rstrip_by_app; [|exact IH].
      inversion Hws as [|? ? [Hne' _] _]; subst.
      simpl. destruct w'; [congruence|]. destruct ws'; discriminate.
Qed.

Lemma strip_join ws : Forall word ws -> strip (join " " ws) = join " " ws.
Proof.
  intros H. unfold strip, strip_by. now rewrite lstrip_join, rstrip_join.
Qed.

Variable nfkd_ascii : N -> string.

(** The two facts of the Unicode tables the pipeline relies on: an ASCII code
    point decomposes to itself, and [encode('ASCII', 'ignore')] leaves ASCII
    characters only. *)
Hypothesis nfkd_ascii_self :
  forall c, (c < 128)%N -> nfkd_ascii c = String (ascii_of_N c) EmptyString.
Hypothesis nfkd_ascii_range :
  forall c, sall is_ascii (nfkd_ascii c) = true.

Lemma ascii_fold_range s : sall is_ascii (ascii_fold nfkd_ascii s) = true.
Proof.
  unfold ascii_fold. induction s as [|c t IH]; [reflexivity|].
  simpl. destruct (map nfkd_ascii t) eqn:E.
  - apply nfkd_ascii_range.
  - rewrite sall_app, nfkd_ascii_range. exact IH.
Qed.

Lemma concat_empty_cons x xs :
  String.concat EmptyString (x :: xs) = x +:+ String.concat EmptyString xs.
Proof.
  simpl. destruct xs; [|reflexivity].
  simpl. induction x as [|a x IHx]; [reflexivity|].
  change (String a x +:+ EmptyString) with (String a (x +:+ EmptyString)).
  now rewrite <- IHx.
Qed.

Lemma ascii_fold_to_py s :
  sall is_ascii s = true -> ascii_fold nfkd_ascii (to_py s) = s.
Proof.
  unfold ascii_fold, to_py. induction s as [|c t IH]; [reflexivity|].
  simpl sall. rewrite andb_true_iff. intros [Hc Ht].
  cbn [list_ascii_of_string map]. rewrite concat_empty_cons, (IH Ht).
  rewrite nfkd_ascii_self by (unfold is_ascii in Hc; now apply N.ltb_lt).
  now rewrite ascii_N_embedding.
Qed.

(** The shape of every result of [normalize_text]: ASCII, without capital
    letters, words joined by single spaces. *)
Lemma normalize_text_shape v :
  exists ws, normalize_text nfkd_ascii v = join " " ws
             /\ Forall word ws
             /\ sall is_ascii (join " " ws) = true
             /\ sall (fun c => negb (is_upper c)) (join " " ws) = true.
Proof.
  destruct v as [| |z|s]; try (exists []; repeat split; constructor).
  cbn [normalize_text].
  set (x := strip (lower (ascii_fold nfkd_ascii s))).
  exists (split x). split; [reflexivity|]. split; [apply Forall_split_word|].
  pose proof (ascii_fold_range s) as Ha.
  split.
  - apply sall_join; [reflexivity|]. apply Forall_split_sall.
    apply sall_strip. eapply sall_smap; [|exact Ha]. apply lower_char_ascii.
  - apply sall_join; [reflexivity|]. apply Forall_split_sall.
    apply sall_strip. eapply sall_smap; [|exact Ha].
    intros c Hc. now rewrite lower_char_not_upper.
Qed.

(** C9.  [GeoMatcher.normalize_text] is idempotent: normalising the result of
    a normalisation gives that result again.  The result is ASCII, holds no
    capital letter, is trimmed and its words are separated by single spaces,
    so none of the three steps changes it. *)
Theorem normalize_text_idempotent (v : pyval) :
  normalize_text nfkd_ascii (PStr (to_py (normalize_text nfkd_ascii v)))
  = normalize_text nfkd_ascii v.
Proof.
  destruct (normalize_text_shape v) as (ws & -> & Hws & Hascii & Hlow).
  cbn [normalize_text].
  rewrite (ascii_fold_to_py _ Hascii).
  assert (Hl : lower (join " " ws) = join " " ws).
  { apply smap_fix. eapply sall_impl; [|exact Hlow].
    intros c Hc. apply bool_decide_eq_true, lower_char_fix.
    now apply negb_true_iff. }
  now rewrite Hl, strip_join, split_join.
Qed.

End TextFacts.

(** The Latin-1 table satisfies the two facts assumed of [unicodedata]. *)
Lemma latin1_nfkd_ascii_self c :
  (c < 128)%N -> Text.latin1_nfkd_ascii c = String (ascii_of_N c) EmptyString.
Proof.
  intros Hc. unfold Text.latin1_nfkd_ascii.
  now apply N.ltb_lt in Hc as ->.
Qed.

Lemma latin1_nfkd_ascii_range c :
  Text.sall Text.is_ascii (Text.latin1_nfkd_ascii c) = true.
Proof.
  unfold Text.latin1_nfkd_ascii.
  destruct (c <? 128)%N eqn:Hc.
  - simpl. unfold Text.is_ascii. rewrite N_ascii_embedding.
    + now rewrite Hc.
    + apply N.ltb_lt in Hc. lia.
  - repeat match goal with
           | |- context [if ?b then _ else _] => destruct b
           end; reflexivity.
Qed.

Lemma normalize_text_idempotent_witness :
  Text.normalize_text Text.latin1_nfkd_ascii
    (PStr (to_py (Text.normalize_text Text.latin1_nfkd_ascii
                    (PStr (utf8 "  Zamora   CHINCHIPE ")))))
  = Text.normalize_text Text.latin1_nfkd_ascii (PStr (utf8 "  Zamora   CHINCHIPE ")).
Proof.
  apply (normalize_text_idempotent Text.latin1_nfkd_ascii
           latin1_nfkd_ascii_self latin1_nfkd_ascii_range).
Defined.

(** ** Column normalisation *)

Lemma elem_of_dict_keys_from seen cols c :
  c ∈ cols -> c ∉ seen -> c ∈ dict_keys_from seen cols.
Proof.
  revert seen. induction cols as [|x t IH]; intros seen Hin Hseen.
  - inversion Hin.
  - simpl. destruct (decide (c = x)) as [->|Hne].
    + rewrite bool_decide_eq_false_2 by tauto. left.
    + assert (c ∈ t) by (inversion Hin; congruence).
      case_bool_decide.
      * now apply IH.
      * right. apply IH; [assumption|]. intros Hc. inversion Hc; congruence.
Qed.

Lemma elem_of_dict_keys cols c : c ∈ cols -> c ∈ dict_keys cols.
Proof. intros H. apply elem_of_dict_keys_from; [assumption|]. intros Hc. inversion Hc. Qed.

Lemma dict_get_setdefault_append k k' v d :
  dict_get k (setdefault_append k' v d)
  = if String.eqb k k' then dict_get k d ++ [v] else dict_get k d.
Proof.
  induction d as [|[k0 vs] t IH]; simpl.
  - destruct (String.eqb k k'); reflexivity.
  - destruct (String.eqb k' k0) eqn:E0; simpl.
    + apply String.eqb_eq in E0 as ->.
      destruct (String.eqb k k0); reflexivity.
    + destruct (String.eqb k k0) eqn:E1; [|exact IH].
      apply String.eqb_eq in E1 as ->.
      now rewrite String.eqb_sym, E0.
Qed.

Lemma dict_get_collisions (f : pyval -> string) k keys d :
  dict_get k
    (foldl (fun d '(original, norm) => setdefault_append norm original d) d
       (map (fun c => (c, f c)) keys))
  = dict_get k d ++ filter (fun c => f c = k) keys.
Proof.
  revert d. induction keys as [|c t IH]; intros d; simpl.
  - now rewrite app_nil_r.
  - rewrite IH, dict_get_setdefault_append.
    rewrite filter_cons. destruct (String.eqb k (f c)) eqn:E.
    + apply String.eqb_eq in E. rewrite decide_True by congruence.
      now rewrite <- app_assoc.
    + apply String.eqb_neq in E. now rewrite decide_False by congruence.
Qed.

Lemma dict_get_elem_of k d :
  dict_get k d <> [] -> (k, dict_get k d) ∈ d.
Proof.
  induction d as [|[k0 vs] t IH]; simpl; [congruence|].
  destruct (String.eqb k k0) eqn:E.
  - apply String.eqb_eq in E as ->. left.
  - right. now apply IH.
Qed.

Lemma filter_two {A} (P : A -> Prop) `{forall x, Decision (P x)} (l : list A) x y :
  x ∈ l -> y ∈ l -> x <> y -> P x -> P y -> 1 < length (filter P l).
Proof.
  intros Hx Hy Hne Px Py.
  assert (Hsub : [x; y] ⊆+ filter P l).
  { apply NoDup_submseteq.
    - repeat constructor; [|apply not_elem_of_nil]. intros Hxy. inversion Hxy; subst; [congruence|].
      match goal with H : _ ∈ [] |- _ => inversion H end.
    - intros z Hz. apply list_elem_of_filter.
      inversion Hz; subst; [easy|].
      match goal with H : _ ∈ [_] |- _ => inversion H; subst end; [easy|].
      match goal with H : _ ∈ [] |- _ => inversion H end. }
  apply submseteq_length in Hsub. simpl in Hsub. lia.
Qed.

Section ColumnFacts.

Variable nfkd_ascii : N -> string.
Hypothesis nfkd_ascii_self :
  forall c, (c < 128)%N -> nfkd_ascii c = String (ascii_of_N c) EmptyString.
(** U+00D3, LATIN CAPITAL LETTER O WITH ACUTE, decomposes to [O] and the
    combining acute accent U+0301. *)
Hypothesis nfkd_ascii_O_acute : nfkd_ascii 211 = "O".

Ltac fold_literal :=
  unfold Text.normalize_column_name, Text.ascii_fold; cbn [py_str];
  match goal with
  | |- context [utf8 ?s] =>
      let l := eval vm_compute in (utf8 s) in change (utf8 s) with l
  end;
  cbn [map]; rewrite nfkd_ascii_O_acute;
  rewrite !nfkd_ascii_self by reflexivity;
  vm_compute; reflexivity.

(** C7.  [normalize_column_name] sends "NIVEL FORMACIÓN" to "NIVEL_FORMACION"
    and "CANTÓN" to "CANTON"; and whenever two distinct column labels of a
    dataframe normalise to the same name, [normalize_columns] raises the
    duplicate-columns error, whose payload lists both labels under that name,
    instead of returning a renamed dataframe. *)
Theorem normalize_columns_duplicates :
  Text.normalize_column_name nfkd_ascii (PStr (utf8 "NIVEL FORMACIÓN")) = "NIVEL_FORMACION"
  /\ Text.normalize_column_name nfkd_ascii (PStr (utf8 "CANTÓN")) = "CANTON"
  /\ forall (df : dataframe) (c1 c2 : pyval),
       c1 ∈ columns df -> c2 ∈ columns df -> c1 <> c2 ->
       Text.normalize_column_name nfkd_ascii c1 = Text.normalize_column_name nfkd_ascii c2 ->
       exists dupes vs,
         normalize_columns nfkd_ascii df = Raise (ValueError_duplicate_columns dupes)
         /\ (Text.normalize_column_name nfkd_ascii c1, vs) ∈ dupes
         /\ c1 ∈ vs /\ c2 ∈ vs.
Proof.
  split; [fold_literal|]. split; [fold_literal|].
  intros df c1 c2 H1 H2 Hne Heq.
  unfold normalize_columns.
  set (f := Text.normalize_column_name nfkd_ascii) in *.
  set (coll := foldl _ [] _).
  set (k := f c1) in *.
  assert (Hget : dict_get k coll = filter (fun c => f c = k) (dict_keys (columns df))).
  { unfold coll. now rewrite dict_get_collisions. }
  assert (Hlen : 1 < length (dict_get k coll)).
  { rewrite Hget. apply (filter_two _ _ c1 c2); auto using elem_of_dict_keys. }
  assert (Hin : (k, dict_get k coll) ∈ filter (fun kv => 1 < length kv.2) coll).
  { apply list_elem_of_filter. split; [exact Hlen|].
    apply dict_get_elem_of. destruct (dict_get k coll); simpl in Hlen; [lia|discriminate]. }
  destruct (filter (fun kv => 1 < length kv.2) coll) as [|d ds] eqn:E.
  - inversion Hin.
  - exists (d :: ds), (dict_get k coll). split; [reflexivity|]. split; [exact Hin|].
    rewrite Hget. split; apply list_elem_of_filter; auto using elem_of_dict_keys.
Qed.

End ColumnFacts.

Lemma normalize_columns_duplicates_witness :
  Text.normalize_column_name Text.latin1_nfkd_ascii (PStr (utf8 "NIVEL FORMACIÓN"))
  = "NIVEL_FORMACION"
  /\ exists dupes,
       normalize_columns Text.latin1_nfkd_ascii
         {| columns := [PStr (utf8 "NOMBRE IES"); PStr (utf8 "NOMBRE_IES")]; rows := [] |}
       = Raise (ValueError_duplicate_columns dupes).
Proof.
  destruct (normalize_columns_duplicates Text.latin1_nfkd_ascii
              latin1_nfkd_ascii_self eq_refl) as (Hnivel & _ & Hdup).
  split; [exact Hnivel|].
  destruct (Hdup {| columns := [PStr (utf8 "NOMBRE IES"); PStr (utf8 "NOMBRE_IES")];
                    rows := [] |}
              (PStr (utf8 "NOMBRE IES")) (PStr (utf8 "NOMBRE_IES")))
    as (dupes & vs & Hraise & _).
  - left.
  - right. left.
  - discriminate.
  - vm_compute. reflexivity.
  - exists dupes. exact Hraise.
Defined.

(** ** Header detection and the retry of [load_excel] *)

Lemma to_py_inj s t : to_py s = to_py t -> s = t.
Proof.
  unfold to_py. intros H.
  rewrite <- (string_of_list_ascii_of_string s), <- (string_of_list_ascii_of_string t).
  f_equal. revert H. generalize (list_ascii_of_string s) (list_ascii_of_string t).
  induction l as [|a l IH]; intros [|b l'] H; simpl in H; try discriminate; [reflexivity|].
  injection H as Hab Hl. f_equal; [|now apply IH].
  now rewrite <- (ascii_N_embedding a), <- (ascii_N_embedding b), Hab.
Qed.

Lemma filter_empty_iff {A} (P : A -> Prop) `{forall x, Decision (P x)} (l : list A) :
  filter P l = [] <-> forall x, x ∈ l -> ~ P x.
Proof.
  split.
  - intros Hnil x Hx HP. now apply (filter_nil_not_elem_of P l x).
  - intros Hall. induction l as [|x t IH]; [reflexivity|].
    rewrite filter_cons_False by (apply Hall; left).
    apply IH. intros y Hy. apply Hall. now right.
Qed.

Section LoaderFacts.

Variable nfkd_ascii : N -> string.
Variable read_excel : string -> header_arg -> result dataframe.

Lemma scan_rows_Some idx rs n :
  scan_rows nfkd_ascii idx rs = Some n <->
  exists k row_values, n = idx + k /\ rs !! k = Some row_values
    /\ covers_required nfkd_ascii row_values = true
    /\ forall j r, j < k -> rs !! j = Some r -> covers_required nfkd_ascii r = false.
Proof.
  revert idx. induction rs as [|r rest IH]; intros idx; simpl.
  - split; [discriminate|]. intros (k & rv & _ & Hk & _). now destruct k.
  - destruct (covers_required nfkd_ascii r) eqn:Hr.
    + split.
      * intros [= <-]. exists 0, r. split_and!; [lia|reflexivity|assumption|].
        intros j r' Hj. lia.
      * intros (k & rv & -> & Hk & Hc & Hmin). destruct k as [|k]; [f_equal; lia|].
        specialize (Hmin 0 r ltac:(lia) eq_refl). congruence.
    + rewrite IH. split.
      * intros (k & rv & -> & Hk & Hc & Hmin). exists (S k), rv.
        split_and!; [lia|exact Hk|assumption|].
        intros [|j] r' Hj Hr'; simpl in Hr'; [congruence|]. apply (Hmin j); [lia|assumption].
      * intros (k & rv & -> & Hk & Hc & Hmin). destruct k as [|k]; simpl in Hk; [congruence|].
        exists k, rv. split_and!; [lia|exact Hk|assumption|].
        intros j r' Hj Hr'. apply (Hmin (S j)); [lia|assumption].
Qed.

Lemma scan_rows_None idx rs :
  scan_rows nfkd_ascii idx rs = None <->
  forall j r, rs !! j = Some r -> covers_required nfkd_ascii r = false.
Proof.
  revert idx. induction rs as [|r rest IH]; intros idx; simpl.
  - split; [|reflexivity]. intros _ j r Hj. now destruct j.
  - destruct (covers_required nfkd_ascii r) eqn:Hr.
    + split; [discriminate|]. intros H. specialize (H 0 r eq_refl). congruence.
    + rewrite IH. split.
      * intros H [|j] r' Hj; simpl in Hj; [congruence|]. now apply (H j).
      * intros H j r' Hj. now apply (H (S j)).
Qed.

(** [detect_header_row] returns the first header row among the rows it scans,
    and [None] exactly when none of them is a header row. *)
Lemma detect_header_row_Some df max_scan i :
  detect_header_row nfkd_ascii df max_scan = Some i <->
  i < min max_scan (length (rows df))
  /\ is_header_row nfkd_ascii df i
  /\ forall j, j < i -> ~ is_header_row nfkd_ascii df j.
Proof.
  unfold detect_header_row, is_header_row. rewrite scan_rows_Some. split.
  - intros (k & rv & -> & Hk & Hc & Hmin). simpl.
    apply lookup_take_Some in Hk as [Hk Hlt]. split_and!; [lia|eauto|].
    intros j Hj (r & Hr & Hcr).
    rewrite (Hmin j r Hj) in Hcr; [discriminate|].
    apply lookup_take_Some. split; [assumption|lia].
  - intros (Hlt & (rv & Hrv & Hc) & Hmin). exists i, rv.
    split_and!; [reflexivity| |assumption|].
    + apply lookup_take_Some. split; [assumption|lia].
    + intros j r Hj Hr. apply lookup_take_Some in Hr as [Hr _].
      destruct (covers_required nfkd_ascii r) eqn:E; [|reflexivity].
      exfalso. apply (Hmin j Hj). eauto.
Qed.

Lemma detect_header_row_None df max_scan :
  detect_header_row nfkd_ascii df max_scan = None <->
  forall j, j < min max_scan (length (rows df)) -> ~ is_header_row nfkd_ascii df j.
Proof.
  unfold detect_header_row, is_header_row. rewrite scan_rows_None. split.
  - intros H j Hj (r & Hr & Hc). rewrite (H j r) in Hc; [discriminate|].
    apply lookup_take_Some. split; [assumption|lia].
  - intros H j r Hr. apply lookup_take_Some in Hr as [Hr Hj].
    destruct (covers_required nfkd_ascii r) eqn:E; [|reflexivity].
    exfalso. apply (H j); [|eauto].
    apply lookup_lt_Some in Hr. lia.
Qed.

(** After a successful [normalize_columns], no required column is missing
    exactly when the raw labels cover the required columns. *)
Lemma missing_cols_normalize_columns df0 df1 :
  normalize_columns nfkd_ascii df0 = Ok df1 ->
  (missing_cols df1 = [] <-> covers_required nfkd_ascii (columns df0) = true).
Proof.
  unfold normalize_columns. destruct (filter _ _); [|discriminate].
  intros [= <-]. unfold missing_cols, covers_required. cbn [columns].
  rewrite forallb_forall. split.
  - intros Hnil col Hcol. apply bool_decide_eq_true.
    apply list_elem_of_In in Hcol.
    destruct (decide (PStr (to_py col) ∈
                map (fun c => PStr (to_py (Text.normalize_column_name nfkd_ascii c))) (columns df0)))
      as [Hin|Hnin].
    + apply list_elem_of_fmap in Hin as (c & Hc & Hin).
      injection Hc as Hc. apply to_py_inj in Hc. subst col.
      apply list_elem_of_fmap. eauto.
    + exfalso. assert (Hf : col ∈ filter (fun c => PStr (to_py c) ∉
                map (fun c => PStr (to_py (Text.normalize_column_name nfkd_ascii c))) (columns df0))
                REQUIRED_COLUMNS) by (apply list_elem_of_filter; auto).
      rewrite Hnil in Hf. inversion Hf.
  - intros Hall. apply filter_empty_iff. intros col Hcol Hnin.
    apply Hnin. apply list_elem_of_In in Hcol. specialize (Hall col Hcol).
    apply bool_decide_eq_true in Hall.
    apply list_elem_of_fmap in Hall as (c & -> & Hin).
    apply list_elem_of_fmap. eauto.
Qed.

End LoaderFacts.

Section LoadExcelFacts.

Variable nfkd_ascii : N -> string.
Variable read_excel : string -> header_arg -> result dataframe.

Lemma bind_read {B} file_path h (f : dataframe -> loader B) :
  read read_excel file_path h ≫= f
  = match read_excel file_path h with
    | Ok df => let (log, r) := f df in (h :: log, r)
    | Raise e => ([h], Raise e)
    end.
Proof. unfold read, mbind, loader_bind. now destruct (read_excel file_path h). Qed.

Lemma bind_lift {A B} (r : result A) (f : A -> loader B) :
  lift r ≫= f = match r with Ok a => f a | Raise e => ([], Raise e) end.
Proof. unfold lift, mbind, loader_bind. destruct r; [|reflexivity]. now destruct (f a). Qed.

(** C6, amended.  For a workbook that can be read, whose first-row labels
    normalise without two distinct labels meeting in one name, and do not cover
    the ten required columns: [load_excel] reads the workbook a second time
    with [header=None]; [detect_header_row] returns the smallest index among the
    first [min 50 (number of rows)] rows whose normalised cells cover the
    required columns, and [None] exactly when there is none; and when it
    returns [None] on the re-read data, [load_excel] performs no further read
    and raises the missing-columns error listing the required columns absent
    from the normalised first-row labels. *)
Theorem load_excel_header_retry (file_path : string) (df0 df1 : dataframe) :
  read_excel file_path header_first = Ok df0 ->
  normalize_columns nfkd_ascii df0 = Ok df1 ->
  covers_required nfkd_ascii (columns df0) = false ->
  (exists later,
      (load_excel nfkd_ascii read_excel file_path).1 = header_first :: header_none :: later)
  /\ (forall df i,
        detect_header_row nfkd_ascii df 50 = Some i <->
        i < min 50 (length (rows df))
        /\ is_header_row nfkd_ascii df i
        /\ forall j, j < i -> ~ is_header_row nfkd_ascii df j)
  /\ (forall df,
        detect_header_row nfkd_ascii df 50 = None <->
        forall j, j < min 50 (length (rows df)) -> ~ is_header_row nfkd_ascii df j)
  /\ (forall df_raw,
        read_excel file_path header_none = Ok df_raw ->
        detect_header_row nfkd_ascii df_raw 50 = None ->
        load_excel nfkd_ascii read_excel file_path
        = ([header_first; header_none], Raise (ValueError_missing_columns (missing_cols df1)))
        /\ missing_cols df1 <> []
        /\ missing_cols df1
           = filter (fun c => c ∉ map (Text.normalize_column_name nfkd_ascii) (columns df0))
               REQUIRED_COLUMNS).
Proof.
  intros Hread Hnorm Hcov.
  assert (Hmiss : missing_cols df1 <> []).
  { intros Hnil. apply (missing_cols_normalize_columns nfkd_ascii df0 df1 Hnorm) in Hnil.
    congruence. }
  split_and!.
  - unfold load_excel. rewrite bind_read, Hread, bind_lift, Hnorm.
    cbv beta iota zeta. destruct (missing_cols df1) as [|m ms] eqn:Em; [congruence|].
    rewrite bind_read.
    destruct (read_excel file_path header_none) as [df_raw|e]; [|eexists; reflexivity].
    destruct (detect_header_row nfkd_ascii df_raw 50) as [h|]; [|eexists; reflexivity].
    cbv beta iota. rewrite bind_read.
    destruct (read_excel file_path (header_at h)) as [df2|e]; [|eexists; reflexivity].
    rewrite bind_lift.
    destruct (normalize_columns nfkd_ascii df2) as [df3|e]; [|eexists; reflexivity].
    destruct (missing_cols df3); eexists; reflexivity.
  - intros df i. apply detect_header_row_Some.
  - intros df. apply detect_header_row_None.
  - intros df_raw Hraw Hnone. split_and!; [|exact Hmiss|].
    + unfold load_excel. rewrite bind_read, Hread, bind_lift, Hnorm.
      cbv beta iota zeta. destruct (missing_cols df1) as [|m ms] eqn:Em; [congruence|].
      rewrite bind_read, Hraw, Hnone. reflexivity.
    + revert Hnorm. unfold normalize_columns. destruct (filter _ _); [|discriminate].
      intros [= <-]. unfold missing_cols. cbn [columns].
      apply list_filter_iff. intros col. split; intros Hn Hin; apply Hn.
      * apply list_elem_of_fmap in Hin as (c & -> & Hc). apply list_elem_of_fmap. eauto.
      * apply list_elem_of_fmap in Hin as (c & Hc & Hin). injection Hc as Hc.
        apply to_py_inj in Hc. subst col. apply list_elem_of_fmap. eauto.
Qed.

End LoadExcelFacts.

Example load_excel_decorated :
  exists df,
    load_excel Text.latin1_nfkd_ascii (sheet_reader decorated_sheet) "oferta.xlsx"
    = ([header_first; header_none; header_at 1], Ok df)
    /\ columns df = map (fun s => PStr (to_py s)) REQUIRED_COLUMNS
    /\ length (rows df) = 1.
Proof. eexists. vm_compute. split_and!; reflexivity. Qed.

Lemma load_excel_header_retry_witness :
  load_excel Text.latin1_nfkd_ascii (sheet_reader headless_sheet) "oferta.xlsx"
  = ([header_first; header_none],
     Raise (ValueError_missing_columns
              [ "NOMBRE_IES"; "TIPO_IES"; "TIPO_FINANCIAMIENTO"; "NOMBRE_CARRERA";
                "CAMPO_AMPLIO"; "NIVEL_FORMACION"; "MODALIDAD"; "CANTON"; "ESTADO" ])).
Proof.
  pose proof (load_excel_header_retry Text.latin1_nfkd_ascii (sheet_reader headless_sheet)
                "oferta.xlsx"
                {| columns := [PStr (utf8 "Reporte"); PStr (utf8 "Provincia")];
                   rows := [[PStr (utf8 "Uni A"); PStr (utf8 "Pichincha")]] |}
                {| columns := [PStr (to_py "REPORTE"); PStr (to_py "PROVINCIA")];
                   rows := [[PStr (utf8 "Uni A"); PStr (utf8 "Pichincha")]] |}
                eq_refl eq_refl eq_refl) as (_ & _ & _ & H).
  destruct (H {| columns := [PInt 0; PInt 1]; rows := headless_sheet |} eq_refl eq_refl)
    as (Hload & _ & _).
  exact Hload.
Defined.

(** C6 as the specification states it does not hold for a workbook whose first
    row holds two labels that normalise to the same name: the labels do not
    cover the required columns and no row is a header row, yet [load_excel]
    reads once and raises the duplicate-columns error. *)
Lemma load_excel_retry_counterexample :
  (exists df0 df_raw,
      sheet_reader colliding_sheet "oferta.xlsx" header_first = Ok df0
      /\ covers_required Text.latin1_nfkd_ascii (columns df0) = false
      /\ sheet_reader colliding_sheet "oferta.xlsx" header_none = Ok df_raw
      /\ detect_header_row Text.latin1_nfkd_ascii df_raw 50 = None)
  /\ load_excel Text.latin1_nfkd_ascii (sheet_reader colliding_sheet) "oferta.xlsx"
     = ([header_first],
        Raise (ValueError_duplicate_columns
                 [("NOMBRE_IES", [PStr (utf8 "NOMBRE IES"); PStr (utf8 "NOMBRE_IES")])])).
Proof.
  split.
  - do 2 eexists. split_and!; [reflexivity | vm_compute; reflexivity
                              | reflexivity | vm_compute; reflexivity].
  - vm_compute. reflexivity.
Qed.

(** ** Keys and hashes *)

(** The test vectors of FIPS 180-4 for the empty message and for "abc", and a
    message longer than one block. *)
Example sha256_empty :
  SHA256.hexdigest [] = "e3b0c44298fc1c149afbf4c8996fb92427ae41e4649b934ca495991b7852b855".
Proof. vm_compute. reflexivity. Qed.

Example sha256_abc :
  SHA256.hexdigest (to_py "abc")
  = "ba7816bf8f01cfea414140de5dae2223b00361a396177a9cb410ff61f20015ad".
Proof. vm_compute. reflexivity. Qed.

Example sha256_two_blocks :
  SHA256.hexdigest (to_py "abcdbcdecdefdefgefghfghighijhijkijkljklmklmnlmnomnopnopq")
  = "248d6a61d20638b8e5c026930c3e6039a33ce45964ff2167f6ecedd419db06c1".
Proof. vm_compute. reflexivity. Qed.

Lemma string_app_assoc (s t u : string) : (s +:+ t) +:+ u = s +:+ t +:+ u.
Proof.
  induction s as [|c s IH]; [reflexivity|].
  change (String c ((s +:+ t) +:+ u) = String c (s +:+ t +:+ u)). now rewrite IH.
Qed.

Example json_dumps_escapes :
  Json.dumps [("b", PStr (utf8 "ñ 😀")); ("a", PNone)] true
  = "{" +:+ Json.encode_string (to_py "a") +:+ ": null, "
        +:+ Json.encode_string (to_py "b") +:+ ": "
        +:+ String Json.quote ("\u00f1 \ud83d\ude00" +:+ String Json.quote "}").
Proof. vm_compute. reflexivity. Qed.

(** For a row that has a natural key and whose normalised status is absent,
    [None] or a text, [generate_row_hash] is the SHA-256 hex digest of the
    JSON text with sorted keys of the two entries [estado_norm] (the empty
    text when the status is missing) and [natural_key], and of nothing else.
    Two rows that agree on these two entries have the same hash whatever their
    other entries are. *)
Lemma generate_row_hash_content (row : gmap string pyval) (natural_key : pyval) :
  row !! "natural_key" = Some natural_key ->
  status_normalized row ->
  generate_row_hash row
  = Ok (SHA256.hexdigest
          (encode_utf8
             (Json.dumps [ ("estado_norm", PStr (status_text row));
                           ("natural_key", natural_key) ] false)))
  /\ Json.dumps [ ("estado_norm", PStr (status_text row));
                  ("natural_key", natural_key) ] false
     = "{" +:+ Json.encode_string (to_py "estado_norm") +:+ ": "
           +:+ Json.encode_string (status_text row) +:+ ", "
           +:+ Json.encode_string (to_py "natural_key") +:+ ": "
           +:+ Json.encode_value natural_key +:+ "}"
  /\ (forall row' : gmap string pyval,
        row' !! "natural_key" = row !! "natural_key" ->
        row' !! "estado_norm" = row !! "estado_norm" ->
        generate_row_hash row' = generate_row_hash row).
Proof.
  intros Hnk Hst. split_and!.
  - unfold generate_row_hash. rewrite Hnk. do 3 f_equal.
    unfold status_normalized, status_text, row_get in *.
    destruct (row !! "estado_norm") as [[| | |[|c s]]|]; try contradiction; reflexivity.
  - unfold Json.dumps. cbn [map String.concat fst snd]. cbn [Json.encode_value].
    now rewrite !string_app_assoc.
  - intros row' H1 H2. unfold generate_row_hash, row_get. now rewrite H1, H2.
Qed.

(** The row of [tests/test_keys.py] has the hash [hashlib] gives it, and an
    added column does not change it. *)
Lemma generate_row_hash_content_witness :
  generate_row_hash test_row
  = Ok "7c549b3596e669090c9247834d1acf5ab64b46008ca80d87356d19f4bb7d5da8"
  /\ generate_row_hash (<["nombre_norm" := PStr (utf8 "uni a")]> test_row)
     = generate_row_hash test_row.
Proof.
  destruct (generate_row_hash_content test_row (PStr (utf8 "a|b|c|d|e|f|g")) eq_refl I)
    as (Hhash & _ & Hother).
  split.
  - rewrite Hhash. vm_compute. reflexivity.
  - apply Hother; reflexivity.
Defined.

(** C3.  A missing status does not always enter the hash as the empty text:
    for a row whose normalised status is the float nan,
    [row.get('estado_norm') or ''] is nan, since nan is true, and
    [generate_row_hash] hashes the JSON text that holds [NaN] for the status.
    The same row with [None] for the status is hashed with the empty text, so
    two rows with the same natural key and no status get different hashes. *)
Theorem generate_row_hash_nan_status :
  py_or (row_get nan_status_row "estado_norm") (PStr []) = PNaN
  /\ generate_row_hash nan_status_row
     = Ok (SHA256.hexdigest
             (encode_utf8
                ("{" +:+ Json.encode_string (to_py "estado_norm") +:+ ": NaN, "
                     +:+ Json.encode_string (to_py "natural_key") +:+ ": "
                     +:+ Json.encode_string (utf8 "a|b|c|d|e|f|g") +:+ "}")))
  /\ generate_row_hash nan_status_row
     = Ok "ae8ef745593ddc6a083fa191e7498b0df2dccd0f84bc860b6dd1e565a3faf879"
  /\ generate_row_hash none_status_row
     = Ok (SHA256.hexdigest
             (encode_utf8
                ("{" +:+ Json.encode_string (to_py "estado_norm") +:+ ": "
                     +:+ Json.encode_string [] +:+ ", "
                     +:+ Json.encode_string (to_py "natural_key") +:+ ": "
                     +:+ Json.encode_string (utf8 "a|b|c|d|e|f|g") +:+ "}")))
  /\ generate_row_hash none_status_row
     = Ok "ee791f33f95c707ef8b9f1ddbee46abf8091ff2c90b96503847ec5c45e50a2c7"
  /\ generate_row_hash nan_status_row <> generate_row_hash none_status_row.
Proof.
  split_and!; try (vm_compute; reflexivity).
  vm_compute. discriminate.
Qed.

Example generate_row_hash_no_status :
  generate_row_hash {[ "natural_key" := PStr (utf8 "a|b|c|d|e|f|g"); "estado_norm" := PNone ]}
  = Ok "ee791f33f95c707ef8b9f1ddbee46abf8091ff2c90b96503847ec5c45e50a2c7".
Proof. vm_compute. reflexivity. Qed.

(** ** Territory matching *)

Section GeoFacts.

Variable nfkd_ascii : N -> string.
Variable extractOne : string -> list string -> option (string * Q).

Lemma Qle_bool_at_threshold (score : Q) : (score == 85)%Q -> Qle_bool 85 score = true.
Proof. intros H. apply Qle_bool_iff. rewrite H. apply Qle_refl. Qed.

Lemma Qle_bool_below_threshold (score : Q) : (score < 85)%Q -> Qle_bool 85 score = false.
Proof.
  intros H. destruct (Qle_bool 85 score) eqn:E; [|reflexivity].
  apply Qle_bool_iff in E. exfalso. exact (Qlt_not_le _ _ H E).
Qed.

(** Every score below the threshold is rejected, not only the whole numbers. *)
Lemma match_territory_below_threshold self provincia_input canton_input pairs best score :
  catalog self = Some pairs ->
  Text.normalize_text nfkd_ascii provincia_input ∉ provinces self ->
  extractOne (Text.normalize_text nfkd_ascii provincia_input) (provinces self)
  = Some (best, score) ->
  (score < 85)%Q ->
  match_territory nfkd_ascii extractOne self provincia_input canton_input 85
  = (None, None, 0%Q, 0%Q, failed_prov).
Proof.
  intros Hcat Hnot Hbest Hlt. unfold match_territory. rewrite Hcat.
  rewrite bool_decide_eq_false_2 by assumption.
  now rewrite Hbest, Qle_bool_below_threshold.
Qed.

(** C4.  With a catalog loaded and the threshold 85: when the normalised
    province is no canonical province and the best fuzzy candidate scores
    exactly 85, that candidate is the matched province, with that score; when
    it scores 84 or lower the result is [(None, None, 0, 0, 'failed_prov')].
    A normalised province equal to a canonical one is matched with score 100,
    and if the normalised canton is in the canton list of that province the
    result is that pair with scores 100 and 100 and the method [exact].
    If instead the canton is accepted by its fuzzy score, below 100, the
    method is [fuzzy]; and whenever province and canton are both matched, the
    method is [exact] if both scores are 100 and [fuzzy] otherwise. *)
Theorem match_territory_boundary (self : GeoMatcher) (provincia_input canton_input : pyval)
    (pairs : list (string * string)) :
  catalog self = Some pairs ->
  let prov := Text.normalize_text nfkd_ascii provincia_input in
  let canton := Text.normalize_text nfkd_ascii canton_input in
  let result := match_territory nfkd_ascii extractOne self provincia_input canton_input 85 in
  (forall best score,
      prov ∉ provinces self ->
      extractOne prov (provinces self) = Some (best, score) ->
      ((score == 85)%Q ->
         exists matched_canton canton_score method,
           result = (Some best, matched_canton, score, canton_score, method))
      /\ ((score <= 84)%Q -> result = (None, None, 0%Q, 0%Q, failed_prov)))
  /\ (prov ∈ provinces self ->
        exists matched_canton canton_score method,
          result = (Some prov, matched_canton, 100%Q, canton_score, method))
  /\ (prov ∈ provinces self ->
      canton ∈ default [] (cantons_by_prov self !! prov) ->
        result = (Some prov, Some canton, 100%Q, 100%Q, exact))
  /\ (forall best score,
        prov ∈ provinces self ->
        canton ∉ default [] (cantons_by_prov self !! prov) ->
        extractOne canton (default [] (cantons_by_prov self !! prov)) = Some (best, score) ->
        (85 <= score)%Q -> ~ (score == 100)%Q ->
        result = (Some prov, Some best, 100%Q, score, fuzzy))
  /\ (forall matched_prov matched_canton prov_score canton_score method,
        result = (Some matched_prov, Some matched_canton, prov_score, canton_score, method) ->
        ((prov_score == 100)%Q /\ (canton_score == 100)%Q -> method = exact)
        /\ (~ ((prov_score == 100)%Q /\ (canton_score == 100)%Q) -> method = fuzzy)).
Proof.
  intros Hcat prov canton result. split_and!.
  - intros best score Hnot Hbest. split.
    + intros H85. subst result. unfold match_territory. rewrite Hcat.
      fold prov canton. rewrite bool_decide_eq_false_2 by assumption.
      rewrite Hbest, Qle_bool_at_threshold by assumption.
      cbv beta iota zeta.
      repeat match goal with
             | |- context [bool_decide ?P] => destruct (bool_decide P)
             | |- context [extractOne ?q ?l] => destruct (extractOne q l) as [[? ?]|]
             | |- context [Qle_bool ?a ?b] => destruct (Qle_bool a b)
             end; eauto.
    + intros H84. apply (match_territory_below_threshold _ _ _ pairs best score); auto.
      eapply Qle_lt_trans; [exact H84|reflexivity].
  - intros Hin. subst result. unfold match_territory. rewrite Hcat.
    fold prov canton. rewrite bool_decide_eq_true_2 by assumption.
    cbv beta iota zeta.
    repeat match goal with
           | |- context [bool_decide ?P] => destruct (bool_decide P)
           | |- context [extractOne ?q ?l] => destruct (extractOne q l) as [[? ?]|]
           | |- context [Qle_bool ?a ?b] => destruct (Qle_bool a b)
           end; eauto.
  - intros Hin Hcanton. subst result. unfold match_territory. rewrite Hcat.
    fold prov canton. rewrite bool_decide_eq_true_2 by assumption.
    cbv beta iota zeta. rewrite bool_decide_eq_true_2 by assumption. reflexivity.
  - intros best score Hin Hnot Hbest Hle Hne. subst result. unfold match_territory.
    rewrite Hcat. fold prov canton. rewrite bool_decide_eq_true_2 by assumption.
    cbv beta iota zeta. rewrite bool_decide_eq_false_2 by assumption.
    rewrite Hbest. apply Qle_bool_iff in Hle. rewrite Hle.
    destruct (Qeq_bool score 100) eqn:E; [|reflexivity].
    apply Qeq_bool_iff in E. contradiction.
  - intros mp mc sp sc meth. subst result. unfold match_territory. rewrite Hcat.
    fold prov canton. cbv beta iota zeta.
    destruct (if bool_decide (prov ∈ provinces self) then _ else _) as [[p0 s0]|];
      [|discriminate].
    destruct (if bool_decide (canton ∈ _) then _ else _) as [[c0 t0]|]; [|discriminate].
    intros [= <- <- <- <- <-]. split.
    + intros [Hp Hc]. apply Qeq_bool_iff in Hp, Hc. now rewrite Hp, Hc.
    + intros Hn. destruct (Qeq_bool s0 100) eqn:Ep; [|reflexivity].
      destruct (Qeq_bool t0 100) eqn:Ec; [|reflexivity].
      exfalso. apply Hn. split; now apply Qeq_bool_iff.
Qed.

End GeoFacts.

Example fuzz_ratio_85 : (Fuzz.ratio "provinzia dal guaias" "provincia del guayas" == 85)%Q.
Proof. vm_compute. reflexivity. Qed.

Example fuzz_ratio_80 : (Fuzz.ratio "provinzia dal guaiaz" "provincia del guayas" == 80)%Q.
Proof. vm_compute. reflexivity. Qed.

Example match_territory_exact :
  match_territory Text.latin1_nfkd_ascii Fuzz.extractOne sample_matcher
    (PStr (utf8 " AZUAY")) (PStr (utf8 "Cuenca ")) 85
  = (Some "azuay", Some "cuenca", 100%Q, 100%Q, exact).
Proof. vm_compute. reflexivity. Qed.

Example match_territory_failed_canton :
  match_territory Text.latin1_nfkd_ascii Fuzz.extractOne sample_matcher
    (PStr (utf8 "Azuay")) (PStr (utf8 "Quito")) 85
  = (Some "azuay", None, 100%Q, 0%Q, failed_canton).
Proof. vm_compute. reflexivity. Qed.

Example match_territory_no_catalog :
  match_territory Text.latin1_nfkd_ascii Fuzz.extractOne
    (load_catalog Text.latin1_nfkd_ascii catalog_absent)
    (PStr (utf8 "Azuay")) (PStr (utf8 "Cuenca")) 85
  = (None, None, 0%Q, 0%Q, no_catalog).
Proof. reflexivity. Qed.

Lemma match_territory_boundary_witness :
  (exists matched_canton canton_score method,
      match_territory Text.latin1_nfkd_ascii Fuzz.extractOne sample_matcher
        (PStr (utf8 "Provinzia dal Guaias")) (PStr (utf8 "Guayaquil")) 85
      = (Some "provincia del guayas", matched_canton,
         Fuzz.ratio "provinzia dal guaias" "provincia del guayas", canton_score, method))
  /\ match_territory Text.latin1_nfkd_ascii Fuzz.extractOne sample_matcher
       (PStr (utf8 "Provinzia dal Guaiaz")) (PStr (utf8 "Guayaquil")) 85
     = (None, None, 0%Q, 0%Q, failed_prov).
Proof.
  split.
  - pose proof (match_territory_boundary Text.latin1_nfkd_ascii Fuzz.extractOne sample_matcher
                  (PStr (utf8 "Provinzia dal Guaias")) (PStr (utf8 "Guayaquil")) _ eq_refl)
      as (Hfuzzy & _).
    destruct (Hfuzzy "provincia del guayas"
                (Fuzz.ratio "provinzia dal guaias" "provincia del guayas")) as (Hacc & _).
    + vm_compute. intros H. inversion H as [|? ? ? H']; subst.
      inversion H' as [|? ? ? H'']; subst. inversion H''.
    + vm_compute. reflexivity.
    + apply Hacc. vm_compute. reflexivity.
  - pose proof (match_territory_boundary Text.latin1_nfkd_ascii Fuzz.extractOne sample_matcher
                  (PStr (utf8 "Provinzia dal Guaiaz")) (PStr (utf8 "Guayaquil")) _ eq_refl)
      as (Hfuzzy & _).
    destruct (Hfuzzy "provincia del guayas"
                (Fuzz.ratio "provinzia dal guaiaz" "provincia del guayas")) as (_ & Hrej).
    + vm_compute. intros H. inversion H as [|? ? ? H']; subst.
      inversion H' as [|? ? ? H'']; subst. inversion H''.
    + vm_compute. reflexivity.
    + apply Hrej. vm_compute. discriminate.
Defined.

(** ** The checksum guard *)






(** ** The SCD Type-2 step *)

Lemma drop_duplicates_last_keys df k :
  k ∈ map Df.natural_key (drop_duplicates_last df) <-> k ∈ map Df.natural_key df.
Proof.
  induction df as [|row rest IH]; [reflexivity|].
  simpl. case_bool_decide as Hin.
  - rewrite IH. split; [now right|].
    intros Hk. apply elem_of_cons in Hk as [->|Hk]; assumption.
  - simpl. rewrite !elem_of_cons, IH. reflexivity.
Qed.

Lemma drop_duplicates_last_NoDup df : NoDup (map Df.natural_key (drop_duplicates_last df)).
Proof.
  induction df as [|row rest IH]; [constructor|].
  simpl. case_bool_decide as Hin; [exact IH|].
  simpl. constructor; [|exact IH].
  now rewrite drop_duplicates_last_keys.
Qed.

(** The row kept for a natural key is the last row of the batch with that key. *)
Lemma drop_duplicates_last_keeps_last df row :
  row ∈ drop_duplicates_last df ->
  last (filter (fun r => Df.natural_key r = Df.natural_key row) df) = Some row.
Proof.
  induction df as [|r rest IH]; simpl; [intros H; inversion H|].
  case_bool_decide as Hin.
  - intros Hrow. specialize (IH Hrow). rewrite filter_cons.
    case_decide; [|exact IH].
    destruct (filter _ rest) as [|x t] eqn:E; [discriminate IH|exact IH].
  - intros Hrow. apply elem_of_cons in Hrow as [->|Hrow].
    + rewrite filter_cons_True by reflexivity.
      assert (Hnil : filter (fun r0 => Df.natural_key r0 = Df.natural_key r) rest = []).
      { apply filter_empty_iff. intros x Hx Hk. apply Hin.
        rewrite <- Hk. apply list_elem_of_fmap. eauto. }
      now rewrite Hnil.
    + specialize (IH Hrow). rewrite filter_cons.
      case_decide; [|exact IH].
      destruct (filter _ rest) as [|x t] eqn:E; [discriminate IH|exact IH].
Qed.

(** The deduplicated batch has one row per distinct natural key. *)
Lemma drop_duplicates_last_length df :
  length (drop_duplicates_last df)
  = size (list_to_set (map Df.natural_key df) : gset string).
Proof.
  rewrite <- (length_map Df.natural_key).
  rewrite <- (size_list_to_set (C := gset string)) by apply drop_duplicates_last_NoDup.
  f_equal. apply set_eq. intros k.
  rewrite !elem_of_list_to_set. apply drop_duplicates_last_keys.
Qed.

Section ScdFacts.

Variable now : string.
Variable file_id : string.
Variable lookups : dim_lookups.

Lemma current_rows_expire nk nk' table :
  length (current_rows nk (expire_current now file_id nk' table))
  = if String.eqb nk nk' then 0 else length (current_rows nk table).
Proof.
  unfold current_rows, expire_current.
  induction table as [|r t IH]; simpl; [now destruct (String.eqb nk nk')|].
  destruct (where_current nk' r) eqn:E'.
  - unfold where_current in *. simpl. rewrite andb_false_r.
    apply andb_true_iff in E' as [Ek Ec]. apply String.eqb_eq in Ek.
    rewrite IH, Ek, Ec. rewrite (String.eqb_sym nk' nk).
    destruct (String.eqb nk nk'); simpl; reflexivity.
  - destruct (where_current nk r) eqn:E; simpl; rewrite IH.
    + destruct (String.eqb nk nk') eqn:Ek; [|reflexivity].
      apply String.eqb_eq in Ek. subst. congruence.
    + reflexivity.
Qed.

Lemma current_rows_touch nk nk' table :
  length (current_rows nk (touch_current now file_id nk' table))
  = length (current_rows nk table).
Proof.
  unfold current_rows, touch_current.
  induction table as [|r t IH]; simpl; [reflexivity|].
  destruct (where_current nk' r) eqn:E'.
  - unfold where_current at 1. simpl. fold (where_current nk r).
    destruct (where_current nk r); simpl; now rewrite IH.
  - destruct (where_current nk r); simpl; now rewrite IH.
Qed.

Lemma current_rows_insert nk ies terr prog row table :
  length (current_rows nk (insert_current file_id ies terr prog row table))
  = length (current_rows nk table) + (if String.eqb (Df.natural_key row) nk then 1 else 0).
Proof.
  unfold current_rows, insert_current. rewrite List.filter_app, length_app. f_equal.
  simpl. unfold where_current. simpl. rewrite andb_true_r.
  now destruct (String.eqb (Df.natural_key row) nk).
Qed.

Lemma current_rows_nil nk table :
  length (current_rows nk table) = 0 <->
  forall r, r ∈ table -> where_current nk r = false.
Proof.
  unfold current_rows. induction table as [|r t IH]; simpl.
  - split; [intros _ r Hr; inversion Hr|reflexivity].
  - destruct (where_current nk r) eqn:E; simpl.
    + split; [discriminate|]. intros H. specialize (H r ltac:(left)). congruence.
    + rewrite IH. split.
      * intros H r' Hr'. apply elem_of_cons in Hr' as [->|Hr']; auto.
      * intros H r' Hr'. apply H. now right.
Qed.

Lemma lookup_foldl_insert_None {A} (key val : A -> string) (l : list A)
    (m : gmap string string) (k : string) :
  foldl (fun m r => <[key r := val r]> m) m l !! k = None <->
  m !! k = None /\ forall r, r ∈ l -> key r <> k.
Proof.
  revert m. induction l as [|x t IH]; intros m; simpl.
  - split; [intros H; split; [exact H|]; intros r Hr; inversion Hr | tauto].
  - rewrite IH. rewrite lookup_insert_None. split.
    + intros [[Hm Hx] Ht]. split; [exact Hm|].
      intros r Hr. apply elem_of_cons in Hr as [->|Hr]; auto.
    + intros [Hm Hall]. split_and!; [exact Hm | apply Hall; left |].
      intros r Hr. apply Hall. now right.
Qed.

(** A natural key is absent from the dictionary of current hashes exactly
    when the table has no current row for it. *)
Lemma existing_map_of_None table nk :
  existing_map_of table !! nk = None <-> length (current_rows nk table) = 0.
Proof.
  unfold existing_map_of. rewrite lookup_foldl_insert_None, current_rows_nil.
  split.
  - intros [_ H] r Hr. unfold where_current.
    destruct (Fact.is_current r) eqn:Ec; [|apply andb_false_r].
    rewrite andb_true_r. apply String.eqb_neq. apply H.
    apply list_elem_of_filter. split; assumption.
  - intros H. split; [apply lookup_empty|].
    intros r Hr Hk. apply list_elem_of_filter in Hr as [Hc Hr].
    specialize (H r Hr). unfold where_current in H.
    apply String.eqb_eq in Hk. rewrite Hk, Hc in H. discriminate.
Qed.

Variable table0 : list Fact.row.

(** One turn of the loop: the other natural keys keep their current rows, and
    the key of the row keeps at most one if the dictionary agreed with the
    table on it. *)
Lemma scd_row_other st row nk :
  nk <> Df.natural_key row ->
  length (current_rows nk (fact_offer (scd_row now file_id lookups (existing_map_of table0) st row)))
  = length (current_rows nk (fact_offer st)).
Proof.
  intros Hne. unfold scd_row.
  assert (E1 : String.eqb nk (Df.natural_key row) = false) by now apply String.eqb_neq.
  assert (E2 : String.eqb (Df.natural_key row) nk = false)
    by (apply String.eqb_neq; congruence).
  repeat match goal with
         | |- context [match ?x with Some _ => _ | None => _ end] => destruct x
         | |- context [if ?b then _ else _] => destruct b
         end; cbn [fact_offer];
    rewrite ?current_rows_insert, ?current_rows_expire, ?current_rows_touch, ?E1, ?E2; lia.
Qed.

Lemma scd_row_same st row :
  length (current_rows (Df.natural_key row) (fact_offer st))
  = length (current_rows (Df.natural_key row) table0) ->
  length (current_rows (Df.natural_key row) (fact_offer st)) <= 1 ->
  length (current_rows (Df.natural_key row)
            (fact_offer (scd_row now file_id lookups (existing_map_of table0) st row))) <= 1.
Proof.
  intros Hsame Hle. unfold scd_row.
  destruct (ies_lookup lookups !! _) as [ies|]; [|exact Hle].
  destruct (terr_lookup lookups !! _) as [terr|]; [|exact Hle].
  destruct (prog_lookup lookups !! _) as [prog|]; [|exact Hle].
  destruct (_ && _); [|exact Hle].
  destruct (existing_map_of table0 !! Df.natural_key row) as [old|] eqn:Em.
  - destruct (negb (String.eqb old (Df.row_hash row))); cbn [fact_offer].
    + rewrite current_rows_insert, current_rows_expire, !String.eqb_refl. lia.
    + now rewrite current_rows_touch.
  - cbn [fact_offer]. apply existing_map_of_None in Em.
    rewrite current_rows_insert, String.eqb_refl. lia.
Qed.

Lemma scd_loop_invariant (l : list Df.row) (st : scd_state) :
  NoDup (map Df.natural_key l) ->
  at_most_one_current (fact_offer st) ->
  (forall row, row ∈ l ->
     length (current_rows (Df.natural_key row) (fact_offer st))
     = length (current_rows (Df.natural_key row) table0)) ->
  at_most_one_current
    (fact_offer (foldl (scd_row now file_id lookups (existing_map_of table0)) st l)).
Proof.
  revert st. induction l as [|row rest IH]; intros st Hnd Hone Hsame; [exact Hone|].
  simpl. apply NoDup_cons in Hnd as [Hnotin Hnd]. apply IH; [exact Hnd| |].
  - intros nk. destruct (decide (nk = Df.natural_key row)) as [->|Hne].
    + apply scd_row_same; [apply Hsame; left | apply Hone].
    + rewrite scd_row_other by assumption. apply Hone.
  - intros r Hr. rewrite scd_row_other.
    + apply Hsame. now right.
    + intros Heq. apply Hnotin. rewrite <- Heq. apply list_elem_of_fmap. eauto.
Qed.

End ScdFacts.

(** C1.  If the fact table holds at most one current row per natural key
    before the SCD step, it holds at most one current row per natural key
    after it, whatever the batch, the dimension dictionaries and the file:
    inserts, expire-then-insert and touch all preserve the invariant. *)
Theorem scd_fact_current_invariant (now file_id : string) (lookups : dim_lookups)
    (table : list Fact.row) (df : list Df.row) :
  at_most_one_current table ->
  at_most_one_current (fact_offer (scd_fact now file_id lookups table df)).
Proof.
  intros Hone. unfold scd_fact.
  apply scd_loop_invariant; [apply drop_duplicates_last_NoDup | exact Hone | reflexivity].
Qed.

Lemma scd_row_increments now file_id lookups existing_map st row :
  increments_exactly_one (counts st)
    (counts (scd_row now file_id lookups existing_map st row)).
Proof.
  unfold scd_row, increments_exactly_one.
  repeat match goal with
         | |- context [match ?x with Some _ => _ | None => _ end] => destruct x
         | |- context [if ?b then _ else _] => destruct b
         end; cbn [counts]; tauto.
Qed.

Lemma increments_exactly_one_total c c' :
  increments_exactly_one c c' -> counters_total c' = S (counters_total c).
Proof.
  unfold counters_total. intros [-> | [-> | [-> | ->]]]; simpl; lia.
Qed.

Lemma scd_loop_total now file_id lookups existing_map l st :
  counters_total (counts (foldl (scd_row now file_id lookups existing_map) st l))
  = counters_total (counts st) + length l.
Proof.
  revert st. induction l as [|row rest IH]; intros st; simpl; [lia|].
  rewrite IH, (increments_exactly_one_total _ _ (scd_row_increments _ _ _ _ st row)). lia.
Qed.

(** The four increments are different: a counter record is the result of one
    of them at most. *)
Lemma bumps_distinct c :
  NoDup [bump_inserts c; bump_updates c; bump_unchanged c; bump_skipped c].
Proof.
  repeat constructor; rewrite ?elem_of_cons, ?elem_of_nil;
    unfold bump_inserts, bump_updates, bump_unchanged, bump_skipped;
    intros H; repeat destruct H as [H|H]; try (injection H; intros; lia); exact H.
Qed.

(** C2.  The loop runs over the batch with the duplicates of a natural key
    collapsed to its last row: one row per distinct natural key of the batch.
    Each turn of the loop adds one to exactly one of the four counters (the
    four increments give four different records), and after the loop [new + updated + unchanged + skipped_missing_dims] is the
    number of distinct natural keys of the batch. *)
Theorem scd_fact_count_accounting (now file_id : string) (lookups : dim_lookups)
    (table : list Fact.row) (df : list Df.row) :
  let df_fact := drop_duplicates_last df in
  let c := counts (scd_fact now file_id lookups table df) in
  NoDup (map Df.natural_key df_fact)
  /\ (forall nk, nk ∈ map Df.natural_key df_fact <-> nk ∈ map Df.natural_key df)
  /\ (forall row, row ∈ df_fact ->
        last (filter (fun r => Df.natural_key r = Df.natural_key row) df) = Some row)
  /\ (forall st row,
        increments_exactly_one (counts st)
          (counts (scd_row now file_id lookups (existing_map_of table) st row)))
  /\ (forall c0, NoDup [bump_inserts c0; bump_updates c0; bump_unchanged c0; bump_skipped c0])
  /\ inserts_count c + updates_count c + unchanged_count c + skipped_missing_dims c
     = size (list_to_set (map Df.natural_key df) : gset string).
Proof.
  intros df_fact c. split_and!.
  - apply drop_duplicates_last_NoDup.
  - apply drop_duplicates_last_keys.
  - apply drop_duplicates_last_keeps_last.
  - intros st row. apply scd_row_increments.
  - apply bumps_distinct.
  - subst c. unfold scd_fact. rewrite <- drop_duplicates_last_length.
    pose proof (scd_loop_total now file_id lookups (existing_map_of table)
                  (drop_duplicates_last df)
                  {| fact_offer := table;
                     counts := {| inserts_count := 0; updates_count := 0;
                                  unchanged_count := 0; skipped_missing_dims := 0 |} |}) as H.
    unfold counters_total in H. simpl in H. exact H.
Qed.

Example scd_fact_sample_counts :
  counts (scd_fact "2024-05-01" "file-2" sample_lookups sample_table sample_batch)
  = {| inserts_count := 1; updates_count := 1; unchanged_count := 0;
       skipped_missing_dims := 1 |}.
Proof. vm_compute. reflexivity. Qed.

Example scd_fact_sample_table :
  map (fun r => (Fact.natural_key r, Fact.row_hash r, Fact.is_current r))
    (fact_offer (scd_fact "2024-05-01" "file-2" sample_lookups sample_table sample_batch))
  = [ ("k1", "h0", false); ("k1", "h1", false); ("k2", "h7", true); ("k1", "h2", true) ].
Proof. vm_compute. reflexivity. Qed.

(** Running the same batch again touches the two offers and changes no
    current row. *)
Example scd_fact_sample_rerun :
  let table' :=
    fact_offer (scd_fact "2024-05-01" "file-2" sample_lookups sample_table sample_batch) in
  counts (scd_fact "2024-06-01" "file-3" sample_lookups table' sample_batch)
  = {| inserts_count := 0; updates_count := 0; unchanged_count := 2;
       skipped_missing_dims := 1 |}.
Proof. vm_compute. reflexivity. Qed.

Lemma sample_table_one_current : at_most_one_current sample_table.
Proof.
  intros nk. unfold current_rows, sample_table. cbn [List.filter].
  unfold where_current. cbn [Fact.natural_key Fact.is_current].
  rewrite andb_false_r, andb_true_r. destruct (String.eqb "k1" nk); cbn [length]; lia.
Qed.

Lemma scd_fact_current_invariant_witness :
  at_most_one_current sample_table
  /\ at_most_one_current
       (fact_offer (scd_fact "2024-05-01" "file-2" sample_lookups sample_table sample_batch)).
Proof.
  split; [exact sample_table_one_current|].
  apply (scd_fact_current_invariant "2024-05-01" "file-2" sample_lookups sample_table
           sample_batch sample_table_one_current).
Defined.

(** ** The territory checks *)

Lemma select_length_disjoint (a b : list bool) (df : list Df.row) :
  length a = length df -> length b = length df ->
  (forall i, ~ (a !! i = Some true /\ b !! i = Some true)) ->
  length (select (zip_with orb a b) df) = length (select a df) + length (select b df).
Proof.
  revert a b. induction df as [|row df IH]; intros [|x a] [|y b] Ha Hb Hdis;
    try discriminate; [reflexivity|].
  simpl in Ha, Hb. injection Ha as Ha. injection Hb as Hb.
  assert (IH' := IH a b Ha Hb (fun i => Hdis (S i))).
  destruct x, y; simpl; rewrite ?IH'; try lia.
  exfalso. apply (Hdis 0). split; reflexivity.
Qed.

(** C8.  For every batch and every set of valid pairs: a row flagged by the
    invalid-pair check has a province and a canton that are both present and
    non-empty, so it is not flagged by the missing-territory check, and no
    position of the batch is flagged by both; the two metrics count the rows
    each check flags and every flagged row gives one issue of its check, so
    the rows flagged by one check or the other number the sum of the two
    metrics. *)
Theorem territory_checks_exclusive (self : DataQualityChecker) (df : list Df.row) :
  let geo := invalid_geo_mask df in
  let pair := invalid_pairs_mask (dq_valid_pairs self) df in
  let self' := run_territory_checks self df in
  (forall i, pair !! i = Some true ->
     geo !! i = Some false
     /\ exists row p c,
          df !! i = Some row
          /\ Df.provincia_norm row = Some p /\ p <> EmptyString
          /\ Df.canton_norm row = Some c /\ c <> EmptyString)
  /\ (forall i, ~ (geo !! i = Some true /\ pair !! i = Some true))
  /\ metrics self' !! "invalid_territory" = Some (length (select geo df))
  /\ metrics self' !! "invalid_territory_pair"
     = Some (if bool_decide (dq_valid_pairs self <> ∅) then length (select pair df) else 0)
  /\ issues self'
     = issues self ++ map missing_territory_issue (select geo df)
       ++ (if bool_decide (dq_valid_pairs self <> ∅)
           then map invalid_pair_issue (select pair df) else [])
  /\ length (select (zip_with orb geo pair) df)
     = length (select geo df) + length (select pair df).
Proof.
  intros geo pair self'.
  assert (Hflag : forall i, pair !! i = Some true ->
            geo !! i = Some false
            /\ exists row p c,
                 df !! i = Some row
                 /\ Df.provincia_norm row = Some p /\ p <> EmptyString
                 /\ Df.canton_norm row = Some c /\ c <> EmptyString).
  { intros i Hi. subst pair geo.
    unfold invalid_pairs_mask, mask_and_not, invalid_pair_mask, invalid_geo_mask in *.
    apply lookup_zip_with_Some in Hi as (x & y & Hxy & Hx & Hy).
    rewrite list_lookup_fmap in Hx, Hy. rewrite list_lookup_fmap.
    destruct (df !! i) as [row|] eqn:Hrow; [|discriminate].
    simpl in Hx, Hy. injection Hx as <-. injection Hy as <-.
    symmetry in Hxy. apply andb_true_iff in Hxy as [_ Hgeo].
    apply negb_true_iff in Hgeo. simpl. rewrite Hgeo. split; [reflexivity|].
    apply orb_false_iff in Hgeo as [Hp Hc]. unfold isna_or_empty in Hp, Hc.
    destruct (Df.provincia_norm row) as [p|] eqn:Ep; [|discriminate].
    destruct (Df.canton_norm row) as [c|] eqn:Ec; [|discriminate].
    exists row, p, c. apply String.eqb_neq in Hp, Hc. auto 6. }
  assert (Hdis : forall i, ~ (geo !! i = Some true /\ pair !! i = Some true)).
  { intros i [Hg Hp]. apply Hflag in Hp as [Hg' _]. congruence. }
  split_and!; [exact Hflag | exact Hdis | | | |].
  - subst self'. unfold run_territory_checks. case_bool_decide; cbn [metrics];
      rewrite lookup_insert_ne by discriminate; apply lookup_insert_eq.
  - subst self'. unfold run_territory_checks. case_bool_decide; cbn [metrics];
      apply lookup_insert_eq.
  - subst self'. unfold run_territory_checks. case_bool_decide; cbn [issues].
    + now rewrite <- app_assoc.
    + now rewrite app_nil_r.
  - apply select_length_disjoint; [| |exact Hdis].
    + subst geo. unfold invalid_geo_mask. apply length_map.
    + subst pair. unfold invalid_pairs_mask, mask_and_not, invalid_pair_mask, invalid_geo_mask.
      rewrite length_zip_with, !length_map. lia.
Qed.

Example territory_checks_sample :
  let self' := run_territory_checks sample_checker sample_dq_batch in
  metrics self' !! "invalid_territory" = Some 2
  /\ metrics self' !! "invalid_territory_pair" = Some 1
  /\ map (fun i => (issue_type i, issue_natural_key i)) (issues self')
     = [ ("missing_territory_norm", "k3"); ("missing_territory_norm", "k4");
         ("invalid_territory_pair", "k2") ].
Proof. vm_compute. split_and!; reflexivity. Qed.

(** ** Artifact storage *)

Example upload_artifacts_configured :
  Storage.upload_artifacts Storage.configured "file-1" "data/oferta.xlsx" "reports"
  = ([ Storage.create_client "https://x.supabase.co/" "secret";
       Storage.list_buckets;
       Storage.read_bytes "data/oferta.xlsx";
       Storage.upload "etl-artifacts" "sources/file-1/oferta.xlsx"
         "application/vnd.openxmlformats-officedocument.spreadsheetml.sheet";
       Storage.read_bytes "reports/data_quality.json";
       Storage.upload "etl-artifacts" "reports/file-1/data_quality.json" "application/json" ],
     Ok {| Storage.status := "success";
           Storage.paths :=
             [ ("source_file",
                {| Storage.path := "sources/file-1/oferta.xlsx";
                   Storage.url :=
                     Some "https://x.supabase.co/storage/v1/object/public/etl-artifacts/sources/file-1/oferta.xlsx" |});
               ("data_quality_json",
                {| Storage.path := "reports/file-1/data_quality.json";
                   Storage.url :=
                     Some "https://x.supabase.co/storage/v1/object/public/etl-artifacts/reports/file-1/data_quality.json" |}) ] |}).
Proof. vm_compute. reflexivity. Qed.

(** C10.  When the supabase client library is not installed, or
    [SUPABASE_URL] or [SUPABASE_SERVICE_ROLE_KEY] is unset, [upload_artifacts]
    returns the dictionary with status [skipped] and no paths, whatever the
    file id, the source path and the report directory, and makes no call: no
    client is built, no bucket is listed or created, no file is read or
    uploaded. *)
Theorem upload_artifacts_skipped (w : Storage.world) (file_id source_path report_dir : string) :
  Storage.supabase_installed w = false
  \/ Storage.environ w !! "SUPABASE_URL" = None
  \/ Storage.environ w !! "SUPABASE_SERVICE_ROLE_KEY" = None ->
  Storage.get_supabase_client w [] = ([], Some None)
  /\ Storage.upload_artifacts w file_id source_path report_dir
     = ([], Ok {| Storage.status := "skipped"; Storage.paths := [] |}).
Proof.
  intros H.
  assert (Hc : Storage.get_supabase_client w [] = ([], Some None)).
  { unfold Storage.get_supabase_client, Storage.getenv.
    destruct (Storage.supabase_installed w); [|reflexivity]. simpl.
    destruct H as [H | [H | H]]; [discriminate | now rewrite H |].
    rewrite H. now destruct (Storage.environ w !! "SUPABASE_URL"). }
  split; [exact Hc|]. unfold Storage.upload_artifacts. now rewrite Hc.
Qed.

Lemma upload_artifacts_skipped_witness :
  Storage.upload_artifacts Storage.unconfigured "file-1" "data/oferta.xlsx" "reports"
  = ([], Ok {| Storage.status := "skipped"; Storage.paths := [] |}).
Proof.
  apply (upload_artifacts_skipped Storage.unconfigured "file-1" "data/oferta.xlsx" "reports").
  right. left. reflexivity.
Defined.

(** * Further properties *)

(** ** The shape of normalised column names *)

Section ColumnNameShape.
Import Text.

Lemma sall_sub_runs P Q b s :
  Q "_"%char = true -> (forall c, P c = false -> Q c = true) ->
  sall Q (sub_runs P b s) = true.
Proof.
  intros Hu HQ. revert b. induction s as [|c t IH]; intros b; [reflexivity|].
  simpl. destruct (P c) eqn:E.
  - destruct b; [apply IH|]. simpl. now rewrite Hu, IH.
  - simpl. now rewrite (HQ c E), IH.
Qed.

Lemma sall_sub_runs_keep P Q b s :
  Q "_"%char = true -> sall Q s = true -> sall Q (sub_runs P b s) = true.
Proof.
  intros Hu. revert b. induction s as [|c t IH]; intros b; [reflexivity|].
  simpl. rewrite andb_true_iff. intros [Hc Ht].
  destruct (P c); [destruct b|]; simpl; rewrite ?Hu, ?Hc; simpl; auto.
Qed.

(** Inside a run nothing of the class is emitted first; after the
    substitution no two characters of the class are neighbours. *)
Lemma sub_runs_starts P s :
  P "_"%char = true -> starts_in P (sub_runs P true s) = false.
Proof.
  intros Hu. induction s as [|c t IH]; [reflexivity|].
  simpl. destruct (P c) eqn:E; [exact IH|]. simpl. exact E.
Qed.

Lemma sub_runs_no_double P b s :
  P "_"%char = true -> has_double P (sub_runs P b s) = false.
Proof.
  intros Hu. revert b. induction s as [|c t IH]; intros b; [reflexivity|].
  simpl. destruct (P c) eqn:E.
  - destruct b; [apply IH|]. simpl. now rewrite sub_runs_starts, IH, andb_false_r.
  - simpl. now rewrite E, IH.
Qed.

Lemma has_double_lstrip_by P Q s :
  has_double Q s = false -> has_double Q (lstrip_by P s) = false.
Proof.
  induction s as [|c t IH]; [easy|]. simpl.
  intros H. apply orb_false_iff in H as [H1 H2].
  destruct (P c); [auto|]. simpl. now rewrite H1, H2.
Qed.

Lemma starts_in_rstrip_by P Q s :
  starts_in Q s = false -> starts_in Q (rstrip_by P s) = false.
Proof.
  destruct s as [|c t]; [easy|]. simpl. intros H.
  destruct (rstrip_by P t); [destruct (P c)|]; simpl; auto.
Qed.

Lemma has_double_rstrip_by P Q s :
  has_double Q s = false -> has_double Q (rstrip_by P s) = false.
Proof.
  induction s as [|c t IH]; [easy|]. simpl.
  intros H. apply orb_false_iff in H as [H1 H2]. specialize (IH H2).
  destruct (rstrip_by P t) as [|d u] eqn:E.
  - destruct (P c); simpl; [reflexivity|]. now rewrite andb_false_r.
  - simpl. simpl in IH. rewrite IH, orb_false_r.
    destruct (Q c); [|reflexivity]. simpl in *.
    destruct t as [|d' u']; [discriminate|]. simpl in H1.
    simpl in E. destruct (rstrip_by P u'); [destruct (P d'); [discriminate|]|];
      injection E as <- _; exact H1.
Qed.

Lemma lstrip_by_starts P s : starts_in P (lstrip_by P s) = false.
Proof.
  induction s as [|c t IH]; [reflexivity|]. simpl.
  destruct (P c) eqn:E; [exact IH|]. simpl. exact E.
Qed.

Lemma rstrip_by_ends P s : ends_in P (rstrip_by P s) = false.
Proof.
  induction s as [|c t IH]; [reflexivity|]. simpl.
  destruct (rstrip_by P t) as [|d u] eqn:E.
  - destruct (P c) eqn:Ec; simpl; [reflexivity|exact Ec].
  - exact IH.
Qed.

Lemma lstrip_by_fix P s : starts_in P s = false -> lstrip_by P s = s.
Proof. destruct s as [|c t]; [easy|]. simpl. now intros ->. Qed.

Lemma rstrip_by_fix P s : ends_in P s = false -> rstrip_by P s = s.
Proof.
  induction s as [|c t IH]; [easy|]. simpl. destruct t as [|d u].
  - simpl. now intros ->.
  - intros H. now rewrite (IH H).
Qed.

Lemma sub_runs_fix P s :
  has_double P s = false ->
  sall (fun c => negb (P c) || Ascii.eqb c "_") s = true ->
  sub_runs P false s = s.
Proof.
  induction s as [|c t IH]; [easy|]. simpl.
  intros Hd Hall. apply orb_false_iff in Hd as [H1 H2].
  apply andb_true_iff in Hall as [Hc Ht].
  destruct (P c) eqn:E.
  - simpl in Hc. apply Ascii.eqb_eq in Hc. subst c. f_equal.
    simpl in H1. destruct t as [|d u]; [reflexivity|].
    simpl in H1. simpl. rewrite H1. f_equal.
    specialize (IH H2 Ht). simpl in IH. rewrite H1 in IH. now injection IH.
  - f_equal. now apply IH.
Qed.

Variable nfkd_ascii : N -> string.

Lemma column_name_shape (col_name : pyval) :
  let name := normalize_column_name nfkd_ascii col_name in
  sall is_column_char name = true
  /\ starts_in is_underscore name = false
  /\ ends_in is_underscore name = false
  /\ has_double is_underscore name = false.
Proof.
  intros name. subst name. unfold normalize_column_name, strip_by.
  set (x := upper (strip (ascii_fold nfkd_ascii (py_str col_name)))).
  split_and!.
  - apply sall_rstrip_by, sall_lstrip_by, sall_sub_runs_keep; [reflexivity|].
    apply sall_sub_runs; [reflexivity|].
    intros c Hc. unfold not_upper_alnum in Hc. apply negb_false_iff in Hc.
    unfold is_column_char. now rewrite Hc.
  - apply starts_in_rstrip_by, lstrip_by_starts.
  - apply rstrip_by_ends.
  - apply has_double_rstrip_by, has_double_lstrip_by, sub_runs_no_double. reflexivity.
Qed.

(** X1.  Whatever the label, its normalised name is made of capital letters,
    digits and underscores only, neither starts nor ends with an underscore
    and holds no two underscores in a row. *)
Theorem normalize_column_name_shape (col_name : pyval) :
  let name := normalize_column_name nfkd_ascii col_name in
  sall is_column_char name = true
  /\ starts_in is_underscore name = false
  /\ ends_in is_underscore name = false
  /\ has_double is_underscore name = false.
Proof. apply column_name_shape. Qed.

Hypothesis nfkd_ascii_self :
  forall c, (c < 128)%N -> nfkd_ascii c = String (ascii_of_N c) EmptyString.

Lemma column_char_facts c :
  is_column_char c = true ->
  is_ascii c = true /\ isspace c = false /\ upper_char c = c
  /\ (negb (not_upper_alnum c) || Ascii.eqb c "_") = true
  /\ (negb (is_underscore c) || Ascii.eqb c "_") = true.
Proof.
  destruct c as [[] [] [] [] [] [] [] []]; vm_compute; intros H;
    try discriminate H; repeat split; reflexivity.
Qed.

Lemma column_char_class c :
  is_column_char c = true -> not_upper_alnum c = is_underscore c.
Proof.
  destruct c as [[] [] [] [] [] [] [] []]; vm_compute; intros H;
    try discriminate H; reflexivity.
Qed.

Lemma has_double_ext (P Q : ascii -> bool) s :
  sall (fun c => bool_decide (P c = Q c)) s = true -> has_double P s = has_double Q s.
Proof.
  induction s as [|c t IH]; [reflexivity|]. simpl.
  rewrite andb_true_iff. intros [Hc Ht]. apply bool_decide_eq_true in Hc.
  rewrite (IH Ht), Hc. destruct t as [|d u]; [reflexivity|].
  simpl in Ht. apply andb_true_iff in Ht as [Hd _]. apply bool_decide_eq_true in Hd.
  simpl. now rewrite Hd.
Qed.

Lemma sall_not_starts_ends P s :
  sall (fun c => negb (P c)) s = true -> starts_in P s = false /\ ends_in P s = false.
Proof.
  induction s as [|c t IH]; [easy|]. simpl.
  rewrite andb_true_iff, negb_true_iff. intros [Hc Ht].
  split; [exact Hc|]. destruct t; [exact Hc|]. now apply IH.
Qed.

(** X2.  Normalising a normalised column name gives it back. *)
Theorem normalize_column_name_idempotent (col_name : pyval) :
  normalize_column_name nfkd_ascii
    (PStr (to_py (normalize_column_name nfkd_ascii col_name)))
  = normalize_column_name nfkd_ascii col_name.
Proof.
  destruct (column_name_shape col_name) as (Hall & Hs & He & Hd).
  set (n := normalize_column_name nfkd_ascii col_name) in *.
  unfold normalize_column_name at 1. cbn [py_str].
  rewrite (ascii_fold_to_py nfkd_ascii nfkd_ascii_self)
    by (eapply sall_impl; [|exact Hall]; intros c Hc; now apply column_char_facts).
  assert (Hsp : sall (fun c => negb (isspace c)) n = true).
  { eapply sall_impl; [|exact Hall]. intros c Hc.
    apply column_char_facts in Hc as (_ & -> & _). reflexivity. }
  apply sall_not_starts_ends in Hsp as [Hs1 Hs2].
  unfold strip, strip_by. rewrite (lstrip_by_fix isspace n Hs1), (rstrip_by_fix isspace n Hs2).
  assert (Hup : upper n = n).
  { apply smap_fix. eapply sall_impl; [|exact Hall]. intros c Hc.
    apply bool_decide_eq_true. now apply column_char_facts. }
  rewrite Hup.
  assert (H1 : sub_runs not_upper_alnum false n = n).
  { apply sub_runs_fix.
    - rewrite (has_double_ext not_upper_alnum is_underscore); [exact Hd|].
      eapply sall_impl; [|exact Hall]. intros c Hc.
      apply bool_decide_eq_true. now apply column_char_class.
    - eapply sall_impl; [|exact Hall]. intros c Hc. now apply column_char_facts. }
  rewrite H1.
  assert (H2 : sub_runs is_underscore false n = n).
  { apply sub_runs_fix; [exact Hd|].
    eapply sall_impl; [|exact Hall]. intros c Hc. now apply column_char_facts. }
  rewrite H2. now rewrite (lstrip_by_fix _ n Hs), (rstrip_by_fix _ n He).
Qed.

End ColumnNameShape.

Lemma normalize_column_name_idempotent_witness :
  Text.normalize_column_name Text.latin1_nfkd_ascii
    (PStr (to_py (Text.normalize_column_name Text.latin1_nfkd_ascii
                    (PStr (utf8 " Nivel  Formación (2024) ")))))
  = Text.normalize_column_name Text.latin1_nfkd_ascii (PStr (utf8 " Nivel  Formación (2024) ")).
Proof.
  apply (normalize_column_name_idempotent Text.latin1_nfkd_ascii latin1_nfkd_ascii_self).
Defined.

Example normalize_column_name_decorated :
  Text.normalize_column_name Text.latin1_nfkd_ascii (PStr (utf8 " Nivel  Formación (2024) "))
  = "NIVEL_FORMACION_2024".
Proof. vm_compute. reflexivity. Qed.

(** ** When [normalize_columns] succeeds *)

Lemma dict_keys_from_spec seen cols c :
  c ∈ dict_keys_from seen cols <-> c ∈ cols /\ (c ∉ seen \/ c = PNaN).
Proof.
  revert seen. induction cols as [|x t IH]; intros seen; simpl.
  - rewrite elem_of_nil. tauto.
  - case_bool_decide as Hx.
    + rewrite IH, elem_of_cons. split; [tauto|].
      intros [[->|Hc] Hs]; [tauto|tauto].
    + assert (Hx' : x ∉ seen \/ x = PNaN).
      { destruct (decide (x ∈ seen)); [|tauto].
        destruct (decide (x = PNaN)); tauto. }
      rewrite !elem_of_cons, IH, not_elem_of_cons. split.
      * intros [->|[Hc Hs]]; tauto.
      * intros [[->|Hc] Hs]; [tauto|].
        destruct (decide (c = x)) as [->|Hne]; tauto.
Qed.

(** Without nan labels the keys are pairwise different. *)
Lemma dict_keys_from_NoDup seen cols : PNaN ∉ cols -> NoDup (dict_keys_from seen cols).
Proof.
  revert seen. induction cols as [|x t IH]; intros seen Hnan; simpl; [constructor|].
  apply not_elem_of_cons in Hnan as [Hx Hnan].
  case_bool_decide as Hb; [now apply IH|].
  constructor; [|now apply IH]. rewrite dict_keys_from_spec, not_elem_of_cons.
  intros [_ [[? _]|?]]; congruence.
Qed.

Lemma setdefault_append_keys k v d :
  map fst (setdefault_append k v d)
  = if bool_decide (k ∈ map fst d) then map fst d else map fst d ++ [k].
Proof.
  induction d as [|[k0 vs] t IH]; simpl; [reflexivity|].
  destruct (String.eqb k k0) eqn:E.
  - apply String.eqb_eq in E as ->. simpl.
    now rewrite bool_decide_eq_true_2 by left.
  - apply String.eqb_neq in E. simpl. rewrite IH.
    case_bool_decide as H1; case_bool_decide as H2; try reflexivity; exfalso.
    + apply H2. now right.
    + apply elem_of_cons in H2 as [?|?]; [congruence|contradiction].
Qed.

Lemma collisions_keys_NoDup (f : pyval -> string) keys d :
  NoDup (map fst d) ->
  NoDup (map fst (foldl (fun d '(original, norm) => setdefault_append norm original d) d
                    (map (fun c => (c, f c)) keys))).
Proof.
  revert d. induction keys as [|c t IH]; intros d Hd; [exact Hd|].
  simpl. apply IH. rewrite setdefault_append_keys.
  case_bool_decide as Hin; [exact Hd|].
  apply NoDup_app. split_and!; [exact Hd| |repeat constructor; apply not_elem_of_nil].
  intros x Hx Hx'. apply list_elem_of_singleton in Hx'. congruence.
Qed.

Lemma dict_get_of_entry k vs d :
  NoDup (map fst d) -> (k, vs) ∈ d -> dict_get k d = vs.
Proof.
  induction d as [|[k0 vs0] t IH]; intros Hnd Hin; [inversion Hin|].
  simpl in Hnd. apply NoDup_cons in Hnd as [Hk0 Hnd]. simpl.
  apply elem_of_cons in Hin as [Heq|Hin].
  - injection Heq as -> ->. now rewrite String.eqb_refl.
  - destruct (String.eqb k k0) eqn:E; [|now apply IH].
    apply String.eqb_eq in E as ->. exfalso. apply Hk0.
    apply list_elem_of_fmap. exists (k0, vs). split; [reflexivity|assumption].
Qed.

Lemma filter_at_most_one {A} (P : A -> Prop) `{forall x, Decision (P x)} (l : list A) :
  NoDup l -> (forall x y, x ∈ l -> y ∈ l -> P x -> P y -> x = y) ->
  length (filter P l) <= 1.
Proof.
  intros Hnd Hinj.
  destruct (filter P l) as [|x [|y t]] eqn:E; simpl; [lia|lia|].
  exfalso.
  assert (Hnd' : NoDup (filter P l)) by now apply NoDup_filter.
  rewrite E in Hnd'. apply NoDup_cons in Hnd' as [Hx _].
  assert (Hxin : x ∈ filter P l) by (rewrite E; left).
  assert (Hyin : y ∈ filter P l) by (rewrite E; right; left).
  apply list_elem_of_filter in Hxin as [Px Hxl], Hyin as [Py Hyl].
  apply Hx. rewrite (Hinj x y Hxl Hyl Px Py). left.
Qed.

Section NormalizeColumnsFacts.

Variable nfkd_ascii : N -> string.

Lemma normalize_columns_collision df c1 c2 :
  c1 ∈ columns df -> c2 ∈ columns df -> c1 <> c2 ->
  Text.normalize_column_name nfkd_ascii c1 = Text.normalize_column_name nfkd_ascii c2 ->
  exists dupes, normalize_columns nfkd_ascii df = Raise (ValueError_duplicate_columns dupes).
Proof.
  intros H1 H2 Hne Heq. unfold normalize_columns.
  set (f := Text.normalize_column_name nfkd_ascii) in *.
  set (coll := foldl _ [] _).
  assert (Hget : dict_get (f c1) coll
                 = filter (fun c => f c = f c1) (dict_keys (columns df))).
  { unfold coll. now rewrite dict_get_collisions. }
  assert (Hlen : 1 < length (dict_get (f c1) coll)).
  { rewrite Hget. apply (filter_two _ _ c1 c2); auto using elem_of_dict_keys. }
  assert (Hin : (f c1, dict_get (f c1) coll) ∈ filter (fun kv => 1 < length kv.2) coll).
  { apply list_elem_of_filter. split; [exact Hlen|].
    apply dict_get_elem_of. destruct (dict_get (f c1) coll); simpl in Hlen; [lia|discriminate]. }
  destruct (filter (fun kv => 1 < length kv.2) coll) as [|d ds]; [inversion Hin|].
  eauto.
Qed.

(** X3.  On a dataframe none of whose labels is a float nan,
    [normalize_columns] returns a dataframe exactly when no two distinct
    labels normalise to the same name; the dataframe it returns has every
    label replaced by its normalised name, position by position, and the same
    rows.  In the other case it raises the duplicate-columns error. *)
Theorem normalize_columns_ok_iff (df : dataframe) :
  PNaN ∉ columns df ->
  let renamed :=
    {| columns := map (fun c => PStr (to_py (Text.normalize_column_name nfkd_ascii c)))
                    (columns df);
       rows := rows df |} in
  (collision_free nfkd_ascii (columns df) <-> normalize_columns nfkd_ascii df = Ok renamed)
  /\ (forall df', normalize_columns nfkd_ascii df = Ok df' -> df' = renamed)
  /\ (~ collision_free nfkd_ascii (columns df) ->
      exists dupes, normalize_columns nfkd_ascii df = Raise (ValueError_duplicate_columns dupes))
  /\ length (columns renamed) = length (columns df).
Proof.
  intros Hnan renamed.
  assert (Hok : collision_free nfkd_ascii (columns df) ->
                normalize_columns nfkd_ascii df = Ok renamed).
  { intros Hfree. unfold normalize_columns.
    set (f := Text.normalize_column_name nfkd_ascii) in *.
    set (coll := foldl _ [] _).
    assert (Hnil : filter (fun kv => 1 < length kv.2) coll = []).
    { apply filter_empty_iff. intros [k vs] Hin Hlen. simpl in Hlen.
      assert (Hnd : NoDup (map fst coll)).
      { unfold coll. apply collisions_keys_NoDup. constructor. }
      rewrite <- (dict_get_of_entry k vs coll Hnd Hin) in Hlen.
      unfold coll in Hlen. rewrite dict_get_collisions in Hlen. simpl in Hlen.
      pose proof (filter_at_most_one (fun c => f c = k) (dict_keys (columns df))
                    (dict_keys_from_NoDup [] (columns df) Hnan)) as Hle.
      assert (length (filter (fun c => f c = k) (dict_keys (columns df))) <= 1); [|lia].
      apply Hle. intros x y Hx Hy Px Py.
      apply dict_keys_from_spec in Hx as [Hx _], Hy as [Hy _].
      apply Hfree; [assumption..|]. change (f x = f y). congruence. }
    now rewrite Hnil. }
  assert (Hraise : ~ collision_free nfkd_ascii (columns df) ->
            exists dupes,
              normalize_columns nfkd_ascii df = Raise (ValueError_duplicate_columns dupes)).
  { intros Hnot. unfold normalize_columns.
    destruct (filter _ _) as [|d ds] eqn:E; [|eauto].
    exfalso. apply Hnot. intros c1 c2 H1 H2 Heq.
    destruct (decide (c1 = c2)) as [|Hne]; [assumption|].
    destruct (normalize_columns_collision df c1 c2 H1 H2 Hne Heq) as [dupes Hd].
    unfold normalize_columns in Hd. rewrite E in Hd. discriminate. }
  split_and!.
  - split; [exact Hok|]. intros Hres c1 c2 H1 H2 Heq.
    destruct (decide (c1 = c2)) as [|Hne]; [assumption|].
    destruct (normalize_columns_collision df c1 c2 H1 H2 Hne Heq) as [dupes Hd].
    congruence.
  - intros df'. unfold normalize_columns. destruct (filter _ _); [|discriminate].
    now intros [= <-].
  - exact Hraise.
  - simpl. apply length_map.
Qed.

End NormalizeColumnsFacts.

Lemma normalize_columns_ok_iff_witness :
  normalize_columns Text.latin1_nfkd_ascii
    {| columns := [PStr (utf8 "Nombre IES"); PStr (utf8 "Cantón"); PInt 7];
       rows := [[PStr (utf8 "Uni A"); PStr (utf8 "Quito"); PInt 1]] |}
  = Ok {| columns := [PStr (to_py "NOMBRE_IES"); PStr (to_py "CANTON"); PStr (to_py "7")];
          rows := [[PStr (utf8 "Uni A"); PStr (utf8 "Quito"); PInt 1]] |}.
Proof.
  pose proof (normalize_columns_ok_iff Text.latin1_nfkd_ascii
                {| columns := [PStr (utf8 "Nombre IES"); PStr (utf8 "Cantón"); PInt 7];
                   rows := [[PStr (utf8 "Uni A"); PStr (utf8 "Quito"); PInt 1]] |}) as H.
  destruct H as [[H _] _].
  - apply (bool_decide_unpack _). vm_compute. exact I.
  - rewrite H; [vm_compute; reflexivity|].
    intros c1 c2 H1 H2. cbn [columns] in H1, H2.
    repeat (apply elem_of_cons in H1 as [->|H1]);
      repeat (apply elem_of_cons in H2 as [->|H2]);
      try (now apply elem_of_nil in H1); try (now apply elem_of_nil in H2);
      try reflexivity; vm_compute; discriminate.
Defined.

Section LoadExcelResult.

Variable nfkd_ascii : N -> string.
Variable read_excel : string -> header_arg -> result dataframe.

(** X4.  A dataframe returned by [load_excel] has the ten required columns
    among its labels.  It is either the first read with its labels
    normalised, after that read alone; or the third read with its labels
    normalised, after three reads, the third made with the header row that
    [detect_header_row] returned on the second read, the one with
    [header=None]: the first of its first fifty rows whose normalised cells
    cover the required columns.  Whatever the outcome, [load_excel] reads the
    workbook at most three times. *)
Theorem load_excel_result (file_path : string) :
  (forall log df,
      load_excel nfkd_ascii read_excel file_path = (log, Ok df) ->
      missing_cols df = []
      /\ (forall c, c ∈ REQUIRED_COLUMNS -> PStr (to_py c) ∈ columns df)
      /\ ((log = [header_first]
           /\ exists df0,
                read_excel file_path header_first = Ok df0
                /\ normalize_columns nfkd_ascii df0 = Ok df)
          \/ exists df0 df1 df_raw h df2,
               read_excel file_path header_first = Ok df0
               /\ normalize_columns nfkd_ascii df0 = Ok df1
               /\ missing_cols df1 <> []
               /\ read_excel file_path header_none = Ok df_raw
               /\ detect_header_row nfkd_ascii df_raw 50 = Some h
               /\ h < 50
               /\ is_header_row nfkd_ascii df_raw h
               /\ (forall j, j < h -> ~ is_header_row nfkd_ascii df_raw j)
               /\ read_excel file_path (header_at h) = Ok df2
               /\ normalize_columns nfkd_ascii df2 = Ok df
               /\ log = [header_first; header_none; header_at h]))
  /\ length (load_excel nfkd_ascii read_excel file_path).1 <= 3.
Proof.
  assert (Hcols : forall df, missing_cols df = [] ->
            forall c, c ∈ REQUIRED_COLUMNS -> PStr (to_py c) ∈ columns df).
  { intros df Hnil c Hc. unfold missing_cols in Hnil.
    destruct (decide (PStr (to_py c) ∈ columns df)) as [|Hn]; [assumption|].
    exfalso. eapply (filter_nil_not_elem_of _ _ c Hnil); [exact Hn|exact Hc]. }
  unfold load_excel. rewrite bind_read.
  destruct (read_excel file_path header_first) as [df0|e] eqn:E0;
    [|split; [intros ? ? [= ]|simpl; lia]].
  rewrite bind_lift.
  destruct (normalize_columns nfkd_ascii df0) as [df1|e] eqn:E1;
    [|split; [intros ? ? [= ]|simpl; lia]].
  cbv beta iota zeta. destruct (missing_cols df1) as [|m ms] eqn:Em.
  { split; [|simpl; lia]. intros log df [= <- <-].
    split_and!; [exact Em|now apply Hcols|]. left. eauto. }
  rewrite bind_read.
  destruct (read_excel file_path header_none) as [df_raw|e] eqn:Eraw;
    [|split; [intros ? ? [= ]|simpl; lia]].
  destruct (detect_header_row nfkd_ascii df_raw 50) as [h|] eqn:Eh;
    [|split; [intros ? ? [= ]|simpl; lia]].
  pose proof (proj1 (detect_header_row_Some nfkd_ascii df_raw 50 h) Eh) as (Hlt & Hrow & Hmin).
  cbv beta iota. rewrite bind_read.
  destruct (read_excel file_path (header_at h)) as [df2|e] eqn:E2;
    [|split; [intros ? ? [= ]|simpl; lia]].
  rewrite bind_lift.
  destruct (normalize_columns nfkd_ascii df2) as [df3|e] eqn:E3;
    [|split; [intros ? ? [= ]|simpl; lia]].
  destruct (missing_cols df3) as [|m' ms'] eqn:Em'; [|split; [intros ? ? [= ]|simpl; lia]].
  split; [|simpl; lia]. intros log df [= <- <-].
  split_and!; [exact Em'|now apply Hcols|]. right.
  exists df0, df1, df_raw, h, df2.
  split_and!; try assumption; try reflexivity; [rewrite Em; discriminate|lia].
Qed.

End LoadExcelResult.

Lemma load_excel_result_witness :
  exists df,
    load_excel Text.latin1_nfkd_ascii (sheet_reader decorated_sheet) "oferta.xlsx"
    = ([header_first; header_none; header_at 1], Ok df)
    /\ missing_cols df = [].
Proof.
  pose proof (proj1 (load_excel_result Text.latin1_nfkd_ascii (sheet_reader decorated_sheet)
                       "oferta.xlsx")) as H.
  destruct (load_excel Text.latin1_nfkd_ascii (sheet_reader decorated_sheet) "oferta.xlsx")
    as [log [df|e]] eqn:E.
  - exists df. destruct (H log df eq_refl) as (Hm & _ & _). split; [|exact Hm].
    vm_compute in E. injection E as <- _. reflexivity.
  - vm_compute in E. discriminate E.
Defined.

(** ** Natural keys *)

Lemma py_split_on_cons sep s : exists p ps, py_split_on sep s = p :: ps.
Proof.
  induction s as [|c t (p & ps & IH)]; simpl; [eauto|].
  destruct (c =? sep)%N; [eauto|]. rewrite IH. eauto.
Qed.

Lemma py_split_on_part sep p :
  sep ∉ p -> py_split_on sep p = [p].
Proof.
  induction p as [|c t IH]; intros Hn; [reflexivity|].
  simpl. rewrite not_elem_of_cons in Hn. destruct Hn as [Hc Ht].
  assert (E : (c =? sep)%N = false) by (apply N.eqb_neq; congruence).
  now rewrite E, (IH Ht).
Qed.

Lemma py_split_on_app sep p rest :
  sep ∉ p -> py_split_on sep (p ++ sep :: rest) = p :: py_split_on sep rest.
Proof.
  induction p as [|c t IH]; intros Hn.
  - simpl. now rewrite N.eqb_refl.
  - rewrite not_elem_of_cons in Hn. destruct Hn as [Hc Ht].
    assert (E : (c =? sep)%N = false) by (apply N.eqb_neq; congruence).
    simpl. now rewrite E, (IH Ht).
Qed.

(** Splitting a join gives the parts back, as long as there is a part and no
    part holds the separator. *)
Lemma py_split_on_join sep parts :
  parts <> [] -> (forall p, p ∈ parts -> sep ∉ p) ->
  py_split_on sep (py_join sep parts) = parts.
Proof.
  induction parts as [|p rest IH]; intros Hne Hall; [congruence|].
  destruct rest as [|q rest'].
  - simpl. apply py_split_on_part, Hall. left.
  - change (py_join sep (p :: q :: rest')) with (p ++ sep :: py_join sep (q :: rest')).
    rewrite py_split_on_app by (apply Hall; left).
    rewrite IH; [reflexivity|discriminate|]. intros x Hx. apply Hall. now right.
Qed.

Lemma count_py_join sep parts :
  (forall p, p ∈ parts -> sep ∉ p) ->
  length (filter (fun c => c = sep) (py_join sep parts)) = pred (length parts).
Proof.
  unfold pystr in *.
  induction parts as [|p rest IH]; intros Hall; [reflexivity|].
  assert (Hp : filter (fun c => c = sep) p = []).
  { apply filter_empty_iff. intros x Hx ->. now apply (Hall p ltac:(left)). }
  destruct rest as [|q rest'].
  - simpl. now rewrite Hp.
  - change (py_join sep (p :: q :: rest')) with (p ++ sep :: py_join sep (q :: rest')).
    rewrite filter_app, Hp, filter_cons_True by reflexivity.
    cbn [app length]. rewrite IH; [reflexivity|]. intros x Hx. apply Hall. now right.
Qed.

(** X5.  A natural key has seven slots in a fixed order: when no part holds
    the separator, the key holds six separators and splitting it on the
    separator gives the seven parts back, a missing or [None] or [nan] column
    as the empty part.  Two rows with such parts and the same key therefore
    have the same parts. *)
Theorem generate_natural_key_slots (row : gmap string pyval) :
  (forall p, p ∈ natural_key_parts row -> pipe ∉ p) ->
  py_split_on pipe (generate_natural_key row) = natural_key_parts row
  /\ length (filter (fun c => c = pipe) (generate_natural_key row)) = 6
  /\ (forall column, column ∈ [ "nombre_norm"; "carrera_norm"; "campo_amplio_norm";
                               "nivel_formacion_norm"; "modalidad_norm";
                               "provincia_norm"; "canton_norm" ] ->
        row !! column = None \/ row !! column = Some PNone \/ row !! column = Some PNaN ->
        safe_key_part (row_get row column) = [])
  /\ (forall row' : gmap string pyval,
        (forall p, p ∈ natural_key_parts row' -> pipe ∉ p) ->
        generate_natural_key row' = generate_natural_key row ->
        natural_key_parts row' = natural_key_parts row).
Proof.
  intros Hfree. unfold generate_natural_key. split_and!.
  - apply py_split_on_join; [discriminate|exact Hfree].
  - now rewrite count_py_join.
  - intros column _ [H | [H | H]]; unfold row_get; rewrite H; reflexivity.
  - intros row' Hfree' Heq.
    rewrite <- (py_split_on_join pipe (natural_key_parts row')) by (discriminate || exact Hfree').
    rewrite Heq. apply py_split_on_join; [discriminate|exact Hfree].
Qed.

Lemma generate_natural_key_slots_witness :
  py_split_on pipe (generate_natural_key test_key_row)
  = map utf8 ["uni a"; "sistemas"; "tecnologias"; "grado"; "presencial"; "pichincha"; "quito"].
Proof.
  destruct (generate_natural_key_slots test_key_row) as (Hsplit & _).
  - apply Forall_forall. vm_compute.
    repeat (constructor; [intros H; repeat (apply elem_of_cons in H as [H|H]; [discriminate H|]);
                          inversion H|]).
    constructor.
  - rewrite Hsplit. vm_compute. reflexivity.
Defined.

(** A separator inside a part makes the keys of different rows meet. *)
Example generate_natural_key_pipe :
  generate_natural_key pipe_row_1 = generate_natural_key pipe_row_2
  /\ natural_key_parts pipe_row_1 <> natural_key_parts pipe_row_2.
Proof. split; [vm_compute; reflexivity | vm_compute; discriminate]. Qed.

(** ** Normalised values *)

Section ValueFacts.
Import Text.

Lemma smap_app f a b : smap f (a +:+ b) = smap f a +:+ smap f b.
Proof.
  induction a as [|c a IH]; [reflexivity|].
  change (String c a +:+ b) with (String c (a +:+ b)). simpl.
  change (String (f c) (smap f a) +:+ smap f b) with (String (f c) (smap f a +:+ smap f b)).
  now rewrite IH.
Qed.

Lemma isspace_squash_char c :
  isspace (if isspace c then " "%char else c) = isspace c.
Proof. destruct (isspace c) eqn:E; [reflexivity|exact E]. Qed.

(** Which whitespace separates the words does not matter to [split], and
    neither does whitespace at the two ends. *)
Lemma split_squash x : split (squash x) = split x.
Proof.
  unfold squash. induction x as [|c t IH]; [reflexivity|].
  cbn [smap split]. rewrite isspace_squash_char.
  destruct (isspace c) eqn:Ec; [exact IH|].
  destruct t as [|d u]; [reflexivity|].
  cbn [smap] in *. rewrite isspace_squash_char.
  destruct (isspace d) eqn:Ed; rewrite IH; reflexivity.
Qed.

Lemma split_lstrip x : split (lstrip_by isspace x) = split x.
Proof.
  induction x as [|c t IH]; [reflexivity|].
  cbn [lstrip_by]. destruct (isspace c) eqn:Ec; [|reflexivity].
  rewrite IH. cbn [split]. now rewrite Ec.
Qed.

Lemma rstrip_by_head P c t d u :
  rstrip_by P (String c t) = String d u -> d = c.
Proof.
  cbn [rstrip_by]. destruct (rstrip_by P t); [destruct (P c)|]; congruence.
Qed.

Lemma split_all_space x : rstrip_by isspace x = EmptyString -> split x = [].
Proof.
  induction x as [|c t IH]; [reflexivity|].
  cbn [rstrip_by]. destruct (rstrip_by isspace t) eqn:E; [|discriminate].
  destruct (isspace c) eqn:Ec; [|discriminate].
  intros _. cbn [split]. rewrite Ec. now apply IH.
Qed.

Lemma split_unfold c d u :
  split (String c (String d u))
  = if isspace c then split (String d u)
    else if isspace d then String c EmptyString :: split (String d u)
         else match split (String d u) with
              | w :: ws => String c w :: ws
              | [] => [String c EmptyString]
              end.
Proof. reflexivity. Qed.

Lemma split_rstrip x : split (rstrip_by isspace x) = split x.
Proof.
  induction x as [|c t IH]; [reflexivity|].
  cbn [rstrip_by]. destruct (rstrip_by isspace t) as [|d u] eqn:E.
  - pose proof (split_all_space t E) as Ht.
    destruct (isspace c) eqn:Ec.
    + cbn [split]. now rewrite Ec, Ht.
    + cbn [split]. rewrite Ec. destruct t as [|d' u']; [reflexivity|].
      rewrite Ht. destruct (isspace d'); reflexivity.
  - destruct t as [|d' u']; [discriminate E|].
    pose proof (rstrip_by_head _ _ _ _ _ E) as ->.
    rewrite !(split_unfold c). rewrite IH. reflexivity.
Qed.

Lemma split_strip x : split (strip x) = split x.
Proof. unfold strip, strip_by. now rewrite split_rstrip, split_lstrip. Qed.

Lemma py_isspace_ascii c :
  is_ascii c = true -> py_isspace (N_of_ascii c) = isspace c.
Proof.
  destruct c as [[] [] [] [] [] [] [] []]; vm_compute; intros H;
    try discriminate H; reflexivity.
Qed.

Lemma to_py_cons c t : to_py (String c t) = N_of_ascii c :: to_py t.
Proof. reflexivity. Qed.

Lemma py_lstrip_to_py s :
  sall is_ascii s = true -> py_lstrip (to_py s) = to_py (lstrip_by isspace s).
Proof.
  induction s as [|c t IH]; [reflexivity|]. cbn [sall].
  rewrite andb_true_iff. intros [Hc Ht].
  rewrite to_py_cons. cbn [py_lstrip lstrip_by]. rewrite (py_isspace_ascii c Hc).
  destruct (isspace c); [now apply IH|reflexivity].
Qed.

Lemma py_rstrip_to_py s :
  sall is_ascii s = true -> py_rstrip (to_py s) = to_py (rstrip_by isspace s).
Proof.
  induction s as [|c t IH]; [reflexivity|]. cbn [sall].
  rewrite andb_true_iff. intros [Hc Ht].
  rewrite to_py_cons. cbn [py_rstrip rstrip_by]. rewrite (IH Ht), (py_isspace_ascii c Hc).
  destruct (rstrip_by isspace t); [destruct (isspace c)|]; reflexivity.
Qed.

Lemma py_strip_to_py s :
  sall is_ascii s = true -> py_strip (to_py s) = to_py (strip s).
Proof.
  intros H. unfold py_strip, strip, strip_by.
  rewrite py_lstrip_to_py by assumption.
  apply py_rstrip_to_py. now apply sall_lstrip_by.
Qed.

Variable nfkd_ascii : N -> string.
Hypothesis nfkd_ascii_self :
  forall c, (c < 128)%N -> nfkd_ascii c = String (ascii_of_N c) EmptyString.
Hypothesis nfkd_ascii_range :
  forall c, sall is_ascii (nfkd_ascii c) = true.
(** U+00A0, NO-BREAK SPACE, has the compatibility decomposition U+0020. *)
Hypothesis nfkd_ascii_nbsp : nfkd_ascii 160 = " ".

Lemma ascii_fold_cons c t :
  ascii_fold nfkd_ascii (c :: t) = nfkd_ascii c +:+ ascii_fold nfkd_ascii t.
Proof. unfold ascii_fold. cbn [map]. apply concat_empty_cons. Qed.

Lemma ascii_fold_replace s :
  squash (lower (ascii_fold nfkd_ascii (py_replace 9 32 (py_replace 160 32 s))))
  = squash (lower (ascii_fold nfkd_ascii s)).
Proof.
  unfold py_replace, squash, lower. induction s as [|c t IH]; [reflexivity|].
  cbn [map]. rewrite !ascii_fold_cons, !smap_app, IH. f_equal.
  destruct (c =? 160)%N eqn:E160.
  - apply N.eqb_eq in E160. subst c. cbn [N.eqb Pos.eqb].
    rewrite nfkd_ascii_nbsp, nfkd_ascii_self by reflexivity. reflexivity.
  - destruct (c =? 9)%N eqn:E9; [|reflexivity].
    apply N.eqb_eq in E9. subst c.
    rewrite !nfkd_ascii_self by reflexivity. reflexivity.
Qed.

Lemma normalize_text_replace s :
  normalize_text nfkd_ascii (PStr (py_replace 9 32 (py_replace 160 32 s)))
  = normalize_text nfkd_ascii (PStr s).
Proof.
  cbn [normalize_text]. f_equal.
  rewrite !split_strip, <- split_squash, ascii_fold_replace. apply split_squash.
Qed.

(** X6.  [normalize_value] gives [None] for [None], [nan] and the empty text
    and for nothing else; for every other value it gives the normalisation by
    [GeoMatcher.normalize_text] of the value's text: replacing no-break
    spaces and tabs beforehand changes nothing.  A text made of whitespace
    only is therefore normalised to the empty text, not to [None]. *)
Theorem normalize_value_spec (value : pyval) :
  (normalize_value nfkd_ascii value = None <->
   value = PNone \/ value = PNaN \/ value = PStr [])
  /\ (normalize_value nfkd_ascii value <> None ->
      normalize_value nfkd_ascii value
      = Some (normalize_text nfkd_ascii (PStr (py_str value))))
  /\ (forall s, s <> [] -> forallb py_isspace s = true ->
      (forall c, c ∈ s -> (c < 128)%N) ->
      normalize_value nfkd_ascii (PStr s) = Some EmptyString).
Proof.
  split_and!.
  - destruct value as [| |z|[|c s]]; simpl; split;
      try tauto; try discriminate; intros [H|[H|H]]; discriminate.
  - destruct value as [| |z|[|c s]]; intros Hn; try (now contradiction Hn);
      unfold normalize_value; now rewrite normalize_text_replace.
  - intros s Hne Hsp Hasc. destruct s as [|c t]; [congruence|].
    unfold normalize_value. rewrite normalize_text_replace. f_equal.
    cbn [normalize_text py_str]. rewrite split_strip.
    assert (Hall : forall l : pystr, forallb py_isspace l = true ->
              (forall c, c ∈ l -> (c < 128)%N) ->
              split (lower (ascii_fold nfkd_ascii l)) = []).
    { clear Hne Hsp Hasc. intros l.
      induction l as [|x l IH]; intros Hsp Hasc; [reflexivity|].
      cbn [forallb] in Hsp. apply andb_true_iff in Hsp as [Hx Hl].
      rewrite ascii_fold_cons, nfkd_ascii_self by (apply Hasc; left).
      change (String (ascii_of_N x) EmptyString +:+ ascii_fold nfkd_ascii l)
        with (String (ascii_of_N x) (ascii_fold nfkd_ascii l)).
      unfold lower. cbn [smap split].
      assert (Hlt : (x < 128)%N) by (apply Hasc; left).
      assert (Hs : isspace (lower_char (ascii_of_N x)) = true).
      { rewrite <- (N_ascii_embedding x) in Hx by lia.
        assert (Ha : is_ascii (ascii_of_N x) = true).
        { unfold is_ascii. rewrite N_ascii_embedding by lia. now apply N.ltb_lt. }
        rewrite (py_isspace_ascii _ Ha) in Hx. revert Hx.
        generalize (ascii_of_N x). intros a.
        destruct a as [[] [] [] [] [] [] [] []]; vm_compute; congruence. }
      rewrite Hs. apply IH; [exact Hl|]. intros y Hy. apply Hasc. now right. }
    now rewrite (Hall (c :: t) Hsp Hasc).
Qed.

(** X7.  A value normalised by [normalize_value] enters a natural key as it
    is, and a missing one as the empty part: [safe_key_part] has nothing left
    to trim. *)
Theorem safe_key_part_normalized (value : pyval) :
  safe_key_part (cell_of (normalize_value nfkd_ascii value))
  = default [] (to_py <$> normalize_value nfkd_ascii value).
Proof.
  destruct (normalize_value nfkd_ascii value) as [s|] eqn:E; [|reflexivity].
  assert (Hs : exists v, s = normalize_text nfkd_ascii v).
  { destruct value as [| |z|[|c t]]; try discriminate E.
    - exists (PStr (py_replace 9 32 (py_replace 160 32 (py_str (PInt z))))).
      injection E as <-. reflexivity.
    - exists (PStr (py_replace 9 32 (py_replace 160 32 (py_str (PStr (c :: t)))))).
      injection E as <-. reflexivity. }
  destruct Hs as [v ->].
  destruct (normalize_text_shape nfkd_ascii nfkd_ascii_range v) as (ws & Hn & Hws & Hasc & _).
  cbn [cell_of fmap option_fmap option_map default].
  assert (Hpart : forall s : string, safe_key_part (PStr (to_py s)) = py_strip (to_py s)).
  { intros s. unfold safe_key_part. reflexivity. }
  rewrite Hpart, Hn, py_strip_to_py by exact Hasc. now rewrite strip_join.
Qed.

End ValueFacts.

Lemma latin1_nfkd_ascii_nbsp : Text.latin1_nfkd_ascii 160 = " ".
Proof. reflexivity. Qed.

Lemma normalize_value_spec_witness :
  normalize_value Text.latin1_nfkd_ascii (PStr [160; 9; 32]%N) = Some EmptyString
  /\ normalize_value Text.latin1_nfkd_ascii (PStr (utf8 "  Ingeniería	Civil "))
     = Some "ingenieria civil".
Proof.
  destruct (normalize_value_spec Text.latin1_nfkd_ascii latin1_nfkd_ascii_self
              latin1_nfkd_ascii_nbsp (PStr (utf8 "  Ingeniería	Civil "))) as (_ & Hsome & _).
  split; [vm_compute; reflexivity|].
  rewrite Hsome by discriminate. vm_compute. reflexivity.
Defined.

Lemma safe_key_part_normalized_witness :
  safe_key_part (cell_of (normalize_value Text.latin1_nfkd_ascii (PStr (utf8 " Quito "))))
  = utf8 "quito".
Proof.
  rewrite (safe_key_part_normalized Text.latin1_nfkd_ascii latin1_nfkd_ascii_range).
  vm_compute. reflexivity.
Defined.

(** ** The catalog and the soundness of matches *)

Lemma unique_from_spec seen l x :
  x ∈ unique_from seen l <-> x ∈ l /\ x ∉ seen.
Proof.
  revert seen. induction l as [|y t IH]; intros seen; simpl.
  - rewrite elem_of_nil. tauto.
  - case_bool_decide as Hy.
    + rewrite IH, elem_of_cons. split; [tauto|].
      intros [[->|Hx] Hs]; [contradiction|tauto].
    + rewrite !elem_of_cons, IH, elem_of_cons. split.
      * intros [->|[Hx Hs]]; tauto.
      * intros [[->|Hx] Hs]; [tauto|].
        destruct (decide (x = y)) as [->|Hne]; tauto.
Qed.

Lemma unique_from_NoDup seen l : NoDup (unique_from seen l).
Proof.
  revert seen. induction l as [|y t IH]; intros seen; simpl; [constructor|].
  case_bool_decide as Hy; [apply IH|].
  constructor; [|apply IH]. rewrite unique_from_spec, elem_of_cons. tauto.
Qed.

Lemma cantons_foldl (pairs : list (string * string)) (d : gmap string (list string)) p :
  default [] (foldl (fun d pc => <[pc.1 := default [] (d !! pc.1) ++ [pc.2]]> d) d pairs !! p)
  = default [] (d !! p) ++ map snd (filter (fun pc => pc.1 = p) pairs).
Proof.
  revert d. induction pairs as [|[p0 c0] t IH]; intros d; simpl.
  - now rewrite app_nil_r.
  - rewrite IH, filter_cons. simpl. destruct (decide (p0 = p)) as [->|Hne].
    + rewrite lookup_insert_eq. simpl. now rewrite <- app_assoc.
    + now rewrite lookup_insert_ne.
Qed.

Lemma cantons_foldl_dom (pairs : list (string * string)) (d : gmap string (list string)) p :
  is_Some (foldl (fun d pc => <[pc.1 := default [] (d !! pc.1) ++ [pc.2]]> d) d pairs !! p)
  <-> is_Some (d !! p) \/ p ∈ map fst pairs.
Proof.
  revert d. induction pairs as [|[p0 c0] t IH]; intros d; simpl.
  - rewrite elem_of_nil. tauto.
  - rewrite IH, elem_of_cons. destruct (decide (p0 = p)) as [->|Hne].
    + rewrite lookup_insert_eq. split; [tauto|]. intros _. left. eauto.
    + rewrite lookup_insert_ne by assumption. split; [tauto|].
      intros [H|[H|H]]; [tauto|congruence|tauto].
Qed.

Section CatalogFacts.

Variable nfkd_ascii : N -> string.

(** The three views of a matcher built from the pairs of a catalog. *)
Lemma matcher_of_pairs_views (pairs : list (string * string)) :
  let m := matcher_of_pairs pairs in
  NoDup (provinces m)
  /\ (forall p, p ∈ provinces m <-> exists c, (p, c) ∈ pairs)
  /\ (forall p, default [] (cantons_by_prov m !! p)
                = map snd (filter (fun pc => pc.1 = p) pairs))
  /\ (forall p, is_Some (cantons_by_prov m !! p) <-> p ∈ provinces m)
  /\ (forall p c, (p, c) ∈ valid_pairs m <-> (p, c) ∈ pairs)
  /\ (forall p c, c ∈ default [] (cantons_by_prov m !! p) <-> (p, c) ∈ valid_pairs m).
Proof.
  intros m. subst m. unfold matcher_of_pairs. cbn [provinces cantons_by_prov valid_pairs].
  assert (Hprov : forall p, p ∈ unique_from [] (map fst pairs) <-> exists c, (p, c) ∈ pairs).
  { intros p. rewrite unique_from_spec. split.
    - intros [Hin _]. apply list_elem_of_fmap in Hin as ([p' c] & -> & Hin). eauto.
    - intros [c Hc]. split; [|apply not_elem_of_nil].
      apply list_elem_of_fmap. exists (p, c). eauto. }
  assert (Hcant : forall p,
            default [] (foldl (fun d pc => <[pc.1 := default [] (d !! pc.1) ++ [pc.2]]> d)
                          (∅ : gmap string (list string)) pairs !! p)
            = map snd (filter (fun pc => pc.1 = p) pairs)).
  { intros p. rewrite cantons_foldl, lookup_empty. reflexivity. }
  split_and!.
  - apply unique_from_NoDup.
  - exact Hprov.
  - exact Hcant.
  - intros p. rewrite cantons_foldl_dom, lookup_empty, unique_from_spec.
    split; [intros [[? H]|H]; [discriminate|]; split; [exact H|apply not_elem_of_nil]|tauto].
  - intros p c. apply elem_of_list_to_set.
  - intros p c. rewrite Hcant, elem_of_list_to_set. split.
    + intros Hin. apply list_elem_of_fmap in Hin as ([p' c'] & -> & Hin).
      apply list_elem_of_filter in Hin as [Hp Hin]. simpl in Hp. now subst.
    + intros Hin. apply list_elem_of_fmap. exists (p, c). split; [reflexivity|].
      apply list_elem_of_filter. split; [reflexivity|assumption].
Qed.

Lemma load_catalog_loaded (file : catalog_file) (pairs : list (string * string)) :
  catalog (load_catalog nfkd_ascii file) = Some pairs ->
  load_catalog nfkd_ascii file = matcher_of_pairs pairs.
Proof.
  destruct file as [|ps|ps|]; simpl; try discriminate; now intros [= <-].
Qed.

(** X8.  After [load_catalog] has loaded a catalog, its three views agree:
    the provinces are the distinct provinces of the catalog, each once; the
    canton list of a province holds the cantons of its rows, in order, and a
    province has a list exactly when it is a province of the catalog; and a
    canton is in the list of a province exactly when the pair is valid.
    Without a catalog all three are empty. *)
Theorem load_catalog_consistent (file : catalog_file) :
  let self := load_catalog nfkd_ascii file in
  (forall pairs, catalog self = Some pairs ->
     NoDup (provinces self)
     /\ (forall p, p ∈ provinces self <-> exists c, (p, c) ∈ pairs)
     /\ (forall p, default [] (cantons_by_prov self !! p)
                   = map snd (filter (fun pc => pc.1 = p) pairs))
     /\ (forall p, is_Some (cantons_by_prov self !! p) <-> p ∈ provinces self)
     /\ (forall p c, (p, c) ∈ valid_pairs self <-> (p, c) ∈ pairs)
     /\ (forall p c, c ∈ default [] (cantons_by_prov self !! p) <-> (p, c) ∈ valid_pairs self))
  /\ (catalog self = None ->
      provinces self = [] /\ cantons_by_prov self = ∅ /\ valid_pairs self = ∅)
  /\ (catalog self = None <-> file = catalog_absent \/ file = catalog_unusable).
Proof.
  intros self. split_and!.
  - intros pairs Hcat. subst self. rewrite (load_catalog_loaded file pairs Hcat).
    apply matcher_of_pairs_views.
  - subst self. destruct file; simpl; try discriminate; auto.
  - subst self. destruct file; simpl; split; try discriminate; try tauto;
      intros [H|H]; discriminate.
Qed.

(** [Fuzz.extractOne] returns one of the choices. *)
Lemma Fuzz_best_of_choice query choices best0 best score :
  Fuzz.best_of query choices best0 = Some (best, score) ->
  best ∈ choices \/ best0 = Some (best, score).
Proof.
  revert best0. induction choices as [|c rest IH]; intros best0; simpl; [tauto|].
  destruct best0 as [[b s]|].
  - destruct (Qlt_le_dec s (Fuzz.ratio query c)); intros H; apply IH in H as [H|H].
    + left. now right.
    + injection H as <- _. left. left.
    + left. now right.
    + tauto.
  - intros H. apply IH in H as [H|H]; [left; now right|].
    injection H as <- _. left. left.
Qed.

Lemma Fuzz_extractOne_choice : returns_a_choice Fuzz.extractOne.
Proof.
  intros query choices best score H. unfold Fuzz.extractOne in H.
  apply Fuzz_best_of_choice in H as [H|H]; [assumption|discriminate].
Qed.

Variable extractOne : string -> list string -> option (string * Q).

Ltac shape_done :=
  cbn; unfold is_Some; split_and!; try split; intros;
  repeat match goal with
         | H : _ \/ _ |- _ => destruct H
         | H : _ /\ _ |- _ => destruct H
         | H : exists _, _ |- _ => destruct H
         end;
  try discriminate; try congruence; eauto.

(** X9.  The shape of every answer of [match_territory]: the method is
    [no_catalog] exactly when no catalog is loaded; with [no_catalog] and
    [failed_prov] both names are [None] and both scores 0; with
    [failed_canton] there is a province, no canton, and the canton score is
    0; both names are present exactly with [exact] and [fuzzy].  A canton is
    never returned without a province. *)
Theorem match_territory_shape (self : GeoMatcher) (provincia_input canton_input : pyval)
    (threshold : Q) :
  let result := match_territory nfkd_ascii extractOne self provincia_input canton_input
                  threshold in
  let p := result.1.1.1.1 in
  let c := result.1.1.1.2 in
  let method := result.2 in
  (method = no_catalog <-> catalog self = None)
  /\ (method = no_catalog \/ method = failed_prov ->
      result = (None, None, 0%Q, 0%Q, method))
  /\ (method = failed_canton ->
      exists prov score, result = (Some prov, None, score, 0%Q, failed_canton))
  /\ (method = exact \/ method = fuzzy <-> is_Some p /\ is_Some c)
  /\ (is_Some c -> is_Some p).
Proof.
  intros result p c method. subst p c method result. unfold match_territory.
  destruct (catalog self) as [pairs|]; [|shape_done].
  cbv beta iota zeta.
  destruct (if bool_decide (_ ∈ provinces self) then _ else _) as [[mp sp]|]; [|shape_done].
  destruct (if bool_decide (_ ∈ default [] _) then _ else _) as [[mc sc]|]; [|shape_done].
  destruct (Qeq_bool sp 100 && Qeq_bool sc 100); shape_done.
Qed.

Lemma match_territory_members (file : catalog_file) (provincia_input canton_input : pyval)
    (threshold : Q) :
  returns_a_choice extractOne ->
  let self := load_catalog nfkd_ascii file in
  let result := match_territory nfkd_ascii extractOne self provincia_input canton_input
                  threshold in
  (forall prov c score_prov score_canton method,
      result = (Some prov, c, score_prov, score_canton, method) ->
      prov ∈ provinces self
      /\ ((threshold <= 100)%Q -> (threshold <= score_prov)%Q))
  /\ (forall prov canton score_prov score_canton method,
        result = (Some prov, Some canton, score_prov, score_canton, method) ->
        (prov, canton) ∈ valid_pairs self
        /\ ((threshold <= 100)%Q -> (threshold <= score_canton)%Q)).
Proof.
  intros Hchoice self result.
  assert (Hname : forall name candidates m s,
            (if bool_decide (name ∈ candidates) then Some (name, 100%Q)
             else match extractOne name candidates with
                  | Some (best, score) =>
                      if Qle_bool threshold score then Some (best, score) else None
                  | None => None
                  end) = Some (m, s) ->
            m ∈ candidates /\ ((threshold <= 100)%Q -> (threshold <= s)%Q)).
  { intros name candidates m s. case_bool_decide as Hin.
    - intros [= <- <-]. tauto.
    - destruct (extractOne name candidates) as [[best score]|] eqn:E; [|discriminate].
      destruct (Qle_bool threshold score) eqn:El; [|discriminate].
      intros [= <- <-]. split; [eapply Hchoice; exact E|].
      intros _. now apply Qle_bool_iff. }
  subst result. unfold match_territory.
  destruct (catalog self) as [pairs|] eqn:Hcat; [|split; intros; discriminate].
  assert (Hvalid : forall p c,
            c ∈ default [] (cantons_by_prov self !! p) <-> (p, c) ∈ valid_pairs self).
  { subst self. rewrite (load_catalog_loaded file pairs Hcat).
    apply matcher_of_pairs_views. }
  cbv beta iota zeta.
  destruct (if bool_decide (_ ∈ provinces self) then _ else _) as [[mp sp]|] eqn:Ep;
    [|split; intros; discriminate].
  apply Hname in Ep as [Hp Hsp].
  destruct (if bool_decide (_ ∈ default [] _) then _ else _) as [[mc sc]|] eqn:Ec.
  - apply Hname in Ec as [Hc Hsc]. split.
    + intros prov c s1 s2 meth [= <- _ <- _ _]. tauto.
    + intros prov canton s1 s2 meth [= <- <- _ <- _]. split; [|exact Hsc].
      now apply Hvalid.
  - split; [|intros; discriminate].
    intros prov c s1 s2 meth [= <- _ <- _ _]. tauto.
Qed.

(** X10.  With a catalog loaded by [load_catalog] and an [extractOne] that
    returns one of the choices, a matched province is a province of the
    catalog, and a matched pair of province and canton is a valid pair of the
    catalog: the canton is looked for among the cantons of the matched
    province only.  With a threshold of 100 at most, the scores of the names
    matched are at least the threshold. *)
Theorem match_territory_sound (file : catalog_file) (provincia_input canton_input : pyval)
    (threshold : Q) :
  returns_a_choice extractOne ->
  let self := load_catalog nfkd_ascii file in
  let result := match_territory nfkd_ascii extractOne self provincia_input canton_input
                  threshold in
  (forall prov c score_prov score_canton method,
      result = (Some prov, c, score_prov, score_canton, method) ->
      prov ∈ provinces self
      /\ ((threshold <= 100)%Q -> (threshold <= score_prov)%Q))
  /\ (forall prov canton score_prov score_canton method,
        result = (Some prov, Some canton, score_prov, score_canton, method) ->
        (prov, canton) ∈ valid_pairs self
        /\ ((threshold <= 100)%Q -> (threshold <= score_canton)%Q)).
Proof. apply match_territory_members. Qed.

End CatalogFacts.

Lemma match_territory_sound_witness :
  ("provincia del guayas", "guayaquil") ∈ valid_pairs sample_matcher.
Proof.
  destruct (match_territory_sound Text.latin1_nfkd_ascii Fuzz.extractOne
              (catalog_normalized
                 [ ("provincia del guayas", "guayaquil"); ("provincia del guayas", "daule");
                   ("azuay", "cuenca") ])
              (PStr (utf8 "Provinzia dal Guaias")) (PStr (utf8 "Guayaquil")) 85
              Fuzz_extractOne_choice) as [_ Hpair].
  eapply Hpair.
  match goal with
  | |- ?l = _ => let v := eval vm_compute in l in change l with v
  end.
  reflexivity.
Defined.

(** ** The pair check on matched rows *)

Lemma select_none (mask : list bool) (df : list Df.row) :
  Forall (fun b => b = false) mask -> select mask df = [].
Proof.
  intros H. revert df. induction H as [|b mask -> _ IH]; intros [|row df]; simpl; auto.
Qed.

Section PairCheckFacts.

Variable nfkd_ascii : N -> string.
Variable extractOne : string -> list string -> option (string * Q).

(** X11.  When the rows of a batch carry the names matched by a matcher
    loaded by [load_catalog], with an [extractOne] that returns one of the
    choices, and the checker is given the valid pairs of that matcher, the
    invalid-pair check flags no row: its metric is 0 and the only territory
    issues are those of the missing-territory check. *)
Theorem territory_pair_check_silent (file : catalog_file) (threshold : Q)
    (df : list Df.row) (metrics0 : gmap string nat) (issues0 : list issue) :
  returns_a_choice extractOne ->
  let self := load_catalog nfkd_ascii file in
  (forall row, row ∈ df -> matched_by nfkd_ascii extractOne self threshold row) ->
  let checker :=
    {| dq_valid_pairs := valid_pairs self; metrics := metrics0; issues := issues0 |} in
  select (invalid_pairs_mask (valid_pairs self) df) df = []
  /\ metrics (run_territory_checks checker df) !! "invalid_territory_pair" = Some 0
  /\ issues (run_territory_checks checker df)
     = issues0 ++ map missing_territory_issue (select (invalid_geo_mask df) df).
Proof.
  intros Hchoice self Hmatched checker.
  assert (Hsel : select (invalid_pairs_mask (valid_pairs self) df) df = []).
  { apply select_none. unfold invalid_pairs_mask, mask_and_not, invalid_pair_mask,
      invalid_geo_mask.
    apply Forall_forall. intros b Hb.
    apply list_elem_of_lookup in Hb as [i Hi].
    apply lookup_zip_with_Some in Hi as (x & y & -> & Hx & Hy).
    rewrite list_lookup_fmap in Hx, Hy.
    destruct (df !! i) as [row|] eqn:Hrow; [|discriminate].
    simpl in Hx, Hy. injection Hx as <-. injection Hy as <-.
    assert (Hin : row ∈ df) by (apply list_elem_of_lookup; eauto).
    destruct (Hmatched row Hin) as (sp & sc & meth & Hm).
    unfold pair_not_valid.
    destruct (Df.provincia_norm row) as [p|] eqn:Ep; [|reflexivity].
    destruct (Df.canton_norm row) as [c|] eqn:Ec; [|simpl; now rewrite orb_true_r].
    destruct (match_territory_members nfkd_ascii extractOne file (Df.PROVINCIA row)
                (Df.CANTON row) threshold Hchoice) as [_ Hpair].
    destruct (Hpair p c sp sc meth Hm) as [Hvalid _].
    rewrite bool_decide_eq_false_2; [reflexivity|]. intros Hn. exact (Hn Hvalid). }
  split; [exact Hsel|].
  subst checker. unfold run_territory_checks. cbn [dq_valid_pairs metrics issues].
  rewrite Hsel. case_bool_decide; cbn [metrics issues length map].
  - rewrite lookup_insert_eq, app_nil_r. tauto.
  - rewrite lookup_insert_eq. tauto.
Qed.

End PairCheckFacts.

Lemma territory_pair_check_silent_witness :
  select (invalid_pairs_mask (valid_pairs sample_matcher) sample_matched_batch)
    sample_matched_batch = []
  /\ length (select (invalid_geo_mask sample_matched_batch) sample_matched_batch) = 2.
Proof.
  split; [|reflexivity].
  apply (territory_pair_check_silent Text.latin1_nfkd_ascii Fuzz.extractOne
           (catalog_normalized
              [ ("provincia del guayas", "guayaquil"); ("provincia del guayas", "daule");
                ("azuay", "cuenca") ])
           85 sample_matched_batch ∅ [] Fuzz_extractOne_choice).
  intros row Hrow. unfold sample_matched_batch in Hrow.
  apply elem_of_cons in Hrow as [->|Hrow];
    [exists (3400 # 40)%Q, 100%Q, fuzzy; vm_compute; reflexivity|].
  apply elem_of_cons in Hrow as [->|Hrow];
    [exists 100%Q, 0%Q, failed_canton; vm_compute; reflexivity|].
  apply elem_of_cons in Hrow as [->|Hrow];
    [exists 0%Q, 0%Q, failed_prov; vm_compute; reflexivity|].
  now apply elem_of_nil in Hrow.
Defined.

(** ** The SCD step: history, untouched rows, reruns *)

Section ScdMore.

Variable now : string.
Variable file_id : string.
Variable lookups : dim_lookups.
Variable existing_map : gmap string string.

(** The two ways through the body of the loop. *)
Lemma scd_row_unresolved st row :
  dims_resolved lookups row = false ->
  scd_row now file_id lookups existing_map st row
  = {| fact_offer := fact_offer st; counts := bump_skipped (counts st) |}.
Proof.
  unfold dims_resolved, scd_row. intros H.
  destruct (ies_lookup lookups !! _) as [ies|]; [|reflexivity].
  destruct (terr_lookup lookups !! _) as [terr|]; [|reflexivity].
  destruct (prog_lookup lookups !! _) as [prog|]; [|reflexivity].
  now rewrite H.
Qed.

Lemma scd_row_resolved st row :
  dims_resolved lookups row = true ->
  exists ies terr prog,
    scd_row now file_id lookups existing_map st row
    = match existing_map !! Df.natural_key row with
      | Some old_hash =>
          if negb (String.eqb old_hash (Df.row_hash row)) then
            {| fact_offer :=
                 insert_current file_id ies terr prog row
                   (expire_current now file_id (Df.natural_key row) (fact_offer st));
               counts := bump_updates (counts st) |}
          else
            {| fact_offer := touch_current now file_id (Df.natural_key row) (fact_offer st);
               counts := bump_unchanged (counts st) |}
      | None =>
          {| fact_offer := insert_current file_id ies terr prog row (fact_offer st);
             counts := bump_inserts (counts st) |}
      end.
Proof.
  unfold dims_resolved, scd_row. intros H.
  destruct (ies_lookup lookups !! _) as [ies|]; [|discriminate].
  destruct (terr_lookup lookups !! _) as [terr|];
    [|rewrite andb_false_r in H; discriminate].
  destruct (prog_lookup lookups !! _) as [prog|];
    [|rewrite andb_false_r in H; discriminate].
  rewrite H. eauto.
Qed.

(** The statements on a row that the [WHERE] clause does not select. *)
Lemma expire_current_lookup nk table i r :
  table !! i = Some r -> where_current nk r = false ->
  expire_current now file_id nk table !! i = Some r.
Proof.
  intros Hi Hw. unfold expire_current. rewrite list_lookup_fmap, Hi. simpl. now rewrite Hw.
Qed.

Lemma touch_current_lookup nk table i r :
  table !! i = Some r -> where_current nk r = false ->
  touch_current now file_id nk table !! i = Some r.
Proof.
  intros Hi Hw. unfold touch_current. rewrite list_lookup_fmap, Hi. simpl. now rewrite Hw.
Qed.

Lemma insert_current_lookup ies terr prog row table i r :
  table !! i = Some r ->
  insert_current file_id ies terr prog row table !! i = Some r.
Proof. intros Hi. unfold insert_current. now apply lookup_app_l_Some. Qed.

Lemma scd_row_lookup st row i r :
  fact_offer st !! i = Some r ->
  where_current (Df.natural_key row) r = false ->
  fact_offer (scd_row now file_id lookups existing_map st row) !! i = Some r.
Proof.
  intros Hi Hw. destruct (dims_resolved lookups row) eqn:E.
  - destruct (scd_row_resolved st row E) as (ies & terr & prog & ->).
    destruct (existing_map !! _); [destruct (negb _)|]; cbn [fact_offer];
      auto using insert_current_lookup, expire_current_lookup, touch_current_lookup.
  - now rewrite scd_row_unresolved.
Qed.

(** The identity columns and the length of the table through the statements. *)
Lemma expire_current_identity nk table :
  map fact_identity (expire_current now file_id nk table) = map fact_identity table.
Proof.
  unfold expire_current. rewrite map_map. apply map_ext.
  intros r. now destruct (where_current nk r).
Qed.

Lemma touch_current_identity nk table :
  map fact_identity (touch_current now file_id nk table) = map fact_identity table.
Proof.
  unfold touch_current. rewrite map_map. apply map_ext.
  intros r. now destruct (where_current nk r).
Qed.

Lemma touch_current_versions nk table :
  versions (touch_current now file_id nk table) = versions table.
Proof.
  unfold versions, touch_current. rewrite map_map. apply map_ext.
  intros r. now destruct (where_current nk r).
Qed.

End ScdMore.

Section ScdRows.

Variable now : string.
Variable file_id : string.
Variable lookups : dim_lookups.

Lemma insert_current_new ies terr prog row table :
  insert_current file_id ies terr prog row table
  = table ++ [new_fact file_id ies terr prog row].
Proof. reflexivity. Qed.

Lemma current_rows_insert_list nk ies terr prog row table :
  current_rows nk (insert_current file_id ies terr prog row table)
  = current_rows nk table
    ++ (if String.eqb (Df.natural_key row) nk
        then [new_fact file_id ies terr prog row] else []).
Proof.
  unfold current_rows. rewrite insert_current_new, List.filter_app. f_equal.
  simpl. unfold where_current. simpl. rewrite andb_true_r.
  now destruct (String.eqb (Df.natural_key row) nk).
Qed.

Lemma current_rows_expire_list nk nk' table :
  current_rows nk (expire_current now file_id nk' table)
  = if String.eqb nk nk' then [] else current_rows nk table.
Proof.
  unfold current_rows, expire_current.
  induction table as [|r t IH]; simpl; [now destruct (String.eqb nk nk')|].
  destruct (where_current nk' r) eqn:E'.
  - unfold where_current in *. simpl. rewrite andb_false_r.
    apply andb_true_iff in E' as [Ek Ec]. apply String.eqb_eq in Ek.
    rewrite IH, Ek, Ec. rewrite (String.eqb_sym nk' nk).
    destruct (String.eqb nk nk'); reflexivity.
  - destruct (where_current nk r) eqn:E; rewrite IH.
    + destruct (String.eqb nk nk') eqn:Ek; [|reflexivity].
      apply String.eqb_eq in Ek. subst. congruence.
    + reflexivity.
Qed.

Lemma current_rows_touch_list nk nk' table :
  current_rows nk (touch_current now file_id nk' table)
  = if String.eqb nk nk' then map (touched now file_id) (current_rows nk table)
    else current_rows nk table.
Proof.
  unfold current_rows, touch_current.
  induction table as [|r t IH]; simpl; [now destruct (String.eqb nk nk')|].
  destruct (where_current nk' r) eqn:E'.
  - fold (touched now file_id r).
    assert (Hw : where_current nk (touched now file_id r) = where_current nk r) by reflexivity.
    rewrite Hw, IH. unfold where_current in E'.
    apply andb_true_iff in E' as [Ek Ec]. apply String.eqb_eq in Ek.
    destruct (String.eqb nk nk') eqn:Enk.
    + destruct (where_current nk r); reflexivity.
    + assert (where_current nk r = false) as ->; [|reflexivity].
      unfold where_current. rewrite Ek, String.eqb_sym, Enk. reflexivity.
  - rewrite IH. destruct (String.eqb nk nk') eqn:Enk.
    + apply String.eqb_eq in Enk. subst. now rewrite E'.
    + reflexivity.
Qed.

(** The value of the dictionary of current hashes: the hash of the last
    current row of the key. *)
Lemma lookup_foldl_insert_last {A} (key val : A -> string) (l : list A)
    (m : gmap string string) (k : string) :
  foldl (fun m r => <[key r := val r]> m) m l !! k
  = match last (filter (fun r => key r = k) l) with
    | Some r => Some (val r)
    | None => m !! k
    end.
Proof.
  revert m. induction l as [|x t IH]; intros m; [reflexivity|].
  cbn [foldl]. rewrite IH, filter_cons. destruct (decide (key x = k)) as [Hk|Hk].
  - rewrite last_cons. destruct (last (filter _ t)); [reflexivity|].
    now rewrite Hk, lookup_insert_eq.
  - destruct (last (filter _ t)); [reflexivity|]. now rewrite lookup_insert_ne.
Qed.

Lemma current_rows_as_filter nk table :
  filter (fun r => Fact.natural_key r = nk) (filter (fun r => Fact.is_current r = true) table)
  = current_rows nk table.
Proof.
  unfold current_rows. induction table as [|r t IH]; [reflexivity|].
  rewrite filter_cons. simpl. unfold where_current at 1.
  destruct (Fact.is_current r) eqn:Ec.
  - rewrite decide_True by reflexivity. rewrite filter_cons, andb_true_r.
    destruct (decide (Fact.natural_key r = nk)) as [Hk|Hk].
    + apply String.eqb_eq in Hk. rewrite Hk. now f_equal.
    + apply String.eqb_neq in Hk. now rewrite Hk.
  - rewrite decide_False by discriminate. now rewrite andb_false_r.
Qed.

Lemma existing_map_of_lookup table nk :
  existing_map_of table !! nk = last (current_hashes nk table).
Proof.
  unfold existing_map_of, current_hashes.
  rewrite lookup_foldl_insert_last, current_rows_as_filter, lookup_empty.
  rewrite fmap_last. now destruct (last (current_rows nk table)).
Qed.

Variable table0 : list Fact.row.

Lemma scd_row_other_rows st row nk :
  nk <> Df.natural_key row ->
  current_rows nk (fact_offer (scd_row now file_id lookups (existing_map_of table0) st row))
  = current_rows nk (fact_offer st).
Proof.
  intros Hne.
  assert (E1 : String.eqb nk (Df.natural_key row) = false) by now apply String.eqb_neq.
  assert (E2 : String.eqb (Df.natural_key row) nk = false)
    by (apply String.eqb_neq; congruence).
  destruct (dims_resolved lookups row) eqn:E.
  - destruct (scd_row_resolved now file_id lookups (existing_map_of table0) st row E)
      as (ies & terr & prog & ->).
    destruct (existing_map_of table0 !! _); [destruct (negb _)|]; cbn [fact_offer];
      rewrite ?current_rows_insert_list, ?current_rows_expire_list, ?current_rows_touch_list,
        ?E1, ?E2, ?app_nil_r; reflexivity.
  - now rewrite scd_row_unresolved.
Qed.

(** After the turn of a resolved row, the current rows of its key end with a
    row of its hash, stamped with the file; if the key had at most one
    current row, it has exactly this one. *)
Lemma scd_row_same_rows st row :
  dims_resolved lookups row = true ->
  current_rows (Df.natural_key row) (fact_offer st)
  = current_rows (Df.natural_key row) table0 ->
  let rows' :=
    current_rows (Df.natural_key row)
      (fact_offer (scd_row now file_id lookups (existing_map_of table0) st row)) in
  (exists r, last rows' = Some r
             /\ Fact.row_hash r = Df.row_hash row /\ Fact.last_file_id r = file_id)
  /\ (length (current_rows (Df.natural_key row) table0) <= 1 -> length rows' = 1).
Proof.
  intros Hres Hsame rows'. subst rows'.
  destruct (scd_row_resolved now file_id lookups (existing_map_of table0) st row Hres)
    as (ies & terr & prog & ->).
  pose proof (existing_map_of_lookup table0 (Df.natural_key row)) as Hmap.
  unfold current_hashes in Hmap. rewrite fmap_last in Hmap.
  destruct (existing_map_of table0 !! Df.natural_key row) as [old|].
  - destruct (String.eqb old (Df.row_hash row)) eqn:Eh; cbn [negb fact_offer].
    + rewrite current_rows_touch_list, String.eqb_refl, Hsame.
      destruct (last (current_rows (Df.natural_key row) table0)) as [r0|] eqn:El;
        [|discriminate].
      injection Hmap as Hold. apply String.eqb_eq in Eh. split.
      * exists (touched now file_id r0). rewrite fmap_last, El. simpl.
        split_and!; [reflexivity|congruence|reflexivity].
      * intros Hle. rewrite length_map.
        destruct (current_rows (Df.natural_key row) table0) as [|a [|b l]];
          simpl in *; [discriminate|reflexivity|lia].
    + rewrite current_rows_insert_list, current_rows_expire_list, !String.eqb_refl.
      split; [|reflexivity]. eexists. split; [reflexivity|]. split; reflexivity.
  - cbn [fact_offer]. rewrite current_rows_insert_list, String.eqb_refl, Hsame.
    destruct (last (current_rows (Df.natural_key row) table0)) eqn:El; [discriminate|].
    apply last_None in El. rewrite El. split; [|reflexivity].
    eexists. split; [reflexivity|]. split; reflexivity.
Qed.

Lemma scd_loop_other_rows (l : list Df.row) (st : scd_state) nk :
  nk ∉ map Df.natural_key l ->
  current_rows nk (fact_offer (foldl (scd_row now file_id lookups (existing_map_of table0)) st l))
  = current_rows nk (fact_offer st).
Proof.
  revert st. induction l as [|row rest IH]; intros st Hn; [reflexivity|].
  simpl in *. rewrite not_elem_of_cons in Hn. destruct Hn as [Hne Hn].
  rewrite IH by assumption. now apply scd_row_other_rows.
Qed.

Lemma scd_loop_rows (l : list Df.row) (st : scd_state) row :
  NoDup (map Df.natural_key l) ->
  (forall r, r ∈ l ->
     current_rows (Df.natural_key r) (fact_offer st)
     = current_rows (Df.natural_key r) table0) ->
  row ∈ l -> dims_resolved lookups row = true ->
  let rows' :=
    current_rows (Df.natural_key row)
      (fact_offer (foldl (scd_row now file_id lookups (existing_map_of table0)) st l)) in
  (exists r, last rows' = Some r
             /\ Fact.row_hash r = Df.row_hash row /\ Fact.last_file_id r = file_id)
  /\ (length (current_rows (Df.natural_key row) table0) <= 1 -> length rows' = 1).
Proof.
  revert st. induction l as [|x rest IH]; intros st Hnd Hsame Hin Hres; [inversion Hin|].
  simpl in Hnd. apply NoDup_cons in Hnd as [Hx Hnd]. cbn [foldl].
  apply elem_of_cons in Hin as [->|Hin].
  - cbv zeta. rewrite scd_loop_other_rows by exact Hx.
    apply scd_row_same_rows; [exact Hres|]. apply Hsame. left.
  - apply IH; [exact Hnd| |exact Hin|exact Hres].
    intros r Hr. rewrite scd_row_other_rows.
    + apply Hsame. now right.
    + intros Heq. apply Hx. rewrite <- Heq. apply list_elem_of_fmap. eauto.
Qed.

End ScdRows.

Section ScdTheorems.

Variable lookups : dim_lookups.

Lemma scd_row_history now file_id existing_map st row :
  exists added,
    map fact_identity (fact_offer (scd_row now file_id lookups existing_map st row))
    = map fact_identity (fact_offer st) ++ added
    /\ length added + (inserts_count (counts st) + updates_count (counts st))
       = inserts_count (counts (scd_row now file_id lookups existing_map st row))
         + updates_count (counts (scd_row now file_id lookups existing_map st row)).
Proof.
  destruct (dims_resolved lookups row) eqn:E.
  - destruct (scd_row_resolved now file_id lookups existing_map st row E)
      as (ies & terr & prog & ->).
    destruct (existing_map !! _); [destruct (negb _)|]; cbn [fact_offer counts].
    + eexists. rewrite insert_current_new, map_app, expire_current_identity.
      split; [reflexivity|]. simpl. lia.
    + exists []. rewrite touch_current_identity, app_nil_r. split; [reflexivity|]. simpl. lia.
    + eexists. rewrite insert_current_new, map_app. split; [reflexivity|]. simpl. lia.
  - rewrite scd_row_unresolved by assumption. exists []. cbn [fact_offer counts].
    rewrite app_nil_r. split; [reflexivity|]. simpl. lia.
Qed.

Lemma scd_loop_history now file_id existing_map l st :
  exists added,
    map fact_identity (fact_offer (foldl (scd_row now file_id lookups existing_map) st l))
    = map fact_identity (fact_offer st) ++ added
    /\ length added + (inserts_count (counts st) + updates_count (counts st))
       = inserts_count (counts (foldl (scd_row now file_id lookups existing_map) st l))
         + updates_count (counts (foldl (scd_row now file_id lookups existing_map) st l)).
Proof.
  revert st. induction l as [|row rest IH]; intros st.
  - exists []. rewrite app_nil_r. split; [reflexivity|]. simpl. lia.
  - cbn [foldl].
    destruct (IH (scd_row now file_id lookups existing_map st row)) as (a2 & H2 & L2).
    destruct (scd_row_history now file_id existing_map st row) as (a1 & H1 & L1).
    exists (a1 ++ a2). rewrite H2, H1, <- app_assoc. split; [reflexivity|].
    rewrite length_app. lia.
Qed.

(** X12.  The step only appends to the history: the rows of the table before
    the step are all still there, in their places, with the same dimension
    ids, status, natural key and hash, and the table has grown by one row per
    offer counted as new or updated. *)
Theorem scd_fact_history (now file_id : string) (table : list Fact.row) (df : list Df.row) :
  let st := scd_fact now file_id lookups table df in
  exists added,
    map fact_identity (fact_offer st) = map fact_identity table ++ added
    /\ length added = inserts_count (counts st) + updates_count (counts st)
    /\ length (fact_offer st)
       = length table + inserts_count (counts st) + updates_count (counts st).
Proof.
  intros st. subst st. unfold scd_fact.
  destruct (scd_loop_history now file_id (existing_map_of table) (drop_duplicates_last df)
              {| fact_offer := table;
                 counts := {| inserts_count := 0; updates_count := 0;
                              unchanged_count := 0; skipped_missing_dims := 0 |} |})
    as (added & H & L).
  cbn [fact_offer counts inserts_count updates_count] in H, L.
  exists added. split; [exact H|]. split; [lia|].
  apply (f_equal length) in H. rewrite length_app, !length_map in H. lia.
Qed.

Lemma scd_loop_lookup now file_id existing_map l st i r :
  (forall row, row ∈ l -> where_current (Df.natural_key row) r = false) ->
  fact_offer st !! i = Some r ->
  fact_offer (foldl (scd_row now file_id lookups existing_map) st l) !! i = Some r.
Proof.
  revert st. induction l as [|row rest IH]; intros st Hw Hi; [exact Hi|].
  cbn [foldl]. apply IH; [intros x Hx; apply Hw; now right|].
  apply scd_row_lookup; [exact Hi|]. apply Hw. left.
Qed.

Lemma scd_loop_all_unresolved now file_id existing_map l st :
  (forall row, row ∈ l -> dims_resolved lookups row = false) ->
  fact_offer (foldl (scd_row now file_id lookups existing_map) st l) = fact_offer st.
Proof.
  revert st. induction l as [|row rest IH]; intros st Hun; [reflexivity|].
  cbn [foldl]. rewrite IH by (intros x Hx; apply Hun; now right).
  now rewrite scd_row_unresolved by (apply Hun; left).
Qed.

Lemma elem_of_drop_duplicates_last df row :
  row ∈ drop_duplicates_last df -> row ∈ df.
Proof.
  induction df as [|x rest IH]; simpl; [easy|].
  case_bool_decide; [intros Hr; right; auto|].
  intros Hr. apply elem_of_cons in Hr as [->|Hr]; [left|right; auto].
Qed.

(** X13.  The step rewrites only current rows of natural keys of the batch: a
    row that is not current, and a row whose natural key is not in the batch,
    is found after the step at its place, unchanged.  A batch in which every
    row lacks a dimension id leaves the whole table unchanged. *)
Theorem scd_fact_untouched (now file_id : string) (table : list Fact.row) (df : list Df.row) :
  let table' := fact_offer (scd_fact now file_id lookups table df) in
  (forall i r, table !! i = Some r ->
     Fact.is_current r = false \/ Fact.natural_key r ∉ map Df.natural_key df ->
     table' !! i = Some r)
  /\ ((forall row, row ∈ df -> dims_resolved lookups row = false) -> table' = table).
Proof.
  intros table'. subst table'. unfold scd_fact. split.
  - intros i r Hi Hor. apply scd_loop_lookup; [|exact Hi].
    intros row Hrow. unfold where_current. destruct Hor as [Hc|Hk].
    + rewrite Hc. apply andb_false_r.
    + apply andb_false_intro1. apply String.eqb_neq. intros Heq. apply Hk.
      rewrite Heq. apply list_elem_of_fmap. exists row.
      split; [reflexivity|]. now apply elem_of_drop_duplicates_last.
  - intros Hun. apply scd_loop_all_unresolved.
    intros row Hrow. apply Hun. now apply elem_of_drop_duplicates_last.
Qed.

(** X14.  After the step, on a table that had at most one current row per
    natural key: every natural key of the batch whose dimension ids are
    resolved has exactly one current row, and this row carries the hash of the
    last row of the batch for that key and the id of the file. *)
Theorem scd_fact_reflects_batch (now file_id : string) (table : list Fact.row)
    (df : list Df.row) (row : Df.row) :
  at_most_one_current table ->
  row ∈ drop_duplicates_last df ->
  dims_resolved lookups row = true ->
  exists r,
    current_rows (Df.natural_key row) (fact_offer (scd_fact now file_id lookups table df)) = [r]
    /\ Fact.row_hash r = Df.row_hash row
    /\ Fact.last_file_id r = file_id
    /\ Fact.is_current r = true.
Proof.
  intros Hone Hin Hres. unfold scd_fact.
  destruct (scd_loop_rows now file_id lookups table (drop_duplicates_last df)
              {| fact_offer := table;
                 counts := {| inserts_count := 0; updates_count := 0;
                              unchanged_count := 0; skipped_missing_dims := 0 |} |}
              row (drop_duplicates_last_NoDup df) (fun r _ => eq_refl) Hin Hres)
    as ((r & Hlast & Hh & Hf) & Hlen).
  specialize (Hlen (Hone (Df.natural_key row))).
  destruct (current_rows (Df.natural_key row) _) as [|a [|b l]] eqn:E;
    simpl in Hlen; try discriminate.
  simpl in Hlast. injection Hlast as ->. exists r. split_and!; try assumption; [reflexivity|].
  assert (Hr : r ∈ current_rows (Df.natural_key row)
                 (fact_offer (foldl (scd_row now file_id lookups (existing_map_of table))
                    {| fact_offer := table;
                       counts := {| inserts_count := 0; updates_count := 0;
                                    unchanged_count := 0; skipped_missing_dims := 0 |} |}
                    (drop_duplicates_last df)))) by (rewrite E; left).
  unfold current_rows in Hr. apply list_elem_of_In, List.filter_In in Hr as [_ Hw].
  unfold where_current in Hw. now apply andb_true_iff in Hw as [_ ?].
Qed.

(** The turns of a second run: a resolved row whose hash the dictionary
    already holds is touched, an unresolved one is skipped. *)
Lemma scd_loop_rerun now file_id existing_map l st :
  (forall row, row ∈ l -> dims_resolved lookups row = true ->
     existing_map !! Df.natural_key row = Some (Df.row_hash row)) ->
  let st' := foldl (scd_row now file_id lookups existing_map) st l in
  versions (fact_offer st') = versions (fact_offer st)
  /\ map fact_identity (fact_offer st') = map fact_identity (fact_offer st)
  /\ inserts_count (counts st') = inserts_count (counts st)
  /\ updates_count (counts st') = updates_count (counts st)
  /\ unchanged_count (counts st')
     = unchanged_count (counts st) + length (List.filter (dims_resolved lookups) l)
  /\ skipped_missing_dims (counts st')
     = skipped_missing_dims (counts st)
       + length (List.filter (fun r => negb (dims_resolved lookups r)) l).
Proof.
  revert st. induction l as [|row rest IH]; intros st Hmap.
  - simpl. split_and!; try reflexivity; lia.
  - cbn [foldl]. cbv zeta.
    assert (Hrest : forall x, x ∈ rest -> dims_resolved lookups x = true ->
              existing_map !! Df.natural_key x = Some (Df.row_hash x))
      by (intros x Hx; apply Hmap; now right).
    destruct (IH (scd_row now file_id lookups existing_map st row) Hrest)
      as (Hv & Hi & Hins & Hupd & Hunch & Hskip).
    rewrite Hv, Hi, Hins, Hupd, Hunch, Hskip. clear Hv Hi Hins Hupd Hunch Hskip IH.
    cbn [List.filter]. destruct (dims_resolved lookups row) eqn:E.
    + destruct (scd_row_resolved now file_id lookups existing_map st row E)
        as (ies & terr & prog & ->).
      rewrite (Hmap row ltac:(left) E), String.eqb_refl. cbn [negb fact_offer counts].
      rewrite touch_current_versions, touch_current_identity.
      simpl. split_and!; try reflexivity; lia.
    + rewrite scd_row_unresolved by assumption. simpl. split_and!; try reflexivity; lia.
Qed.

(** The counters of any run: the skipped rows are the unresolved ones. *)
Lemma scd_loop_counts now file_id existing_map l st :
  let st' := foldl (scd_row now file_id lookups existing_map) st l in
  inserts_count (counts st') + updates_count (counts st') + unchanged_count (counts st')
  = inserts_count (counts st) + updates_count (counts st) + unchanged_count (counts st)
    + length (List.filter (dims_resolved lookups) l)
  /\ skipped_missing_dims (counts st')
     = skipped_missing_dims (counts st)
       + length (List.filter (fun r => negb (dims_resolved lookups r)) l).
Proof.
  revert st. induction l as [|row rest IH]; intros st.
  - simpl. lia.
  - cbn [foldl]. cbv zeta.
    destruct (IH (scd_row now file_id lookups existing_map st row)) as (H1 & H2).
    rewrite H1, H2. clear H1 H2 IH.
    cbn [List.filter]. destruct (dims_resolved lookups row) eqn:E.
    + destruct (scd_row_resolved now file_id lookups existing_map st row E)
        as (ies & terr & prog & ->).
      destruct (existing_map !! _); [destruct (negb _)|]; simpl; lia.
    + rewrite scd_row_unresolved by assumption. simpl. lia.
Qed.

(** X15.  Running the step a second time on the same batch, with the same
    dimension dictionaries, creates no version: nothing is counted as new or
    updated, every offer that was new, updated or unchanged in the first run
    is unchanged in the second, the skipped ones are skipped again, and the
    table keeps its rows, their keys, hashes and currency (only
    [last_seen_at] and [last_file_id] are stamped again). *)
Theorem scd_fact_rerun (now1 file1 now2 file2 : string) (table : list Fact.row)
    (df : list Df.row) :
  let s1 := scd_fact now1 file1 lookups table df in
  let s2 := scd_fact now2 file2 lookups (fact_offer s1) df in
  inserts_count (counts s2) = 0
  /\ updates_count (counts s2) = 0
  /\ unchanged_count (counts s2)
     = inserts_count (counts s1) + updates_count (counts s1) + unchanged_count (counts s1)
  /\ skipped_missing_dims (counts s2) = skipped_missing_dims (counts s1)
  /\ versions (fact_offer s2) = versions (fact_offer s1)
  /\ map fact_identity (fact_offer s2) = map fact_identity (fact_offer s1).
Proof.
  intros s1 s2.
  assert (Hmap : forall row, row ∈ drop_duplicates_last df ->
            dims_resolved lookups row = true ->
            existing_map_of (fact_offer s1) !! Df.natural_key row = Some (Df.row_hash row)).
  { intros row Hin Hres. rewrite existing_map_of_lookup. unfold current_hashes.
    subst s1. unfold scd_fact.
    destruct (scd_loop_rows now1 file1 lookups table (drop_duplicates_last df)
                {| fact_offer := table;
                   counts := {| inserts_count := 0; updates_count := 0;
                                unchanged_count := 0; skipped_missing_dims := 0 |} |}
                row (drop_duplicates_last_NoDup df) (fun r _ => eq_refl) Hin Hres)
      as ((r & Hlast & Hh & _) & _).
    rewrite fmap_last, Hlast. simpl. now rewrite Hh. }
  pose proof (scd_loop_rerun now2 file2 (existing_map_of (fact_offer s1))
                (drop_duplicates_last df)
                {| fact_offer := fact_offer s1;
                   counts := {| inserts_count := 0; updates_count := 0;
                                unchanged_count := 0; skipped_missing_dims := 0 |} |} Hmap)
    as (Hv & Hi & Hins & Hupd & Hunch & Hskip).
  pose proof (scd_loop_counts now1 file1 (existing_map_of table) (drop_duplicates_last df)
                {| fact_offer := table;
                   counts := {| inserts_count := 0; updates_count := 0;
                                unchanged_count := 0; skipped_missing_dims := 0 |} |})
    as (Hc1 & Hc2).
  cbn [fact_offer counts inserts_count updates_count unchanged_count skipped_missing_dims]
    in Hv, Hi, Hins, Hupd, Hunch, Hskip, Hc1, Hc2.
  subst s2. unfold scd_fact at 1 2 3 4 5 6.
  split_and!; [exact Hins|exact Hupd| | |exact Hv|exact Hi].
  - rewrite Hunch. subst s1. unfold scd_fact. lia.
  - rewrite Hskip. subst s1. unfold scd_fact. lia.
Qed.

End ScdTheorems.

Lemma scd_fact_reflects_batch_witness :
  exists r,
    current_rows "k1"
      (fact_offer (scd_fact "2024-05-01" "file-2" sample_lookups sample_table sample_batch))
    = [r]
    /\ Fact.row_hash r = "h2" /\ Fact.last_file_id r = "file-2" /\ Fact.is_current r = true.
Proof.
  apply (scd_fact_reflects_batch sample_lookups "2024-05-01" "file-2" sample_table
           sample_batch (sample_offer "cerrada" (Some "quito") "k1" "h2")
           sample_table_one_current).
  - vm_compute. right. left.
  - reflexivity.
Defined.

(** ** The checks of [run_checks] *)

Lemma pick_map_length {A} (g : A -> bool) (l : list A) :
  length (pick (map g l) l) = length (List.filter g l).
Proof.
  induction l as [|x t IH]; [reflexivity|]. simpl. destruct (g x); simpl; now rewrite IH.
Qed.

Lemma pick_map_snd {A B} (g : B -> bool) (l : list (A * B)) :
  map snd (pick (map g (map snd l)) l) = List.filter g (map snd l).
Proof.
  induction l as [|[a b] t IH]; [reflexivity|]. simpl. destruct (g b); simpl; now rewrite IH.
Qed.

Lemma elem_of_pick_map {A B} (g : B -> bool) (l : list (A * B)) (ir : A * B) :
  ir ∈ pick (map g (map snd l)) l <-> ir ∈ l /\ g ir.2 = true.
Proof.
  induction l as [|[a b] t IH]; simpl.
  - rewrite elem_of_nil. tauto.
  - destruct (g b) eqn:E.
    + rewrite !elem_of_cons, IH. split; [intros [->|[? ?]]; tauto|].
      intros [[->|?] ?]; tauto.
    + rewrite IH, elem_of_cons. split; [tauto|].
      intros [[->|?] Hg]; [simpl in Hg; congruence|tauto].
Qed.

Lemma pick_as_select (mask : list bool) (l : list Df.row) : pick mask l = select mask l.
Proof.
  revert l. induction mask as [|b m IH]; intros [|x l]; simpl; try reflexivity.
  now rewrite IH.
Qed.

Lemma key_count_zero nk rows :
  key_count nk rows = 0 <-> nk ∉ map Df.natural_key rows.
Proof.
  unfold key_count. rewrite length_zero_iff_nil, filter_empty_iff. split.
  - intros H Hin. apply list_elem_of_fmap in Hin as (r & -> & Hr). now apply (H r).
  - intros H r Hr Hk. apply H. rewrite <- Hk. apply list_elem_of_fmap. eauto.
Qed.

Lemma key_count_cons nk r rows :
  key_count nk (r :: rows)
  = (if decide (Df.natural_key r = nk) then 1 else 0) + key_count nk rows.
Proof. unfold key_count. rewrite filter_cons. now destruct (decide _). Qed.

Lemma NoDup_key_count rows :
  NoDup (map Df.natural_key rows) <-> forall nk, key_count nk rows <= 1.
Proof.
  induction rows as [|r t IH]; simpl.
  - split; [intros _ nk; unfold key_count; simpl; lia|constructor].
  - rewrite NoDup_cons, IH. split.
    + intros [Hn Hall] nk. rewrite key_count_cons. destruct (decide _) as [<-|]; [|apply Hall].
      apply key_count_zero in Hn. lia.
    + intros Hall. split.
      * apply key_count_zero. specialize (Hall (Df.natural_key r)).
        rewrite key_count_cons, decide_True in Hall by reflexivity. lia.
      * intros nk. specialize (Hall nk). rewrite key_count_cons in Hall. lia.
Qed.

Lemma drop_duplicates_last_id rows :
  NoDup (map Df.natural_key rows) <-> drop_duplicates_last rows = rows.
Proof.
  split.
  - induction rows as [|r t IH]; [reflexivity|]. simpl.
    intros Hnd. apply NoDup_cons in Hnd as [Hn Hnd].
    rewrite bool_decide_eq_false_2 by assumption. now rewrite IH.
  - intros <-. apply drop_duplicates_last_NoDup.
Qed.

Lemma filter_length_le {A} (P Q : A -> bool) (l : list A) :
  (forall x, x ∈ l -> P x = true -> Q x = true) ->
  length (List.filter P l) <= length (List.filter Q l).
Proof.
  induction l as [|x t IH]; intros H; [reflexivity|]. simpl.
  assert (IH' : length (List.filter P t) <= length (List.filter Q t))
    by (apply IH; intros y Hy; apply H; now right).
  destruct (P x) eqn:EP.
  - rewrite (H x ltac:(left) EP). simpl. lia.
  - destruct (Q x); simpl; lia.
Qed.

Lemma key_count_as_filter nk rows :
  key_count nk rows = length (List.filter (fun r => String.eqb (Df.natural_key r) nk) rows).
Proof.
  unfold key_count. induction rows as [|r t IH]; [reflexivity|].
  rewrite filter_cons. simpl. destruct (decide (Df.natural_key r = nk)) as [Hk|Hk].
  - apply String.eqb_eq in Hk. rewrite Hk. simpl. now rewrite IH.
  - apply String.eqb_neq in Hk. now rewrite Hk.
Qed.

(** The number of rows the duplicate check flags. *)
Lemma duplicates_length (df : list (nat * Df.row)) :
  length (pick (duplicated_mask (map snd df)) df)
  = length (List.filter
              (fun r => bool_decide (1 < key_count (Df.natural_key r) (map snd df)))
              (map snd df)).
Proof.
  unfold duplicated_mask.
  rewrite <- (List.length_map snd (pick _ df)), pick_map_snd. reflexivity.
Qed.

(** The issues of [run_checks], check by check, in the order the code
    appends them. *)
Lemma run_checks_issues (valid_pairs : gset (string * string))
    (extra_metrics : gmap string nat) (df : list (nat * Df.row)) :
  let rows := map snd df in
  dq_issues (run_checks valid_pairs extra_metrics df)
  = map (fun ir => {| dq_type := "duplicate_natural_key";
                      dq_natural_key := Df.natural_key ir.2;
                      dq_detail_of := detail_duplicate ir.1 (Df.row_hash ir.2) |})
      (pick (duplicated_mask rows) df)
    ++ map (fun r => lift_issue (missing_territory_issue r))
         (select (invalid_geo_mask rows) rows)
    ++ map (fun r => lift_issue (invalid_pair_issue r))
         (if bool_decide (valid_pairs <> ∅)
          then select (invalid_pairs_mask valid_pairs rows) rows else [])
    ++ map (fun nk => {| dq_type := "conflicting_estado";
                         dq_natural_key := nk;
                         dq_detail_of := detail_states (states_of nk rows) |})
         (conflicting_keys rows)
    ++ map (fun ir => {| dq_type := "missing_nombre_ies";
                         dq_natural_key := Df.natural_key ir.2;
                         dq_detail_of := detail_column "NOMBRE_IES" |})
         (pick (map (fun ir => isna (Df.NOMBRE_IES ir.2)) df) df)
    ++ map (fun ir => {| dq_type := "missing_nombre_carrera";
                         dq_natural_key := Df.natural_key ir.2;
                         dq_detail_of := detail_column "NOMBRE_CARRERA" |})
         (pick (map (fun ir => isna (Df.NOMBRE_CARRERA ir.2)) df) df).
Proof.
  intros rows.
  unfold run_checks, check_missing, check_conflicting, check_territory,
    run_territory_checks, check_duplicates.
  cbn [dq_issues dq_metrics metrics dq_valid_pairs]. fold rows.
  case_bool_decide; cbn [issues]; rewrite ?map_app, ?map_map, ?app_nil_l, <- ?app_assoc;
    cbn [map app]; reflexivity.
Qed.

(** The metrics of [run_checks]: the six entries it sets. *)
Lemma run_checks_metrics (valid_pairs : gset (string * string))
    (extra_metrics : gmap string nat) (df : list (nat * Df.row)) :
  let rows := map snd df in
  let m := dq_metrics (run_checks valid_pairs extra_metrics df) in
  m !! "duplicates_in_file" = Some (length (pick (duplicated_mask rows) df))
  /\ m !! "invalid_territory" = Some (length (select (invalid_geo_mask rows) rows))
  /\ m !! "invalid_territory_pair"
     = Some (length (if bool_decide (valid_pairs <> ∅)
                     then select (invalid_pairs_mask valid_pairs rows) rows else []))
  /\ m !! "conflicting_estado" = Some (length (conflicting_keys rows))
  /\ m !! "missing_NOMBRE_IES"
     = Some (length (pick (map (fun ir => isna (Df.NOMBRE_IES ir.2)) df) df))
  /\ m !! "missing_NOMBRE_CARRERA"
     = Some (length (pick (map (fun ir => isna (Df.NOMBRE_CARRERA ir.2)) df) df)).
Proof.
  intros rows m. subst m.
  unfold run_checks, check_missing, check_conflicting, check_territory,
    run_territory_checks, check_duplicates.
  cbn [dq_issues dq_metrics metrics dq_valid_pairs]. fold rows.
  case_bool_decide; cbn [metrics]; split_and!;
    rewrite ?lookup_insert_ne by discriminate; apply lookup_insert_eq.
Qed.

Lemma issues_of_type_app t l1 l2 :
  issues_of_type t (l1 ++ l2) = issues_of_type t l1 ++ issues_of_type t l2.
Proof. apply filter_app. Qed.

Lemma issues_of_type_map {A} (t t' : string) (f : A -> dq_issue) (l : list A) :
  (forall x, dq_type (f x) = t') ->
  issues_of_type t (map f l) = if decide (t' = t) then map f l else [].
Proof.
  intros Hf. unfold issues_of_type. destruct (decide (t' = t)) as [<-|Hne].
  - induction l as [|x u IH]; [reflexivity|].
    cbn [map]. rewrite filter_cons_True by apply Hf. now rewrite IH.
  - apply filter_empty_iff. intros i Hi Ht.
    apply list_elem_of_fmap in Hi as (x & -> & _). rewrite Hf in Ht. contradiction.
Qed.

Ltac issues_by_type :=
  rewrite run_checks_issues; cbv zeta;
  rewrite !issues_of_type_app;
  rewrite (issues_of_type_map _ "duplicate_natural_key") by reflexivity;
  rewrite (issues_of_type_map _ "missing_territory_norm") by reflexivity;
  rewrite (issues_of_type_map _ "invalid_territory_pair") by reflexivity;
  rewrite (issues_of_type_map _ "conflicting_estado") by reflexivity;
  rewrite (issues_of_type_map _ "missing_nombre_ies") by reflexivity;
  rewrite (issues_of_type_map _ "missing_nombre_carrera") by reflexivity;
  repeat (rewrite decide_True by reflexivity);
  repeat (rewrite decide_False by discriminate);
  rewrite ?app_nil_l, ?app_nil_r.

(** X16.  The metric [duplicates_in_file] counts the rows whose natural key
    occurs more than once in the file, and each of them gives one
    [duplicate_natural_key] issue carrying its index label and hash.  The
    metric is never 1; it is 0 exactly when the natural keys of the file are
    pairwise different, which is exactly when the SCD step, which drops the
    duplicates of a key, processes every row of the file. *)
Theorem duplicates_check (valid_pairs : gset (string * string))
    (extra_metrics : gmap string nat) (df : list (nat * Df.row)) :
  let rows := map snd df in
  let dupes := pick (duplicated_mask rows) df in
  let result := run_checks valid_pairs extra_metrics df in
  dq_metrics result !! "duplicates_in_file" = Some (length dupes)
  /\ issues_of_type "duplicate_natural_key" (dq_issues result)
     = map (fun ir => {| dq_type := "duplicate_natural_key";
                         dq_natural_key := Df.natural_key ir.2;
                         dq_detail_of := detail_duplicate ir.1 (Df.row_hash ir.2) |}) dupes
  /\ (forall ir, ir ∈ dupes <-> ir ∈ df /\ 1 < key_count (Df.natural_key ir.2) rows)
  /\ length dupes <> 1
  /\ (length dupes = 0 <-> NoDup (map Df.natural_key rows))
  /\ (length dupes = 0 <-> drop_duplicates_last rows = rows).
Proof.
  intros rows dupes result.
  assert (Hlen : length dupes
                 = length (List.filter
                     (fun r => bool_decide (1 < key_count (Df.natural_key r) rows)) rows))
    by apply duplicates_length.
  assert (Hzero : length dupes = 0 <-> NoDup (map Df.natural_key rows)).
  { rewrite Hlen, NoDup_key_count. clear Hlen. split.
    - intros Hlen nk. destruct (le_gt_dec (key_count nk rows) 1) as [|Hgt]; [assumption|].
      exfalso.
      assert (Hex : exists r, r ∈ rows /\ Df.natural_key r = nk).
      { unfold key_count in Hgt. destruct (filter _ rows) as [|r t] eqn:E; [simpl in Hgt; lia|].
        assert (Hr : r ∈ filter (fun r => Df.natural_key r = nk) rows) by (rewrite E; left).
        apply list_elem_of_filter in Hr as [? ?]. eauto. }
      destruct Hex as (r & Hr & <-).
      apply length_zero_iff_nil in Hlen.
      assert (Hin : List.In r (List.filter
                (fun r0 => bool_decide (1 < key_count (Df.natural_key r0) rows)) rows)).
      { apply List.filter_In. split; [now apply list_elem_of_In|].
        apply bool_decide_eq_true. lia. }
      rewrite Hlen in Hin. contradiction.
    - intros Hall. apply length_zero_iff_nil.
      assert (Hnone : forall r, List.In r (List.filter
                (fun r0 => bool_decide (1 < key_count (Df.natural_key r0) rows)) rows) -> False).
      { intros r Hr. apply List.filter_In in Hr as [_ Hr]. apply bool_decide_eq_true in Hr.
        specialize (Hall (Df.natural_key r)). lia. }
      destruct (List.filter _ rows) as [|r t]; [reflexivity|].
      exfalso. apply (Hnone r). left. reflexivity. }
  split_and!.
  - apply run_checks_metrics.
  - subst result. issues_by_type. reflexivity.
  - intros ir. subst dupes. unfold duplicated_mask. subst rows.
    rewrite elem_of_pick_map, bool_decide_eq_true. reflexivity.
  - intros H1. rewrite Hlen in H1.
    destruct (List.filter _ rows) as [|r [|r' t]] eqn:E; try discriminate. clear H1.
    assert (Hr : List.In r (List.filter
              (fun r0 => bool_decide (1 < key_count (Df.natural_key r0) rows)) rows))
      by (rewrite E; left; reflexivity).
    apply List.filter_In in Hr as [_ Hr]. apply bool_decide_eq_true in Hr.
    rewrite key_count_as_filter in Hr.
    pose proof (filter_length_le
                  (fun r0 => String.eqb (Df.natural_key r0) (Df.natural_key r))
                  (fun r0 => bool_decide (1 < key_count (Df.natural_key r0) rows)) rows) as Hle.
    rewrite E in Hle. simpl in Hle.
    assert (length (List.filter
              (fun r0 => String.eqb (Df.natural_key r0) (Df.natural_key r)) rows) <= 1); [|lia].
    apply Hle. intros x _ Hx. apply String.eqb_eq in Hx. apply bool_decide_eq_true.
    rewrite Hx, key_count_as_filter. exact Hr.
  - exact Hzero.
  - rewrite Hzero. apply drop_duplicates_last_id.
Qed.

Lemma elem_of_insert_sorted x k l : x ∈ insert_sorted k l <-> x = k \/ x ∈ l.
Proof.
  induction l as [|y t IH]; simpl.
  - rewrite list_elem_of_singleton, elem_of_nil. tauto.
  - destruct (String.leb k y); rewrite !elem_of_cons; [tauto|]. rewrite IH. tauto.
Qed.

Lemma NoDup_insert_sorted k l : k ∉ l -> NoDup l -> NoDup (insert_sorted k l).
Proof.
  induction l as [|y t IH]; simpl; intros Hk Hnd.
  - constructor; [apply not_elem_of_nil|constructor].
  - destruct (String.leb k y); [now constructor|].
    apply NoDup_cons in Hnd as [Hy Hnd]. apply not_elem_of_cons in Hk as [Hky Hk].
    constructor; [|now apply IH].
    rewrite elem_of_insert_sorted. intros [->|?]; [now apply Hky|contradiction].
Qed.

Lemma Sorted_insert_sorted k l :
  Sorted.Sorted (fun a b => String.leb a b = true) l ->
  Sorted.Sorted (fun a b => String.leb a b = true) (insert_sorted k l).
Proof.
  induction l as [|y t IH]; simpl; intros Hs.
  - repeat constructor.
  - destruct (String.leb k y) eqn:E.
    + constructor; [assumption|]. now constructor.
    + apply Sorted.Sorted_inv in Hs as [Hs Hhd]. constructor; [now apply IH|].
      assert (Hyk : String.leb y k = true)
        by (destruct (String.leb_total y k) as [?|H]; [assumption|congruence]).
      destruct t as [|z u]; simpl; [now constructor|].
      destruct (String.leb k z); constructor; [assumption|].
      now apply Sorted.HdRel_inv in Hhd.
Qed.

Lemma group_keys_spec rows :
  (forall nk, nk ∈ group_keys rows <-> nk ∈ map Df.natural_key rows)
  /\ NoDup (group_keys rows)
  /\ Sorted.Sorted (fun a b => String.leb a b = true) (group_keys rows).
Proof.
  unfold group_keys.
  assert (Hu : forall nk, nk ∈ unique_from [] (map Df.natural_key rows)
                          <-> nk ∈ map Df.natural_key rows).
  { intros nk. rewrite unique_from_spec. pose proof (not_elem_of_nil nk). tauto. }
  pose proof (unique_from_NoDup [] (map Df.natural_key rows)) as Hnd.
  revert Hu Hnd. generalize (unique_from [] (map Df.natural_key rows)) as u.
  generalize (map Df.natural_key rows) as keys. intros keys u Hu Hnd.
  assert (Hin : forall (v : list string) nk, nk ∈ foldr insert_sorted [] v <-> nk ∈ v).
  { clear. induction v as [|k t IH]; intros nk; simpl; [reflexivity|].
    rewrite elem_of_insert_sorted, elem_of_cons, IH. reflexivity. }
  split_and!.
  - intros nk. now rewrite Hin, Hu.
  - clear Hu. induction Hnd as [|k t Hk Hnd IH]; simpl; [constructor|].
    apply NoDup_insert_sorted; [|exact IH]. now rewrite Hin.
  - clear. induction u as [|k t IH]; simpl; [constructor|]. now apply Sorted_insert_sorted.
Qed.

Lemma states_of_spec nk rows s :
  s ∈ states_of nk rows
  <-> exists r, r ∈ rows /\ Df.natural_key r = nk /\ Df.estado_norm r = Some s.
Proof.
  unfold states_of. rewrite unique_from_spec, list_elem_of_omap. split.
  - intros [(r & Hr & Hs) _]. exists r. destruct (String.eqb _ _) eqn:E; [|discriminate].
    apply String.eqb_eq in E. auto.
  - intros (r & Hr & Hk & Hs). split; [|apply not_elem_of_nil].
    exists r. split; [assumption|]. apply String.eqb_eq in Hk. now rewrite Hk.
Qed.

Lemma two_elements {A} (x y : A) (l : list A) : x ∈ l -> y ∈ l -> x <> y -> 1 < length l.
Proof.
  intros Hx Hy Hne. destruct l as [|a [|b t]]; simpl; try lia.
  - now apply elem_of_nil in Hx.
  - apply list_elem_of_singleton in Hx, Hy. congruence.
Qed.

Lemma two_elements_inv {A} (l : list A) :
  NoDup l -> 1 < length l -> exists x y, x ∈ l /\ y ∈ l /\ x <> y.
Proof.
  intros Hnd Hlen. destruct l as [|a [|b t]]; simpl in Hlen; try lia.
  exists a, b. split_and!; [left|right; left|].
  apply NoDup_cons in Hnd as [Ha _]. intros ->. apply Ha. left.
Qed.

(** X17.  The keys reported as [conflicting_estado] are exactly the natural
    keys that two rows of the file carry with two different, non-null
    normalised states.  Each is reported once, in the sorted order of the
    group keys; the states listed in its detail are pairwise different and
    are exactly the non-null states of the rows of that key; and every such
    key is also a duplicated key, so its rows are among those the duplicate
    check flags. *)
Theorem conflicting_check (valid_pairs : gset (string * string))
    (extra_metrics : gmap string nat) (df : list (nat * Df.row)) :
  let rows := map snd df in
  let result := run_checks valid_pairs extra_metrics df in
  dq_metrics result !! "conflicting_estado" = Some (length (conflicting_keys rows))
  /\ issues_of_type "conflicting_estado" (dq_issues result)
     = map (fun nk => {| dq_type := "conflicting_estado";
                         dq_natural_key := nk;
                         dq_detail_of := detail_states (states_of nk rows) |})
         (conflicting_keys rows)
  /\ (forall nk, nk ∈ conflicting_keys rows
        <-> exists r1 r2 s1 s2,
              r1 ∈ rows /\ r2 ∈ rows
              /\ Df.natural_key r1 = nk /\ Df.natural_key r2 = nk
              /\ Df.estado_norm r1 = Some s1 /\ Df.estado_norm r2 = Some s2 /\ s1 <> s2)
  /\ NoDup (conflicting_keys rows)
  /\ conflicting_keys rows `sublist_of` group_keys rows
  /\ Sorted.Sorted (fun a b => String.leb a b = true) (group_keys rows)
  /\ (forall nk, NoDup (states_of nk rows)
        /\ forall s, s ∈ states_of nk rows
             <-> exists r, r ∈ rows /\ Df.natural_key r = nk /\ Df.estado_norm r = Some s)
  /\ (forall nk, nk ∈ conflicting_keys rows -> 1 < key_count nk rows)
  /\ (forall ir, ir ∈ df -> Df.natural_key ir.2 ∈ conflicting_keys rows ->
        ir ∈ pick (duplicated_mask rows) df).
Proof.
  intros rows result.
  destruct (group_keys_spec rows) as (Hgk & Hgnd & Hgs).
  assert (Hconf : forall nk, nk ∈ conflicting_keys rows
        <-> exists r1 r2 s1 s2,
              r1 ∈ rows /\ r2 ∈ rows
              /\ Df.natural_key r1 = nk /\ Df.natural_key r2 = nk
              /\ Df.estado_norm r1 = Some s1 /\ Df.estado_norm r2 = Some s2 /\ s1 <> s2).
  { intros nk. unfold conflicting_keys. rewrite list_elem_of_filter, Hgk. split.
    - intros [Hlen _].
      destruct (two_elements_inv (states_of nk rows)) as (s1 & s2 & H1 & H2 & Hne);
        [apply unique_from_NoDup|assumption|].
      apply states_of_spec in H1 as (r1 & ? & ? & ?).
      apply states_of_spec in H2 as (r2 & ? & ? & ?).
      exists r1, r2, s1, s2. tauto.
    - intros (r1 & r2 & s1 & s2 & Hr1 & Hr2 & Hk1 & Hk2 & Hs1 & Hs2 & Hne). split.
      + apply (two_elements s1 s2); [| |assumption]; apply states_of_spec; eauto.
      + apply list_elem_of_fmap. eauto. }
  assert (Hcount : forall nk, nk ∈ conflicting_keys rows -> 1 < key_count nk rows).
  { intros nk Hnk. apply Hconf in Hnk
      as (r1 & r2 & s1 & s2 & Hr1 & Hr2 & Hk1 & Hk2 & Hs1 & Hs2 & Hne).
    unfold key_count. apply (two_elements r1 r2).
    - apply list_elem_of_filter. auto.
    - apply list_elem_of_filter. auto.
    - intros ->. congruence. }
  split_and!.
  - apply run_checks_metrics.
  - subst result. issues_by_type. reflexivity.
  - exact Hconf.
  - unfold conflicting_keys. now apply NoDup_filter.
  - unfold conflicting_keys. apply sublist_filter.
  - exact Hgs.
  - intros nk. split; [apply unique_from_NoDup|]. intros s. apply states_of_spec.
  - exact Hcount.
  - intros ir Hir Hnk. unfold duplicated_mask. subst rows.
    rewrite elem_of_pick_map, bool_decide_eq_true. split; [assumption|]. now apply Hcount.
Qed.

(** X18.  After [run_checks] every metric it sets is the number of issues of
    the matching type, so the number of issues is the sum of the six metrics;
    no issue has another type, and the entries of [extra_metrics] under other
    names are kept as given. *)
Theorem run_checks_accounting (valid_pairs : gset (string * string))
    (extra_metrics : gmap string nat) (df : list (nat * Df.row)) :
  let result := run_checks valid_pairs extra_metrics df in
  let m := dq_metrics result in
  let count t := length (issues_of_type t (dq_issues result)) in
  m !! "duplicates_in_file" = Some (count "duplicate_natural_key")
  /\ m !! "invalid_territory" = Some (count "missing_territory_norm")
  /\ m !! "invalid_territory_pair" = Some (count "invalid_territory_pair")
  /\ m !! "conflicting_estado" = Some (count "conflicting_estado")
  /\ m !! "missing_NOMBRE_IES" = Some (count "missing_nombre_ies")
  /\ m !! "missing_NOMBRE_CARRERA" = Some (count "missing_nombre_carrera")
  /\ length (dq_issues result)
     = count "duplicate_natural_key" + count "missing_territory_norm"
       + count "invalid_territory_pair" + count "conflicting_estado"
       + count "missing_nombre_ies" + count "missing_nombre_carrera"
  /\ (forall i, i ∈ dq_issues result ->
        dq_type i ∈ ["duplicate_natural_key"; "missing_territory_norm";
                     "invalid_territory_pair"; "conflicting_estado";
                     "missing_nombre_ies"; "missing_nombre_carrera"])
  /\ (forall k, k ∉ ["duplicates_in_file"; "invalid_territory"; "invalid_territory_pair";
                     "conflicting_estado"; "missing_NOMBRE_IES"; "missing_NOMBRE_CARRERA"] ->
        m !! k = extra_metrics !! k).
Proof.
  intros result m count.
  destruct (run_checks_metrics valid_pairs extra_metrics df)
    as (M1 & M2 & M3 & M4 & M5 & M6).
  assert (C1 : count "duplicate_natural_key"
               = length (pick (duplicated_mask (map snd df)) df)).
  { subst count result. cbv beta. issues_by_type. apply List.length_map. }
  assert (C2 : count "missing_territory_norm"
               = length (select (invalid_geo_mask (map snd df)) (map snd df))).
  { subst count result. cbv beta. issues_by_type. apply List.length_map. }
  assert (C3 : count "invalid_territory_pair"
               = length (if bool_decide (valid_pairs <> ∅)
                         then select (invalid_pairs_mask valid_pairs (map snd df)) (map snd df)
                         else [])).
  { subst count result. cbv beta. issues_by_type. apply List.length_map. }
  assert (C4 : count "conflicting_estado" = length (conflicting_keys (map snd df))).
  { subst count result. cbv beta. issues_by_type. apply List.length_map. }
  assert (C5 : count "missing_nombre_ies"
               = length (pick (map (fun ir => isna (Df.NOMBRE_IES ir.2)) df) df)).
  { subst count result. cbv beta. issues_by_type. apply List.length_map. }
  assert (C6 : count "missing_nombre_carrera"
               = length (pick (map (fun ir => isna (Df.NOMBRE_CARRERA ir.2)) df) df)).
  { subst count result. cbv beta. issues_by_type. apply List.length_map. }
  split_and!.
  - rewrite C1. exact M1.
  - rewrite C2. exact M2.
  - rewrite C3. exact M3.
  - rewrite C4. exact M4.
  - rewrite C5. exact M5.
  - rewrite C6. exact M6.
  - rewrite C1, C2, C3, C4, C5, C6. subst result.
    rewrite run_checks_issues. cbv zeta. rewrite !length_app, !List.length_map. lia.
  - intros i Hi. subst result. rewrite run_checks_issues in Hi. cbv zeta in Hi.
    rewrite !elem_of_app in Hi.
    repeat match type of Hi with
           | _ \/ _ => destruct Hi as [Hi|Hi]
           end;
      apply list_elem_of_fmap in Hi as (x & -> & _); cbn [dq_type lift_issue issue_type
        missing_territory_issue invalid_pair_issue];
      repeat first [left; reflexivity | right].
  - intros k Hk. subst m result.
    unfold run_checks, check_missing, check_conflicting, check_territory,
      run_territory_checks, check_duplicates.
    cbn [dq_issues dq_metrics metrics dq_valid_pairs].
    repeat (apply not_elem_of_cons in Hk as [? Hk]).
    case_bool_decide; cbn [metrics]; rewrite !lookup_insert_ne by congruence; reflexivity.
Qed.

(** ** The uploads of [upload_artifacts] *)

Lemma uploads_of_app tr1 tr2 : uploads_of (tr1 ++ tr2) = uploads_of tr1 ++ uploads_of tr2.
Proof. apply omap_app. Qed.

(** One [upload_file]: the calls it adds, the entry it adds. *)
Lemma upload_file_step (w : Storage.world) (bucket : string) (public : bool)
    (key local_path remote_path content_type : string) (st st' : Storage.state) (ok : bool) :
  Storage.upload_file w bucket public key local_path remote_path content_type st = (st', ok) ->
  exists calls entries,
    Storage.trace st' = Storage.trace st ++ calls
    /\ Storage.uploaded st' = Storage.uploaded st ++ entries
    /\ Forall (fun o => is_transfer o = true) calls
    /\ (if ok
        then uploads_of calls = [(bucket, remote_path)]
             /\ exists info, entries = [(key, info)] /\ Storage.path info = remote_path
                             /\ (Storage.url info <> None -> public = true)
        else entries = [] /\ length (uploads_of calls) <= 1).
Proof.
  unfold Storage.upload_file. intros H.
  destruct (Storage.read_ok w local_path); cbn [negb] in H.
  - destruct (Storage.upload_ok w remote_path); cbn [negb] in H; injection H as <- <-;
      cbn [Storage.trace Storage.uploaded].
    + eexists [Storage.read_bytes local_path; Storage.upload bucket remote_path content_type], _.
      split_and!; [now rewrite <- app_assoc|reflexivity|repeat constructor|reflexivity|].
      eexists. split_and!; [reflexivity|reflexivity|]. cbn [Storage.url].
      destruct public; [reflexivity|]. intros Hu. now contradiction Hu.
    + exists [Storage.read_bytes local_path; Storage.upload bucket remote_path content_type], [].
      split_and!; [now rewrite <- app_assoc|now rewrite app_nil_r|repeat constructor|
                   reflexivity|simpl; lia].
  - injection H as <- <-. cbn [Storage.trace Storage.uploaded].
    exists [Storage.read_bytes local_path], [].
    split_and!; [reflexivity|now rewrite app_nil_r|repeat constructor|reflexivity|simpl; lia].
Qed.

Lemma transfers_from_refl bucket public st : transfers_from bucket public [] st st true.
Proof.
  exists [], []. split_and!; rewrite ?app_nil_r; try reflexivity; try constructor.
  - intros ki Hki. now apply elem_of_nil in Hki.
  - exists []. split; reflexivity.
Qed.

Lemma transfers_from_skip bucket public key keys st st' ok :
  transfers_from bucket public keys st st' ok ->
  transfers_from bucket public (key :: keys) st st' ok.
Proof.
  intros (calls & entries & Ht & Hu & Hf & Hk & Hurl & Hex).
  exists calls, entries. split_and!; try assumption. now apply sublist_cons.
Qed.

Lemma transfers_from_file (w : Storage.world) bucket public key local_path remote_path
    content_type st st' ok :
  Storage.upload_file w bucket public key local_path remote_path content_type st = (st', ok) ->
  transfers_from bucket public [key] st st' ok.
Proof.
  intros H. apply upload_file_step in H as (calls & entries & Ht & Hu & Hf & Hok).
  exists calls, entries. split_and!; try assumption.
  - destruct ok.
    + destruct Hok as (_ & info & -> & _). reflexivity.
    + destruct Hok as [-> _]. apply sublist_nil_l.
  - intros ki Hki. destruct ok.
    + destruct Hok as (_ & info & -> & _ & Hurl).
      apply list_elem_of_singleton in Hki as ->. exact Hurl.
    + destruct Hok as [-> _]. now apply elem_of_nil in Hki.
  - destruct ok.
    + destruct Hok as (Hup & info & -> & Hp & _). exists []. rewrite Hup. simpl.
      now rewrite Hp.
    + destruct Hok as [-> Hlen]. exists (uploads_of calls). split; [reflexivity|assumption].
Qed.

Lemma transfers_from_trans bucket public keys1 keys2 st1 st2 st3 ok :
  transfers_from bucket public keys1 st1 st2 true ->
  transfers_from bucket public keys2 st2 st3 ok ->
  transfers_from bucket public (keys1 ++ keys2) st1 st3 ok.
Proof.
  intros (c1 & e1 & Ht1 & Hu1 & Hf1 & Hk1 & Hurl1 & x1 & Hup1 & ->)
         (c2 & e2 & Ht2 & Hu2 & Hf2 & Hk2 & Hurl2 & x2 & Hup2 & Hx2).
  exists (c1 ++ c2), (e1 ++ e2). split_and!.
  - now rewrite Ht2, Ht1, app_assoc.
  - now rewrite Hu2, Hu1, app_assoc.
  - now apply Forall_app.
  - rewrite map_app. now apply sublist_app.
  - intros ki Hki. apply elem_of_app in Hki as [Hki|Hki]; [now apply Hurl1|now apply Hurl2].
  - exists x2. split; [|assumption].
    rewrite uploads_of_app, Hup1, Hup2, app_nil_r, map_app, app_assoc. reflexivity.
Qed.

Lemma transfers_from_weaken bucket public keys keys' st st' ok :
  keys `sublist_of` keys' ->
  transfers_from bucket public keys st st' ok ->
  transfers_from bucket public keys' st st' ok.
Proof.
  intros Hsub (calls & entries & Ht & Hu & Hf & Hk & Hurl & Hex).
  exists calls, entries. split_and!; try assumption. now transitivity keys.
Qed.

Lemma upload_reports_transfers (w : Storage.world) bucket public file_id rs st st' ok :
  Storage.upload_reports w bucket public file_id rs st = (st', ok) ->
  transfers_from bucket public (map (fun r => r.1.1) rs) st st' ok.
Proof.
  revert st. induction rs as [|[[key lp] ct] rest IH]; intros st H; simpl in H.
  - injection H as <- <-. apply transfers_from_refl.
  - cbn [map fst]. destruct (Storage.path_exists w lp); cbn [negb] in H.
    + destruct (Storage.upload_file _ _ _ _ _ _ _ _) as [st1 [|]] eqn:E.
      * apply (transfers_from_trans _ _ [key] _ st st1 st' ok);
          [now apply transfers_from_file in E|now apply IH].
      * injection H as <- <-. apply transfers_from_file in E.
        eapply transfers_from_weaken; [|exact E].
        apply sublist_skip, sublist_nil_l.
    + apply transfers_from_skip. now apply IH.
Qed.

Lemma ends_with_slash_app (u : string) : Storage.ends_with_slash (u +:+ "/") = true.
Proof.
  induction u as [|c t IH]; [reflexivity|].
  change (String c t +:+ "/") with (String c (t +:+ "/")).
  cbn [Storage.ends_with_slash]. destruct (t +:+ "/") eqn:E; [|exact IH].
  destruct t; discriminate E.
Qed.

(** The course of [upload_artifacts]: skipped without a call; or a client is
    built, the buckets are listed, the bucket is created when the listing
    lacks it, and then files are transferred. *)
Lemma upload_artifacts_phases (w : Storage.world) (file_id source_path report_dir : string)
    (tr : list Storage.op) (res : result Storage.upload_result) :
  Storage.upload_artifacts w file_id source_path report_dir = (tr, res) ->
  let bucket := Storage.getenv_default w "SUPABASE_STORAGE_BUCKET" "etl-artifacts" in
  let public :=
    Storage._bool_env (Some (Storage.getenv_default w "SUPABASE_STORAGE_PUBLIC" "false")) in
  (tr = [] /\ res = Ok {| Storage.status := "skipped"; Storage.paths := [] |})
  \/ exists u key url,
       Storage.getenv w "SUPABASE_URL" = Some u
       /\ Storage.getenv w "SUPABASE_SERVICE_ROLE_KEY" = Some key
       /\ (url = u \/ url = u +:+ "/") /\ Storage.ends_with_slash url = true
       /\ ((Storage.create_client_ok w = false
            /\ tr = [Storage.create_client url key]
            /\ res = Raise (ClientError "create_client"))
           \/ (Storage.create_client_ok w = true /\ Storage.buckets w = None
               /\ tr = [Storage.create_client url key; Storage.list_buckets]
               /\ res = Ok {| Storage.status := "failed"; Storage.paths := [] |})
           \/ (Storage.create_client_ok w = true
               /\ (exists names, Storage.buckets w = Some names /\ bucket ∉ names)
               /\ Storage.create_bucket_ok w = false
               /\ tr = [Storage.create_client url key; Storage.list_buckets;
                        Storage.create_bucket bucket public]
               /\ res = Ok {| Storage.status := "failed"; Storage.paths := [] |})
           \/ (Storage.create_client_ok w = true
               /\ exists names setup st' ok,
                    Storage.buckets w = Some names
                    /\ ((bucket ∈ names
                         /\ setup = [Storage.create_client url key; Storage.list_buckets])
                        \/ ((bucket ∉ names) /\ Storage.create_bucket_ok w = true
                            /\ setup = [Storage.create_client url key; Storage.list_buckets;
                                        Storage.create_bucket bucket public]))
                    /\ transfers_from bucket public
                         ["source_file"; "data_quality_json"; "data_quality_html";
                          "inconsistencies_csv"]
                         {| Storage.trace := setup; Storage.uploaded := [] |} st' ok
                    /\ tr = Storage.trace st'
                    /\ res = Ok {| Storage.status := if ok then "success" else "failed";
                                   Storage.paths := Storage.uploaded st' |})).
Proof.
  intros H bucket public. unfold Storage.upload_artifacts in H.
  fold bucket in H. fold public in H.
  unfold Storage.get_supabase_client in H.
  destruct (Storage.supabase_installed w); cbn [negb] in H;
    [|injection H as <- <-; now left].
  destruct (Storage.getenv w "SUPABASE_URL") as [u|] eqn:Eu;
    [|injection H as <- <-; now left].
  destruct (Storage.getenv w "SUPABASE_SERVICE_ROLE_KEY") as [key|] eqn:Ek;
    [|injection H as <- <-; now left].
  destruct (negb (Storage.truthy (Some u)) || negb (Storage.truthy (Some key)));
    [injection H as <- <-; now left|].
  right. cbn [app] in H.
  set (url := if Storage.ends_with_slash u then u else u +:+ "/") in H.
  exists u, key, url. split_and!; try reflexivity.
  { subst url. destruct (Storage.ends_with_slash u); auto. }
  { subst url. destruct (Storage.ends_with_slash u) eqn:E; [exact E|apply ends_with_slash_app]. }
  destruct (Storage.create_client_ok w); [|injection H as <- <-; left; auto].
  right. unfold Storage.ensure_bucket in H. cbn [app] in H.
  destruct (Storage.buckets w) as [names|]; [|injection H as <- <-; left; auto].
  right.
  set (setup := if bool_decide (bucket ∈ names)
                then [Storage.create_client url key; Storage.list_buckets]
                else [Storage.create_client url key; Storage.list_buckets;
                      Storage.create_bucket bucket public]).
  assert (Hrun : forall st' ok,
            transfers_from bucket public
              ["source_file"; "data_quality_json"; "data_quality_html"; "inconsistencies_csv"]
              {| Storage.trace := setup; Storage.uploaded := [] |} st' ok ->
            (bucket ∈ names \/ Storage.create_bucket_ok w = true) ->
            exists names0 setup0 st0 ok0,
              Some names = Some names0
              /\ ((bucket ∈ names0
                   /\ setup0 = [Storage.create_client url key; Storage.list_buckets])
                  \/ ((bucket ∉ names0) /\ Storage.create_bucket_ok w = true
                      /\ setup0 = [Storage.create_client url key; Storage.list_buckets;
                                   Storage.create_bucket bucket public]))
              /\ transfers_from bucket public
                   ["source_file"; "data_quality_json"; "data_quality_html";
                    "inconsistencies_csv"]
                   {| Storage.trace := setup0; Storage.uploaded := [] |} st0 ok0
              /\ Storage.trace st' = Storage.trace st0
              /\ Ok {| Storage.status := if ok then "success" else "failed";
                       Storage.paths := Storage.uploaded st' |}
                 = Ok {| Storage.status := if ok0 then "success" else "failed";
                         Storage.paths := Storage.uploaded st0 |}).
  { intros st' ok Htr Hb. exists names, setup, st', ok. split_and!; try reflexivity; [|exact Htr].
    subst setup. case_bool_decide; [now left|right].
    destruct Hb as [?|?]; [contradiction|auto]. }
  assert (Hgo : forall (good : bucket ∈ names \/ Storage.create_bucket_ok w = true),
            (let st := {| Storage.trace := setup; Storage.uploaded := [] |} in
             let source_step :=
               if Storage.path_exists w source_path then
                 Storage.upload_file w bucket public "source_file" source_path
                   ("sources/" +:+ file_id +:+ "/" +:+ Storage.basename source_path)
                   "application/vnd.openxmlformats-officedocument.spreadsheetml.sheet" st
               else (st, true) in
             match source_step with
             | (st, false) =>
                 (Storage.trace st,
                  Ok {| Storage.status := "failed"; Storage.paths := Storage.uploaded st |})
             | (st, true) =>
                 match Storage.upload_reports w bucket public file_id
                         (Storage.reports report_dir) st with
                 | (st, true) =>
                     (Storage.trace st,
                      Ok {| Storage.status := "success"; Storage.paths := Storage.uploaded st |})
                 | (st, false) =>
                     (Storage.trace st,
                      Ok {| Storage.status := "failed"; Storage.paths := Storage.uploaded st |})
                 end
             end) = (tr, res) ->
            exists names0 setup0 st0 ok0,
              Some names = Some names0
              /\ ((bucket ∈ names0
                   /\ setup0 = [Storage.create_client url key; Storage.list_buckets])
                  \/ ((bucket ∉ names0) /\ Storage.create_bucket_ok w = true
                      /\ setup0 = [Storage.create_client url key; Storage.list_buckets;
                                   Storage.create_bucket bucket public]))
              /\ transfers_from bucket public
                   ["source_file"; "data_quality_json"; "data_quality_html";
                    "inconsistencies_csv"]
                   {| Storage.trace := setup0; Storage.uploaded := [] |} st0 ok0
              /\ tr = Storage.trace st0
              /\ res = Ok {| Storage.status := if ok0 then "success" else "failed";
                             Storage.paths := Storage.uploaded st0 |}).
  { intros good Hres. cbv zeta in Hres.
    destruct (Storage.path_exists w source_path).
    - destruct (Storage.upload_file _ _ _ _ _ _ _ _) as [st1 [|]] eqn:E.
      + destruct (Storage.upload_reports _ _ _ _ _ _) as [st2 ok] eqn:E2.
        apply transfers_from_file in E. apply upload_reports_transfers in E2.
        pose proof (transfers_from_trans _ _ _ _ _ _ _ _ E E2) as Htr.
        destruct ok; injection Hres as <- <-; now apply (Hrun st2 _ Htr).
      + apply transfers_from_file in E. injection Hres as <- <-.
        apply (Hrun st1 false); [|assumption].
        eapply transfers_from_weaken; [|exact E]. apply sublist_skip, sublist_nil_l.
    - destruct (Storage.upload_reports _ _ _ _ _ _) as [st2 ok] eqn:E2.
      apply upload_reports_transfers in E2. apply (transfers_from_skip _ _ "source_file") in E2.
      destruct ok; injection Hres as <- <-; now apply (Hrun st2 _ E2). }
  subst setup. case_bool_decide as Hin.
  - right. split; [reflexivity|]. apply Hgo; [now left|exact H].
  - destruct (Storage.create_bucket_ok w) eqn:Ecb.
    + right. split; [reflexivity|]. apply Hgo; [now right|exact H].
    + injection H as <- <-. left. split_and!; eauto.
Qed.

Lemma uploads_of_setup url key bucket public :
  uploads_of [Storage.create_client url key; Storage.list_buckets] = []
  /\ uploads_of [Storage.create_client url key; Storage.list_buckets;
                 Storage.create_bucket bucket public] = [].
Proof. split; reflexivity. Qed.

(** X19.  When [upload_artifacts] returns a dictionary, its status is
    [skipped], [failed] or [success]; the entries of [paths] are, in order,
    the uploads made to the configured bucket, except that a failed run may
    have tried one more upload after them; the keys are taken in order from
    [source_file] and the three report names; and an entry has a [url] only
    when the bucket is public. *)
Theorem upload_artifacts_paths_uploaded (w : Storage.world)
    (file_id source_path report_dir : string)
    (tr : list Storage.op) (r : Storage.upload_result) :
  Storage.upload_artifacts w file_id source_path report_dir = (tr, Ok r) ->
  let bucket := Storage.getenv_default w "SUPABASE_STORAGE_BUCKET" "etl-artifacts" in
  let public :=
    Storage._bool_env (Some (Storage.getenv_default w "SUPABASE_STORAGE_PUBLIC" "false")) in
  Storage.status r ∈ ["skipped"; "failed"; "success"]
  /\ (Storage.status r = "skipped" -> tr = [] /\ Storage.paths r = [])
  /\ map fst (Storage.paths r)
       `sublist_of` ["source_file"; "data_quality_json"; "data_quality_html";
                     "inconsistencies_csv"]
  /\ (forall ki, ki ∈ Storage.paths r -> Storage.url ki.2 <> None -> public = true)
  /\ exists extra,
       uploads_of tr = map (fun ki => (bucket, Storage.path ki.2)) (Storage.paths r) ++ extra
       /\ length extra <= 1
       /\ (Storage.status r = "success" -> extra = []).
Proof.
  intros H bucket public.
  apply upload_artifacts_phases in H. fold bucket in H. fold public in H.
  destruct H as [[-> [= ->]]|(u & key & url & _ & _ & _ & _ & H)].
  { cbn [Storage.status Storage.paths]. split_and!.
    - left.
    - auto.
    - apply sublist_nil_l.
    - intros ki Hki. now apply elem_of_nil in Hki.
    - exists []. split_and!; [reflexivity|simpl; lia|reflexivity]. }
  destruct H as [(_ & _ & [=])|[(_ & _ & -> & [= ->])|[(_ & _ & _ & -> & [= ->])|H]]].
  1, 2: cbn [Storage.status Storage.paths]; split_and!;
    [right; left|discriminate|apply sublist_nil_l
    |intros ki Hki; now apply elem_of_nil in Hki
    |exists []; split_and!; [reflexivity|simpl; lia|reflexivity]].
  destruct H as (_ & names & setup & st' & ok & _ & Hsetup & Htr & -> & [= ->]).
  destruct Htr as (calls & entries & Ht & Hu & Hf & Hk & Hurl & extra & Hup & Hx).
  cbn [Storage.trace Storage.uploaded app] in Ht, Hu.
  cbn [Storage.status Storage.paths]. rewrite Hu.
  assert (Hs : uploads_of setup = []).
  { destruct Hsetup as [[_ ->]|(_ & _ & ->)]; reflexivity. }
  split_and!.
  - destruct ok; [right; right; left|right; left].
  - destruct ok; discriminate.
  - exact Hk.
  - exact Hurl.
  - exists extra. rewrite Ht, uploads_of_app, Hs, Hup. split_and!; [reflexivity| |].
    + destruct ok; [subst extra; simpl; lia|exact Hx].
    + destruct ok; [intros _; exact Hx|discriminate].
Qed.

Lemma upload_artifacts_paths_uploaded_witness :
  exists tr r,
    Storage.upload_artifacts Storage.configured "file-1" "data/oferta.xlsx" "reports"
    = (tr, Ok r)
    /\ uploads_of tr
       = map (fun ki => ("etl-artifacts", Storage.path ki.2)) (Storage.paths r)
    /\ length (Storage.paths r) = 2.
Proof.
  destruct (Storage.upload_artifacts Storage.configured "file-1" "data/oferta.xlsx" "reports")
    as [tr [r|e]] eqn:E; [|vm_compute in E; discriminate E].
  exists tr, r. split; [reflexivity|].
  destruct (upload_artifacts_paths_uploaded _ _ _ _ _ _ E)
    as (_ & _ & _ & _ & extra & Hup & _ & Hs).
  vm_compute in E. injection E as _ <-.
  split; [|reflexivity]. rewrite Hup, Hs, app_nil_r; reflexivity.
Defined.

(** X20.  The calls of [upload_artifacts] come in two phases: first the
    set-up, then only reads and uploads of files.  The set-up is empty
    exactly when the upload is skipped; otherwise it starts with
    [create_client] on the [SUPABASE_URL], with a slash appended when it does
    not end with one, and the service-role key, continues with
    [list_buckets], and creates the configured bucket only when the listing
    does not name it.  No file is read or uploaded unless the bucket was
    listed or its creation went through, and the only exception that leaves
    [upload_artifacts] is that of [create_client]. *)
Theorem upload_artifacts_setup_first (w : Storage.world)
    (file_id source_path report_dir : string)
    (tr : list Storage.op) (res : result Storage.upload_result) :
  Storage.upload_artifacts w file_id source_path report_dir = (tr, res) ->
  let bucket := Storage.getenv_default w "SUPABASE_STORAGE_BUCKET" "etl-artifacts" in
  let public :=
    Storage._bool_env (Some (Storage.getenv_default w "SUPABASE_STORAGE_PUBLIC" "false")) in
  exists setup transfers,
    tr = setup ++ transfers
    /\ Forall (fun o => is_transfer o = true) transfers
    /\ ((setup = [] /\ transfers = []
         /\ res = Ok {| Storage.status := "skipped"; Storage.paths := [] |})
        \/ exists u key url rest,
             setup = Storage.create_client url key :: rest
             /\ Storage.getenv w "SUPABASE_URL" = Some u
             /\ Storage.getenv w "SUPABASE_SERVICE_ROLE_KEY" = Some key
             /\ (url = u \/ url = u +:+ "/") /\ Storage.ends_with_slash url = true
             /\ res <> Ok {| Storage.status := "skipped"; Storage.paths := [] |}
             /\ ((rest = [] /\ transfers = [] /\ Storage.create_client_ok w = false
                  /\ res = Raise (ClientError "create_client"))
                 \/ (rest = [Storage.list_buckets]
                     /\ (transfers <> [] ->
                         exists names, Storage.buckets w = Some names /\ bucket ∈ names))
                 \/ (rest = [Storage.list_buckets; Storage.create_bucket bucket public]
                     /\ (exists names, Storage.buckets w = Some names /\ bucket ∉ names)
                     /\ (transfers <> [] -> Storage.create_bucket_ok w = true))))
    /\ (forall e, res = Raise e -> e = ClientError "create_client").
Proof.
  intros H bucket public.
  apply upload_artifacts_phases in H. fold bucket in H. fold public in H.
  destruct H as [[-> ->]|(u & key & url & Hu & Hk & Hurl & Hslash & H)].
  { exists [], []. split_and!; [reflexivity|constructor|now left|discriminate]. }
  destruct H as [(Hcc & -> & ->)|[(_ & Hb & -> & ->)|[(_ & Hb & Hcb & -> & ->)|H]]].
  - exists [Storage.create_client url key], [].
    split_and!; [reflexivity|constructor| |now intros e [= <-]].
    right. exists u, key, url, []. split_and!; try assumption; try reflexivity;
      [discriminate|]. left. auto.
  - exists [Storage.create_client url key; Storage.list_buckets], [].
    split_and!; [reflexivity|constructor| |discriminate].
    right. exists u, key, url, [Storage.list_buckets].
    split_and!; try assumption; try reflexivity; [discriminate|].
    right. left. split; [reflexivity|]. intros Hne. now contradiction Hne.
  - exists [Storage.create_client url key; Storage.list_buckets;
            Storage.create_bucket bucket public], [].
    split_and!; [reflexivity|constructor| |discriminate].
    right. exists u, key, url, [Storage.list_buckets; Storage.create_bucket bucket public].
    split_and!; try assumption; try reflexivity; [discriminate|].
    right. right. split_and!; [reflexivity|exact Hb|]. intros Hne. now contradiction Hne.
  - destruct H as (_ & names & setup & st' & ok & Hb & Hsetup & Htr & -> & ->).
    destruct Htr as (calls & entries & Ht & _ & Hf & _).
    cbn [Storage.trace] in Ht.
    exists setup, calls. split_and!; [exact Ht|exact Hf| |discriminate].
    right. destruct Hsetup as [[Hin ->]|(Hnin & Hcb & ->)].
    + exists u, key, url, [Storage.list_buckets].
      split_and!; try assumption; try reflexivity; [destruct ok; discriminate|].
      right. left. split; [reflexivity|]. intros _. eauto.
    + exists u, key, url, [Storage.list_buckets; Storage.create_bucket bucket public].
      split_and!; try assumption; try reflexivity; [destruct ok; discriminate|].
      right. right. split_and!; [reflexivity|eauto|auto].
Qed.

Lemma upload_artifacts_setup_first_witness :
  exists setup transfers,
    (Storage.upload_artifacts Storage.configured "file-1" "data/oferta.xlsx" "reports").1
    = setup ++ transfers
    /\ Forall (fun o => is_transfer o = true) transfers.
Proof.
  destruct (Storage.upload_artifacts Storage.configured "file-1" "data/oferta.xlsx" "reports")
    as [tr res] eqn:E.
  destruct (upload_artifacts_setup_first _ _ _ _ _ _ E) as (setup & transfers & Ht & Hf & _).
  exists setup, transfers. split; [exact Ht|exact Hf].
Defined.

(** ** The splitter of SQL scripts *)

Section SqlFacts.
Import Sql.

Lemma find_here sub s : starts_with sub s = true -> find sub s = Some 0.
Proof. intros H. destruct s; simpl; now rewrite H. Qed.

Lemma find_later sub c t :
  starts_with sub (c :: t) = false -> find sub (c :: t) = S <$> find sub t.
Proof. intros H. cbn [find]. now rewrite H. Qed.

Lemma find_positive sub s e :
  starts_with sub s = false -> find sub s = Some e -> 0 < e.
Proof.
  intros H He. destruct s as [|c t].
  - simpl in He. rewrite H in He. discriminate.
  - rewrite (find_later _ _ _ H) in He. destruct (find sub t); [|discriminate].
    injection He as <-. lia.
Qed.

Lemma length_drop_lt {A} n (s : list A) : 0 < n -> s <> [] -> length (drop n s) < length s.
Proof.
  intros Hn Hs. rewrite length_drop. destruct s; [contradiction|]. simpl. lia.
Qed.

(** Every turn that goes on moves the position forward. *)
Lemma turn_of_progress s st s' st' :
  s <> [] -> turn_of s st = Continue s' st' -> length s' < length s.
Proof.
  intros Hs H. unfold turn_of in H.
  assert (Hscan : scan_char s st = Continue s' st' -> length s' < length s).
  { clear H. unfold scan_char. destruct s as [|ch rest]; [contradiction|].
    intros H. cbv zeta in H.
    destruct (negb (in_single st) && negb (in_double st) && starts_with [dash; dash] (ch :: rest))
      eqn:E1.
    { destruct (find [newline] (ch :: rest)) as [e|] eqn:Ef; [|discriminate].
      injection H as <- _. apply length_drop_lt; [|discriminate].
      apply (find_positive [newline] (ch :: rest)); [|assumption].
      apply andb_true_iff in E1 as [_ E1]. cbn [starts_with] in E1 |- *.
      apply andb_true_iff in E1 as [E1 _]. apply N.eqb_eq in E1. subst ch. reflexivity. }
    destruct (negb (in_single st) && negb (in_double st) && starts_with [slash; star] (ch :: rest)).
    { destruct (find [star; slash] (drop 2 (ch :: rest))) as [e|]; [|discriminate].
      injection H as <- _. rewrite length_drop. simpl. lia. }
    destruct (negb (in_double st) && (ch =? quote)%N).
    { destruct (in_single st && starts_with [quote] rest); injection H as <- _;
        rewrite ?length_drop; simpl; lia. }
    destruct (negb (in_single st) && (ch =? dquote)%N).
    { destruct (in_double st && starts_with [dquote] rest); injection H as <- _;
        rewrite ?length_drop; simpl; lia. }
    destruct (if negb (in_single st) && negb (in_double st) && (ch =? dollar)%N
              then find [dollar] rest else None) as [e|].
    { injection H as <- _. rewrite length_drop. simpl. lia. }
    destruct ((ch =? semicolon)%N && (negb (in_single st) && negb (in_double st)));
      injection H as <- _; simpl; lia. }
  destruct (dollar_tag st) as [[|c t]|]; try (now apply Hscan).
  unfold in_dollar in H. destruct (find (c :: t) s) as [e|].
  - injection H as <- _. apply length_drop_lt; [simpl; lia|assumption].
  - injection H as <- _. destruct s; [contradiction|simpl; lia].
Qed.

Lemma loop_total fuel s st : length s < fuel -> exists l, loop fuel s st = Some l.
Proof.
  revert s st. induction fuel as [|fuel IH]; intros s st Hlen; [lia|].
  cbn [loop]. destruct s as [|c t]; [eauto|].
  destruct (turn_of (c :: t) st) as [s' st'|st'] eqn:E; [|eauto].
  apply IH. apply turn_of_progress in E; [|discriminate]. lia.
Qed.

Lemma loop_fuel fuel fuel' s st :
  length s < fuel -> length s < fuel' -> loop fuel s st = loop fuel' s st.
Proof.
  revert fuel' s st. induction fuel as [|fuel IH]; intros fuel' s st H H'; [lia|].
  destruct fuel' as [|fuel']; [lia|]. cbn [loop]. destruct s as [|c t]; [reflexivity|].
  destruct (turn_of (c :: t) st) as [s' st'|st'] eqn:E; [|reflexivity].
  apply turn_of_progress in E; [|discriminate]. apply IH; lia.
Qed.

(** The loop, turn by turn. *)
Lemma scan_nil st : scan [] st = Some (with_statement st).
Proof. reflexivity. Qed.

Lemma scan_turn s st :
  s <> [] ->
  scan s st = match turn_of s st with
              | Continue s' st' => scan s' st'
              | Break st' => Some (with_statement st')
              end.
Proof.
  intros Hs. unfold scan. destruct s as [|c t]; [contradiction|].
  change (loop (S (length (c :: t))) (c :: t) st)
    with (match turn_of (c :: t) st with
          | Continue s' st' => loop (length (c :: t)) s' st'
          | Break st' => Some (with_statement st')
          end).
  destruct (turn_of (c :: t) st) as [s' st'|st'] eqn:E; [|reflexivity].
  apply turn_of_progress in E; [|discriminate]. apply loop_fuel; lia.
Qed.

Lemma py_lstrip_head s c : head (py_lstrip s) = Some c -> py_isspace c = false.
Proof.
  induction s as [|d t IH]; simpl; [discriminate|].
  destruct (py_isspace d) eqn:E; [exact IH|]. simpl. now intros [= <-].
Qed.

Lemma py_rstrip_head s c : head (py_rstrip s) = Some c -> head s = Some c.
Proof.
  destruct s as [|d t]; simpl; [discriminate|].
  destruct (py_rstrip t); [destruct (py_isspace d)|]; simpl; congruence.
Qed.

Lemma py_rstrip_last s c : last (py_rstrip s) = Some c -> py_isspace c = false.
Proof.
  induction s as [|d t IH]; simpl; [discriminate|].
  destruct (py_rstrip t) as [|x u] eqn:E.
  - destruct (py_isspace d) eqn:Ed; simpl; [discriminate|]. now intros [= <-].
  - rewrite last_cons. destruct (last (x :: u)) eqn:El; [|apply last_None in El; discriminate El].
    intros [= <-]. now apply IH.
Qed.

Lemma py_strip_trimmed s : py_strip s <> [] -> trimmed (py_strip s).
Proof.
  intros Hne. split_and!; [assumption| |].
  - intros c Hc. unfold py_strip in Hc. apply py_rstrip_head in Hc.
    now apply py_lstrip_head in Hc.
  - intros c. apply py_rstrip_last.
Qed.

Lemma with_statement_trimmed st :
  Forall trimmed (statements st) -> Forall trimmed (with_statement st).
Proof.
  intros H. unfold with_statement. destruct (py_strip (buf st)) as [|c t] eqn:E; [assumption|].
  apply Forall_app. split; [assumption|]. constructor; [|constructor].
  rewrite <- E. apply py_strip_trimmed. now rewrite E.
Qed.

Lemma turn_of_trimmed s st :
  Forall trimmed (statements st) ->
  match turn_of s st with
  | Continue _ st' | Break st' => Forall trimmed (statements st')
  end.
Proof.
  intros H. unfold turn_of.
  assert (Hscan : match scan_char s st with
                  | Continue _ st' | Break st' => Forall trimmed (statements st')
                  end).
  { unfold scan_char. destruct s as [|ch rest]; [assumption|]. cbv zeta.
    repeat match goal with
           | |- context [if ?b then _ else _] => destruct b
           | |- context [match find ?a ?b with _ => _ end] => destruct (find a b)
           end; cbn [statements append set_dollar_tag toggle_single toggle_double
                     close_statement]; try assumption; now apply with_statement_trimmed. }
  destruct (dollar_tag st) as [[|c t]|]; try exact Hscan.
  unfold in_dollar. destruct (find (c :: t) s); assumption.
Qed.

Lemma loop_trimmed fuel s st l :
  Forall trimmed (statements st) -> loop fuel s st = Some l -> Forall trimmed l.
Proof.
  revert s st. induction fuel as [|fuel IH]; intros s st Hst H; [discriminate|].
  cbn [loop] in H. destruct s as [|c t].
  - injection H as <-. now apply with_statement_trimmed.
  - pose proof (turn_of_trimmed (c :: t) st Hst) as Ht.
    destruct (turn_of (c :: t) st) as [s' st'|st'].
    + now apply (IH s' st').
    + injection H as <-. now apply with_statement_trimmed.
Qed.

End SqlFacts.

(** X21.  [_split_sql_statements] returns for every text: each turn of its
    loop moves the position forward, so the loop ends.  No statement it
    returns is empty, and none starts or ends with a whitespace character. *)
Theorem split_sql_statements_trimmed (sql_text : pystr) :
  exists l, Sql._split_sql_statements sql_text = Some l /\ Forall Sql.trimmed l.
Proof.
  unfold Sql._split_sql_statements, Sql.scan.
  destruct (loop_total (S (length sql_text)) sql_text Sql.initial) as [l Hl]; [lia|].
  exists l. split; [exact Hl|]. eapply loop_trimmed; [|exact Hl]. constructor.
Qed.

Section SqlScan.
Import Sql.

Lemma find_None_cons sub c t :
  find sub (c :: t) = None -> starts_with sub (c :: t) = false /\ find sub t = None.
Proof.
  cbn [find]. destruct (starts_with sub (c :: t)); [discriminate|].
  destruct (find sub t); [discriminate|]. auto.
Qed.

Lemma plain_cons c t :
  plain (c :: t) ->
  (c <> quote /\ c <> dquote /\ c <> dollar)
  /\ starts_with [dash; dash] (c :: t) = false
  /\ starts_with [slash; star] (c :: t) = false
  /\ plain t.
Proof.
  intros (Hall & Hd & Hs). apply Forall_cons in Hall as [Hc Hall].
  apply find_None_cons in Hd as [Hd1 Hd2]. apply find_None_cons in Hs as [Hs1 Hs2].
  destruct Hc as (? & ? & ?). unfold plain. split_and!; assumption.
Qed.

Lemma append_append b1 b2 st : append b2 (append b1 st) = append (b1 ++ b2) st.
Proof. unfold append. cbn. now rewrite app_assoc. Qed.

(** A character that opens nothing and is no semicolon goes to the buffer. *)
Lemma turn_of_plain_char c t st :
  neutral st -> c <> quote -> c <> dquote -> c <> dollar -> c <> semicolon ->
  starts_with [dash; dash] (c :: t) = false ->
  starts_with [slash; star] (c :: t) = false ->
  turn_of (c :: t) st = Continue t (append [c] st).
Proof.
  intros (H1 & H2 & H3) Hq Hd Hdl Hs Hdash Hslash.
  unfold turn_of. rewrite H3. unfold scan_char. rewrite H1, H2, Hdash, Hslash.
  apply N.eqb_neq in Hq, Hd, Hdl, Hs. rewrite Hq, Hd, Hdl, Hs. reflexivity.
Qed.

Lemma turn_of_semicolon t st :
  neutral st -> turn_of (semicolon :: t) st = Continue t (close_statement st).
Proof.
  intros (H1 & H2 & H3). unfold turn_of. rewrite H3. unfold scan_char. rewrite H1, H2.
  reflexivity.
Qed.

Lemma with_statement_filter st rest :
  with_statement st ++ rest
  = statements st ++ filter (fun x => x <> []) (py_strip (buf st) :: []) ++ rest.
Proof.
  unfold with_statement. destruct (py_strip (buf st)) as [|c t].
  - rewrite filter_cons_False by (intros H; now apply H). reflexivity.
  - rewrite filter_cons_True by discriminate. rewrite filter_nil, <- app_assoc. reflexivity.
Qed.

Lemma filter_strip_cons b rest :
  filter (fun x => x <> []) (map py_strip (b :: rest))
  = filter (fun x => x <> []) (py_strip b :: [])
    ++ filter (fun x => x <> []) (map py_strip rest).
Proof. cbn [map]. apply (filter_app _ [py_strip b]). Qed.

Lemma scan_plain s :
  forall st p ps,
    neutral st -> plain s -> py_split_on semicolon s = p :: ps ->
    scan s st
    = Some (statements st ++ filter (fun x => x <> []) (map py_strip ((buf st ++ p) :: ps))).
Proof.
  induction s as [|c t IH]; intros st p ps Hn Hp Hsplit.
  - injection Hsplit as <- <-. rewrite scan_nil, app_nil_r. f_equal.
    rewrite <- (app_nil_r (with_statement st)), with_statement_filter.
    cbn [map]. now rewrite app_nil_r.
  - apply plain_cons in Hp as ((Hq & Hd & Hdl) & Hdash & Hslash & Hp).
    rewrite scan_turn by discriminate.
    destruct (py_split_on_cons semicolon t) as (p' & ps' & Ht).
    cbn [py_split_on] in Hsplit. rewrite Ht in Hsplit.
    destruct (c =? semicolon)%N eqn:Ec.
    + apply N.eqb_eq in Ec. subst c. injection Hsplit as <- <-.
      rewrite turn_of_semicolon by assumption.
      rewrite (IH (close_statement st) p' ps'); [|now destruct Hn as (? & ? & ?)|assumption
                                                 |assumption].
      f_equal. cbn [statements buf close_statement app]. rewrite app_nil_r.
      rewrite with_statement_filter, (filter_strip_cons (buf st)). reflexivity.
    + apply N.eqb_neq in Ec. injection Hsplit as <- <-.
      rewrite turn_of_plain_char by assumption.
      rewrite (IH (append [c] st) p' ps'); [|now destruct Hn as (? & ? & ?)|assumption
                                             |assumption].
      f_equal. cbn [statements buf append]. now rewrite <- app_assoc.
Qed.

(** Inside a single-quoted literal every character but the quote goes to the
    buffer. *)
Lemma scan_in_single body rest st :
  in_single st = true -> in_double st = false -> dollar_tag st = None ->
  quote ∉ body ->
  scan (body ++ quote :: rest) st = scan (quote :: rest) (append body st).
Proof.
  revert st. induction body as [|c t IH]; intros st H1 H2 H3 Hb.
  - cbn [app]. f_equal. unfold append. rewrite app_nil_r. now destruct st.
  - apply not_elem_of_cons in Hb as [Hc Hb].
    cbn [app]. rewrite scan_turn by discriminate.
    assert (Ht : turn_of (c :: t ++ quote :: rest) st
                 = Continue (t ++ quote :: rest) (append [c] st)).
    { unfold turn_of. rewrite H3. unfold scan_char. rewrite H1, H2.
      assert (Hq : (c =? quote)%N = false) by (apply N.eqb_neq; congruence).
      rewrite Hq. cbn [negb andb]. now rewrite andb_false_r. }
    rewrite Ht, IH by assumption. now rewrite append_append.
Qed.

Lemma find_single c pre post :
  c ∉ pre -> find [c] (pre ++ c :: post) = Some (length pre).
Proof.
  induction pre as [|d t IH]; intros Hc.
  - cbn [app find starts_with]. now rewrite N.eqb_refl.
  - apply not_elem_of_cons in Hc as [Hcd Hc]. cbn [app].
    rewrite find_later; [now rewrite IH|].
    cbn [starts_with]. apply N.eqb_neq in Hcd. now rewrite Hcd.
Qed.

Lemma starts_with_app p s : starts_with p (p ++ s) = true.
Proof. induction p as [|a p IH]; [reflexivity|]. cbn. now rewrite N.eqb_refl. Qed.

Lemma find_after c tag pre post :
  c ∉ pre -> find (c :: tag) (pre ++ (c :: tag) ++ post) = Some (length pre).
Proof.
  induction pre as [|d t IH]; intros Hc.
  - cbn [app length]. apply find_here. apply (starts_with_app (c :: tag)).
  - apply not_elem_of_cons in Hc as [Hcd Hc].
    change ((d :: t) ++ (c :: tag) ++ post) with (d :: (t ++ (c :: tag) ++ post)).
    rewrite find_later; [now rewrite IH|].
    cbn [starts_with]. apply N.eqb_neq in Hcd. now rewrite Hcd.
Qed.

End SqlScan.

(** X22.  On a text without quotes, dollar signs and comments the splitter
    is the split on semicolons: the pieces between the semicolons, stripped,
    without the empty ones. *)
Theorem split_sql_statements_plain (sql_text : pystr) :
  Sql.plain sql_text ->
  Sql._split_sql_statements sql_text
  = Some (filter (fun x => x <> []) (map py_strip (py_split_on Sql.semicolon sql_text))).
Proof.
  intros Hp. destruct (py_split_on_cons Sql.semicolon sql_text) as (p & ps & Hs).
  unfold Sql._split_sql_statements.
  rewrite (scan_plain sql_text Sql.initial p ps); [|repeat split|assumption|assumption].
  now rewrite Hs.
Qed.

Lemma split_sql_statements_plain_witness :
  Sql._split_sql_statements (utf8 " create table a (x int) ; ; drop table b;")
  = Some [utf8 "create table a (x int)"; utf8 "drop table b"].
Proof.
  rewrite (split_sql_statements_plain (utf8 " create table a (x int) ; ; drop table b;")).
  - reflexivity.
  - split_and!; [|reflexivity|reflexivity].
    apply (bool_decide_unpack _). vm_compute. exact I.
Defined.

(** X23.  A single-quoted literal is taken over whole: from a position
    outside quotes, a quote, a body without a quote and the closing quote,
    not followed by another quote, all go to the buffer, whatever the body
    holds - semicolons, dashes, dollar signs - and the scan goes on outside
    quotes after the literal. *)
Theorem single_quoted_literal_kept (body rest : pystr) (st : Sql.state) :
  Sql.neutral st -> Sql.quote ∉ body -> Sql.starts_with [Sql.quote] rest = false ->
  Sql.scan (Sql.quote :: body ++ Sql.quote :: rest) st
  = Sql.scan rest (Sql.append (Sql.quote :: body ++ [Sql.quote]) st).
Proof.
  intros (H1 & H2 & H3) Hb Hrest.
  rewrite scan_turn by discriminate.
  assert (Hopen : Sql.turn_of (Sql.quote :: body ++ Sql.quote :: rest) st
                  = Sql.Continue (body ++ Sql.quote :: rest)
                      (Sql.append [Sql.quote] (Sql.toggle_single st))).
  { unfold Sql.turn_of. rewrite H3. unfold Sql.scan_char. rewrite H1, H2. reflexivity. }
  rewrite Hopen.
  rewrite scan_in_single; [|cbn; now rewrite H1|exact H2|exact H3|exact Hb].
  rewrite scan_turn by discriminate.
  assert (Hclose : forall st1, Sql.in_single st1 = true -> Sql.in_double st1 = false ->
            Sql.dollar_tag st1 = None ->
            Sql.turn_of (Sql.quote :: rest) st1
            = Sql.Continue rest (Sql.append [Sql.quote] (Sql.toggle_single st1))).
  { intros st1 G1 G2 G3. unfold Sql.turn_of. rewrite G3. unfold Sql.scan_char.
    rewrite G1, G2, Hrest. reflexivity. }
  rewrite Hclose; [|cbn; now rewrite H1|exact H2|exact H3].
  f_equal. destruct st as [sts b s1 s2 tag]. cbn in H1, H2, H3. subst.
  unfold Sql.append, Sql.toggle_single. cbn. f_equal.
  now rewrite <- !app_assoc.
Qed.

Lemma single_quoted_literal_kept_witness :
  Sql._split_sql_statements (utf8 "select 'a;b--c' ; select 2")
  = Some [utf8 "select 'a;b--c'"; utf8 "select 2"].
Proof.
  unfold Sql._split_sql_statements.
  assert (Hpre : Sql.scan (utf8 "select 'a;b--c' ; select 2") Sql.initial
                 = Sql.scan (Sql.quote :: utf8 "a;b--c" ++ Sql.quote :: utf8 " ; select 2")
                     (Sql.append (utf8 "select ") Sql.initial))
    by reflexivity.
  rewrite Hpre.
  rewrite (single_quoted_literal_kept (utf8 "a;b--c") (utf8 " ; select 2")
             (Sql.append (utf8 "select ") Sql.initial)).
  - reflexivity.
  - repeat split.
  - apply (bool_decide_unpack _). vm_compute. exact I.
  - reflexivity.
Defined.

(** X24.  A dollar-quoted body is taken over whole: from a position outside
    quotes, a tag [$name$], a body without a dollar sign and the same tag
    again all go to the buffer, whatever else the body holds, and the scan
    goes on outside quotes after the closing tag. *)
Theorem dollar_quoted_body_kept (name body rest : pystr) (st : Sql.state) :
  Sql.neutral st -> Sql.dollar ∉ name -> Sql.dollar ∉ body ->
  let tag := Sql.dollar :: name ++ [Sql.dollar] in
  Sql.scan (tag ++ body ++ tag ++ rest) st
  = Sql.scan rest (Sql.append (tag ++ body ++ tag) st).
Proof.
  intros (H1 & H2 & H3) Hname Hbody tag.
  rewrite scan_turn by discriminate.
  assert (Hopen : Sql.turn_of (tag ++ body ++ tag ++ rest) st
                  = Sql.Continue (body ++ tag ++ rest)
                      (Sql.set_dollar_tag (Some tag) (Sql.append tag st))).
  { unfold Sql.turn_of. rewrite H3. subst tag.
    change ((Sql.dollar :: name ++ [Sql.dollar]) ++ body
            ++ (Sql.dollar :: name ++ [Sql.dollar]) ++ rest)
      with (Sql.dollar :: ((name ++ [Sql.dollar]) ++ body
            ++ (Sql.dollar :: name ++ [Sql.dollar]) ++ rest)).
    unfold Sql.scan_char. rewrite H1, H2.
    rewrite <- (app_assoc name [Sql.dollar]). cbn [app].
    change (negb false && negb false && Sql.starts_with [Sql.dash; Sql.dash] (Sql.dollar :: ?x))
      with false.
    cbn [negb andb Sql.starts_with N.eqb Sql.dollar Sql.dash Sql.slash Sql.quote Sql.dquote
         Pos.eqb].
    rewrite (find_single 36%N name _ Hname).
    replace (length name + 2) with (S (length (name ++ [36%N])))
      by (rewrite length_app; simpl; lia).
    cbn [take drop].
    replace (name ++ Sql.dollar :: body ++ Sql.dollar :: (name ++ [Sql.dollar]) ++ rest)
      with ((name ++ [36%N]) ++ (body ++ Sql.dollar :: (name ++ [Sql.dollar]) ++ rest))
      by (now rewrite <- app_assoc).
    rewrite take_app_length, drop_app_length. reflexivity. }
  rewrite Hopen.
  assert (Hne : body ++ tag ++ rest <> []) by (subst tag; now destruct body).
  rewrite scan_turn by exact Hne.
  assert (Hclose : Sql.turn_of (body ++ tag ++ rest)
                     (Sql.set_dollar_tag (Some tag) (Sql.append tag st))
                   = Sql.Continue rest
                       (Sql.set_dollar_tag None
                          (Sql.append (body ++ tag)
                             (Sql.set_dollar_tag (Some tag) (Sql.append tag st))))).
  { unfold Sql.turn_of. cbn [Sql.dollar_tag Sql.set_dollar_tag]. subst tag.
    unfold Sql.in_dollar.
    rewrite (find_after Sql.dollar (name ++ [Sql.dollar]) body rest Hbody).
    cbv zeta. rewrite <- length_app, app_assoc, take_app_length, drop_app_length.
    reflexivity. }
  rewrite Hclose. f_equal.
  destruct st as [sts b s1 s2 dt]. cbn in H1, H2, H3. subst.
  unfold Sql.append, Sql.set_dollar_tag.
  cbn [Sql.statements Sql.buf Sql.in_single Sql.in_double Sql.dollar_tag]. f_equal.
  symmetry. apply app_assoc.
Qed.

Lemma dollar_quoted_body_kept_witness :
  Sql._split_sql_statements (utf8 "$fn$ begin; end; $fn$; select 1")
  = Some [utf8 "$fn$ begin; end; $fn$"; utf8 "select 1"].
Proof.
  unfold Sql._split_sql_statements.
  etransitivity;
    [apply (dollar_quoted_body_kept (utf8 "fn") (utf8 " begin; end; ") (utf8 "; select 1")
              Sql.initial)|reflexivity].
  - repeat split.
  - apply (bool_decide_unpack _). vm_compute. exact I.
  - apply (bool_decide_unpack _). vm_compute. exact I.
Defined.
